(** * Competitor discovery and keyword mapping pipeline

    A shallow embedding of the capability-based competitor discovery and
    keyword-mapping pipeline:

    - [backend/llm_client.py]     (class [AzureOpenAIClient]),
    - [agents/competitor_agent.py] (class [CompetitorFetchingAgent]),
    - [agents/competitive_analysis_agent.py], [crew.py], [main.py],
    - [backend/scraper.py] (class [WebScraper]).

    Conventions of the embedding.

    - Python [str] is [string]; characters are the 7-bit ASCII code points
      (for code points above 127 [lower] and [strip] leave the text alone).
    - Python dicts with a fixed key set are records.  A key of a parsed
      oracle object is a [field]: absent, [null] or a value, so that
      [d.get(k)], [d.get(k, default)] and [x or default] keep their
      meaning.  Search volumes and relevance scores are integers, costs per
      click are rationals, all other values are strings; oracle objects of
      another shape are outside the model.
    - The network ([_fetch_page], [chat_completion]) is an arbitrary
      function of the history of requests; every call is appended to a log
      that is threaded through the code (module [Effects]).
    - HTML parsing (BeautifulSoup, total) and [json.loads] (partial) are
      parameters. *)

From stdpp Require Import gmap strings list sorting.
From Stdlib Require Import ZArith QArith.QArith_base Ascii.

Local Open Scope Z_scope.

(** ** Python string operations *)

Module PyStr.

Definition str_len (s : string) : Z := Z.of_nat (String.length s).

(** [c.lower()] on one character. *)
Definition lower_char (c : ascii) : ascii :=
  let n := nat_of_ascii c in
  if (Nat.leb 65 n && Nat.leb n 90)%bool then ascii_of_nat (n + 32) else c.

(** [s.lower()] *)
Fixpoint lower (s : string) : string :=
  match s with
  | EmptyString => EmptyString
  | String c s' => String (lower_char c) (lower s')
  end.

(** Characters removed by [str.strip()] without argument. *)
Definition is_space (c : ascii) : bool :=
  let n := nat_of_ascii c in
  ((Nat.leb 9 n && Nat.leb n 13) || (Nat.leb 28 n && Nat.leb n 32))%bool.

Definition is_empty (s : string) : bool :=
  match s with EmptyString => true | _ => false end.

(** Python truthiness of a string: [bool(s)]. *)
Definition truthy (s : string) : bool := negb (is_empty s).

Fixpoint lstrip (s : string) : string :=
  match s with
  | EmptyString => EmptyString
  | String c s' => if is_space c then lstrip s' else s
  end.

Fixpoint rstrip (s : string) : string :=
  match s with
  | EmptyString => EmptyString
  | String c s' =>
      let r := rstrip s' in
      if (is_space c && is_empty r)%bool then EmptyString else String c r
  end.

(** [s.strip()] *)
Definition strip (s : string) : string := rstrip (lstrip s).

(** [s.rstrip(ch)] for a one-character argument. *)
Fixpoint rstrip_char (ch : ascii) (s : string) : string :=
  match s with
  | EmptyString => EmptyString
  | String c s' =>
      let r := rstrip_char ch s' in
      if (Ascii.eqb c ch && is_empty r)%bool then EmptyString else String c r
  end.

(** [s.startswith(p)] *)
Fixpoint startswith (p s : string) : bool :=
  match p, s with
  | EmptyString, _ => true
  | String a p', String b s' => (Ascii.eqb a b && startswith p' s')%bool
  | String _ _, EmptyString => false
  end.

(** [t in s] *)
Fixpoint str_in (t s : string) : bool :=
  (startswith t s ||
   match s with
   | EmptyString => false
   | String _ s' => str_in t s'
   end)%bool.

(** [s.replace(a, b)] for one-character [a] and [b]. *)
Fixpoint replace_char (a b : ascii) (s : string) : string :=
  match s with
  | EmptyString => EmptyString
  | String c s' => String (if Ascii.eqb c a then b else c) (replace_char a b s')
  end.

Fixpoint take_nat (n : nat) (s : string) : string :=
  match n, s with
  | O, _ => EmptyString
  | S n', String c s' => String c (take_nat n' s')
  | S _, EmptyString => EmptyString
  end.

Fixpoint drop_nat (n : nat) (s : string) : string :=
  match n, s with
  | O, _ => s
  | S n', String _ s' => drop_nat n' s'
  | S _, EmptyString => EmptyString
  end.

(** [s[:n]] for [n >= 0]. *)
Definition take (n : Z) (s : string) : string := take_nat (Z.to_nat n) s.

(** [s[n:]] for [n >= 0]. *)
Definition drop (n : Z) (s : string) : string := drop_nat (Z.to_nat n) s.

(** [s.find(ch)]: index of the first occurrence, [-1] when there is none. *)
Fixpoint find (ch : ascii) (s : string) : Z :=
  match s with
  | EmptyString => -1
  | String c s' =>
      if Ascii.eqb c ch then 0
      else let r := find ch s' in if r <? 0 then -1 else r + 1
  end.

(** [s.rfind(ch)]: index of the last occurrence, [-1] when there is none. *)
Fixpoint rfind (ch : ascii) (s : string) : Z :=
  match s with
  | EmptyString => -1
  | String c s' =>
      let r := rfind ch s' in
      if 0 <=? r then r + 1
      else if Ascii.eqb c ch then 0 else -1
  end.

(** [s[a:b]] for [0 <= a]; an empty string when [b <= a]. *)
Definition slice (a b : Z) (s : string) : string :=
  take (b - a) (drop a s).

(** First occurrence of the separator: the text before it and the text
    after it; [None] when the separator does not occur. *)
Fixpoint partition (sep s : string) : option (string * string) :=
  if startswith sep s then Some (EmptyString, drop_nat (String.length sep) s)
  else match s with
       | EmptyString => None
       | String c s' =>
           match partition sep s' with
           | Some (a, b) => Some (String c a, b)
           | None => None
           end
       end.

(** [s.split(sep)[0]] for a non-empty separator. *)
Definition split_nth0 (sep s : string) : string :=
  match partition sep s with
  | Some (a, _) => a
  | None => s
  end.

(** [s.split(sep)[1]] for a non-empty separator; [None] is the
    [IndexError] raised when the separator does not occur. *)
Definition split_nth1 (sep s : string) : option string :=
  match partition sep s with
  | Some (_, b) => Some (split_nth0 sep b)
  | None => None
  end.

(** The text without one final line feed. *)
Fixpoint rstrip_one (s : string) : string :=
  match s with
  | EmptyString => EmptyString
  | String c s' =>
      if (Ascii.eqb c "010" && is_empty s')%bool then EmptyString
      else String c (rstrip_one s')
  end.

(** [sep.join(l)] *)
Fixpoint join (sep : string) (l : list string) : string :=
  match l with
  | [] => EmptyString
  | [x] => x
  | x :: l' => x +:+ sep +:+ join sep l'
  end.

Definition first_char (s : string) : option ascii :=
  match s with
  | EmptyString => None
  | String c _ => Some c
  end.

Fixpoint last_char (s : string) : option ascii :=
  match s with
  | EmptyString => None
  | String c EmptyString => Some c
  | String _ s' => last_char s'
  end.

(** [t] occurs in [s] when the case of the letters is ignored. *)
Definition contains_ci (t s : string) : bool := str_in (lower t) (lower s).

End PyStr.

(** ** Parsed JSON objects *)

(** One key of a parsed JSON object. *)
Inductive field (A : Type) : Type :=
| Absent
| Null
| Val (a : A).

Arguments Absent {A}.
Arguments Null {A}.
Arguments Val {A} a.

(** [d.get(k)] *)
Definition get {A} (f : field A) : option A :=
  match f with
  | Val a => Some a
  | _ => None
  end.

(** [d.get(k, default)]: the default only replaces an absent key. *)
Definition get_default {A} (f : field A) (d : A) : option A :=
  match f with
  | Absent => Some d
  | Null => None
  | Val a => Some a
  end.

Definition is_absent {A} (f : field A) : bool :=
  match f with Absent => true | _ => false end.

(** [x or d] where [x] is [None] or a value with the given truthiness. *)
Definition py_or {A} (truthy : A -> bool) (x : option A) (d : A) : A :=
  match x with
  | Some v => if truthy v then v else d
  | None => d
  end.

Definition truthy_int (z : Z) : bool := negb (z =? 0).
Definition truthy_num (q : Q) : bool := negb (Qnum q =? 0).

(** [bool(x)] for an optional string ([None] or [str]). *)
Definition truthy_opt_str (x : option string) : bool :=
  match x with
  | Some s => PyStr.truthy s
  | None => false
  end.

(** ** Effects: the network, exceptions and the request log *)

Module Effects.

(** A request that leaves the process: a page fetch ([httpx] GET) or an
    oracle call ([chat_completion]) described by its task and the values
    interpolated into its prompt. *)
Inductive request : Type :=
| Fetch (url : string)
| Chat (task : string) (args : list string).

Inductive exn : Type :=
| Exception (msg : string)
| HTTPException (status_code : Z) (detail : string)
| LibraryError (origin : string).

(** HTML parsed by BeautifulSoup, after the non-content elements have been
    removed: the text of the title tag (empty when there is none), the
    stripped texts of the h1 elements, then h2, h3 and h4, the
    whitespace-collapsed text of the main content area, and the
    ([href], stripped visible text) pairs of the anchors that have an
    [href], in document order. *)
Record soup : Type := {
  soup_title : string;
  soup_headings : list string;
  soup_text : string;
  soup_links : list (string * string)
}.

(** One object of the oracle's keyword lists.  The keys are typed: a
    volume or a relevance score is a JSON integer, a cost per click a
    JSON number.  [json.loads] also accepts an answer that gives one of
    them as a string; the code never checks this, and the sorts of the
    keyword mapper (by [search_volume]) raise [TypeError] on a mix of
    strings and numbers.  Such answers are outside the model: what is
    proved about the lists of the mapper holds for answers of the shape
    the prompts ask for. *)
Record keyword_obj : Type := {
  o_keyword : field string;
  o_weekly_volume : field Z;
  o_monthly_volume : field Z;
  o_yearly_volume : field Z;
  o_cpc : field Q;
  o_difficulty : field string;
  o_relevance_score : field Z;
  o_found_in : field string
}.

(** The [capability] object of the oracle. *)
Record capability : Type := {
  name : field string;
  description : field string;
  category : field string;
  competitor_search_terms : field (list string);
  common_url_paths : field (list string)
}.

(** The [competitor_capability] object of the oracle. *)
Record competitor_capability : Type := {
  cc_competitor_name : field string;
  likely_feature_name : field string;
  probable_urls : field (list string);
  search_query : field string;
  terminology_hints : field (list string)
}.

(** Everything outside the process.  [net history request] is the text
    the network answers, [None] when the call fails (status error,
    timeout, transport error).  The [loads_*] functions are [json.loads]
    at the places it is used, [None] when it raises; [parse_html] is
    BeautifulSoup as the competitor agent uses it and
    [parse_article_html] as the article scraper uses it (there the title
    is the text of the title tag, else of the first h1); the parser is
    lenient, every text parses. *)
Record env : Type := {
  net : list request -> request -> option string;
  parse_html : string -> soup;
  parse_article_html : string -> soup;
  loads_capability : string -> option (field capability);
  loads_competitor_capability : string -> option (field competitor_capability);
  loads_keywords : string -> option (field (list keyword_obj));
  loads_mapping : string -> option (field keyword_obj)
}.

Inductive outcome (A : Type) : Type :=
| Ok (a : A)
| Raise (e : exn).

Arguments Ok {A} a.
Arguments Raise {A} e.

(** A computation reads the environment and extends the request log. *)
Definition M (A : Type) : Type := env -> list request -> outcome A * list request.

Definition ret {A} (a : A) : M A := fun _ h => (Ok a, h).

Definition raise {A} (e : exn) : M A := fun _ h => (Raise e, h).

Definition bind {A B} (m : M A) (k : A -> M B) : M B :=
  fun E h =>
    match m E h with
    | (Ok a, h') => k a E h'
    | (Raise e, h') => (Raise e, h')
    end.

(** [try: m  except Exception: handler] *)
Definition try_except {A} (m : M A) (handler : exn -> M A) : M A :=
  fun E h =>
    match m E h with
    | (Ok a, h') => (Ok a, h')
    | (Raise e, h') => handler e E h'
    end.

Definition ask : M env := fun E h => (Ok E, h).

(** One network call: the answer depends on the history, the call is
    logged. *)
Definition call (r : request) : M (option string) :=
  fun E h => (Ok (net E h r), h ++ [r]).

Definition lift {A} (o : outcome A) : M A := fun _ h => (o, h).

(** A [for] loop over a list with an accumulator. *)
Fixpoint for_each {A S} (l : list A) (body : A -> S -> M S) (s : S) : M S :=
  match l with
  | [] => ret s
  | x :: l' => bind (body x s) (for_each l' body)
  end.

(** Run a computation from the empty log. *)
Definition run {A} (E : env) (m : M A) : outcome A * list request := m E [].

Definition is_fetch (r : request) : bool :=
  match r with Fetch _ => true | Chat _ _ => false end.

End Effects.

Import Effects.

Notation "'let*' x := m 'in' k" := (bind m (fun x => k))
  (at level 10, x pattern, m at level 100, k at level 200).

(** ** Python list operations *)

Module PyList.

(** [l.sort(key=key, reverse=True)]: the sort is stable, also in
    reverse: entries with equal keys keep their relative order.  The
    insertion puts [x] in front of the first entry whose key is not
    larger. *)
Fixpoint insert_desc {A} (key : A -> Z) (x : A) (l : list A) : list A :=
  match l with
  | [] => [x]
  | y :: l' => if key y <=? key x then x :: y :: l' else y :: insert_desc key x l'
  end.

Fixpoint sort_desc {A} (key : A -> Z) (l : list A) : list A :=
  match l with
  | [] => []
  | x :: l' => insert_desc key x (sort_desc key l')
  end.

(** The order of a list sorted with [reverse=True]. *)
Definition desc {A} (key : A -> Z) (a b : A) : Prop := key b <= key a.

(** Keep the first entry of every key, in the order of the list. *)
Fixpoint first_occurrences {A K} `{EqDecision K} (key : A -> K) (l : list A) : list A :=
  match l with
  | [] => []
  | x :: l' => x :: filter (fun y => key y <> key x) (first_occurrences key l')
  end.

End PyList.

(** ** backend/config.py *)

Module config.

Record competitor : Type := { comp_name : string; comp_url : string }.

Definition PRODUCT_COMPETITORS (product : string) : option (list competitor) :=
  if String.eqb product "Assets" then
    Some [ {| comp_name := "Bynder"; comp_url := "https://www.bynder.com/" |};
           {| comp_name := "Brandfolder"; comp_url := "https://brandfolder.com/" |};
           {| comp_name := "Canto"; comp_url := "https://www.canto.com/" |};
           {| comp_name := "Widen"; comp_url := "https://www.widen.com/" |} ]
  else if String.eqb product "Forms" then
    Some [ {| comp_name := "Typeform"; comp_url := "https://www.typeform.com/" |};
           {| comp_name := "Jotform"; comp_url := "https://www.jotform.com/" |};
           {| comp_name := "Formstack"; comp_url := "https://www.formstack.com/" |};
           {| comp_name := "Wufoo"; comp_url := "https://www.wufoo.com/" |} ]
  else if String.eqb product "Sites" then
    Some [ {| comp_name := "Wix"; comp_url := "https://www.wix.com/" |};
           {| comp_name := "Squarespace"; comp_url := "https://www.squarespace.com/" |};
           {| comp_name := "Webflow"; comp_url := "https://webflow.com/" |};
           {| comp_name := "WordPress"; comp_url := "https://wordpress.com/" |} ]
  else None.

(** [SEMRUSH_URL_TEMPLATE.format(keyword=k)] *)
Definition SEMRUSH_URL_TEMPLATE (k : string) : string :=
  "https://www.semrush.com/analytics/keywordmagic/?q=" +:+ k +:+ "&db=us".

End config.

(** ** The dictionaries passed between the stages *)

Module Data.

(** A keyword row of [article_keywords], [competitor_keywords] and
    [suggested_keywords].  Article rows carry no [used_by] key, which is
    read with [kw.get('used_by', [])]: it is the empty list here.  The
    key [relevance_score] only exists in the suggestion pool. *)
Record kw_entry : Type := {
  keyword : string;
  search_volume : option Z;
  cpc : option Q;
  difficulty : option string;
  tool : string;
  source : string;
  used_by : list string;
  relevance_score : option Z;
  semrush_url : string
}.

(** A competitor term found for one article keyword (the rows of a
    mapping's [competitor_keywords]). *)
Record term : Type := {
  t_keyword : string;
  t_competitor : string;
  t_search_volume : Z;
  t_cpc : Q;
  t_difficulty : string;
  t_relevance_score : Z;
  t_found_in : option string
}.

Record keyword_mapping : Type := {
  article_keyword : string * option Z;
  competitor_keywords : list term
}.

(** One row of [competitor_content]. *)
Record competitor_content : Type := {
  competitor_name : string;
  competitor_url : string;
  capability_name : option string;
  competitor_feature_name : option string;
  urls_scraped : list string;
  content : string;
  headings : list string;
  content_terminology_hints : option (list string);
  pages_scraped : nat
}.

(** The dictionary returned by [get_competitor_keywords]. *)
Record keyword_data : Type := {
  article_keywords : list kw_entry;
  all_competitor_keywords : list kw_entry;
  suggested_keywords : list kw_entry;
  keyword_mappings : list keyword_mapping
}.

End Data.

Import Data.

(** ** backend/llm_client.py *)

Module llm_client.

Import PyStr PyList.

Definition EXCLUDED_PRODUCT_TERMS : list string :=
  [ "adaptive form"; "adaptive forms";
    "aem sites"; "aem site";
    "aem forms"; "aem form";
    "aem as a cloud service"; "aem cloud service";
    "aem assets"; "aem asset";
    "adobe experience manager";
    "experience manager";
    "aem" ].

(** [chat_completion]: any failure of the request is an exception. *)
Definition chat_completion (task : string) (args : list string) : M string :=
  let* response := call (Chat task args) in
  match response with
  | Some text => ret text
  | None => raise (Exception "OpenAI API Error")
  end.

Definition _get_volume_field_name (time_range : string) : outcome string :=
  if String.eqb time_range "week" then Ok "weekly_volume"
  else if String.eqb time_range "year" then Ok "yearly_volume"
  else if String.eqb time_range "month" then Ok "monthly_volume"
  else Raise (Exception ("Invalid time_range: " +:+ time_range +:+ ". Must be: week, month, or year")).

Definition _generate_semrush_url (keyword : string) : string :=
  config.SEMRUSH_URL_TEMPLATE (replace_char " " "+" keyword).

Definition _is_excluded_keyword (keyword : string) : bool :=
  let keyword_lower := strip (lower keyword) in
  existsb (fun term => str_in term keyword_lower) EXCLUDED_PRODUCT_TERMS.

(** An excluded term as the exclusion test expects it: lower-case,
    beginning and ending with a character that [strip] keeps. *)
Definition plain_term (t : string) : bool :=
  (String.eqb (lower t) t
   && from_option (fun a => negb (is_space a)) false (first_char t)
   && from_option (fun a => negb (is_space a)) false (last_char t))%bool.

(** The text between the first opening and the last closing brace:
    [response[json_start:json_end]], [None] when the guard
    [json_start == -1 or json_end <= json_start] holds. *)
Definition json_span (response : string) : option string :=
  let json_start := find "{" response in
  let json_end := rfind "}" response + 1 in
  if ((json_start =? -1) || (json_end <=? json_start))%bool then None
  else Some (slice json_start json_end response).

(** [json.loads]: a failure is an exception of the library. *)
Definition json_loads {A} (loads : env -> string -> option A) (text : string) : M A :=
  let* E := ask in
  match loads E text with
  | Some data => ret data
  | None => raise (LibraryError "json.loads")
  end.

(** [bool(d)] of the parsed [capability] dictionary. *)
Definition capability_nonempty (c : capability) : bool :=
  negb (is_absent (name c) && is_absent (description c) && is_absent (category c)
        && is_absent (competitor_search_terms c) && is_absent (common_url_paths c)).

Definition identify_article_capability
    (title : string) (headings : list string) (content url : string) : M capability :=
  let* response :=
    chat_completion "identify_article_capability"
      ([url; title; take 3000 content] ++ firstn 15 headings) in
  match json_span response with
  | None => raise (Exception "Failed to identify article capability - invalid JSON response")
  | Some text =>
      let* data := json_loads loads_capability text in
      match get data with
      | Some capability =>
          if (negb (capability_nonempty capability)
              || negb (truthy_opt_str (get (name capability))))%bool
          then raise (Exception "Failed to identify article capability")
          else ret capability
      | None => raise (Exception "Failed to identify article capability")
      end
  end.


(** The empty dictionary [{}]. *)
Definition empty_competitor_capability : competitor_capability :=
  {| cc_competitor_name := Absent; likely_feature_name := Absent;
     probable_urls := Absent; search_query := Absent; terminology_hints := Absent |}.

Definition find_competitor_capability_urls
    (capability : capability) (competitor_name competitor_base_url : string)
    (competitor_content : string) : M (option competitor_capability) :=
  let capability_name := default "" (get_default (name capability) "") in
  let search_terms := default [] (get_default (competitor_search_terms capability) []) in
  let* response :=
    chat_completion "find_competitor_capability_urls"
      ([capability_name; default "" (get_default (description capability) "");
        competitor_name; competitor_base_url; take 2000 competitor_content]
       ++ search_terms) in
  match json_span response with
  | None => raise (Exception ("Failed to find competitor URLs for " +:+ competitor_name))
  | Some text =>
      let* data := json_loads loads_competitor_capability text in
      ret (get_default data empty_competitor_capability)
  end.

(** [kw.get(volume_field)] *)
Definition get_volume (kw : keyword_obj) (volume_field : string) : option Z :=
  if String.eqb volume_field "weekly_volume" then get (o_weekly_volume kw)
  else if String.eqb volume_field "monthly_volume" then get (o_monthly_volume kw)
  else if String.eqb volume_field "yearly_volume" then get (o_yearly_volume kw)
  else None.

Definition TOOL_ARTICLE : string := "Azure OpenAI + Web Scraping".
Definition SOURCE_ARTICLE : string := "Article Content Analysis".

(** The filtering loop of [extract_article_keywords]. *)
Fixpoint filter_keywords (volume_field : string) (keywords : list keyword_obj)
    (filtered_keywords : list kw_entry) : outcome (list kw_entry) :=
  match keywords with
  | [] => Ok filtered_keywords
  | kw :: rest =>
      let keyword_text := get_default (o_keyword kw) "" in
      let kw_volume := get_volume kw volume_field in
      let kw_cpc := get (o_cpc kw) in
      let kw_difficulty := get (o_difficulty kw) in
      match keyword_text with
      | None => filter_keywords volume_field rest filtered_keywords
      | Some keyword_text =>
          if negb (truthy keyword_text) then
            filter_keywords volume_field rest filtered_keywords
          else if negb (bool_decide (is_Some kw_volume)) then
            Raise (Exception ("OpenAI did not return search volume for keyword: " +:+ keyword_text))
          else if negb (bool_decide (is_Some kw_cpc)) then
            Raise (Exception ("OpenAI did not return CPC for keyword: " +:+ keyword_text))
          else if negb (bool_decide (is_Some kw_difficulty)) then
            Raise (Exception ("OpenAI did not return difficulty for keyword: " +:+ keyword_text))
          else if negb (_is_excluded_keyword keyword_text) then
            filter_keywords volume_field rest
              (filtered_keywords ++
               [ {| keyword := keyword_text;
                    search_volume := kw_volume;
                    cpc := kw_cpc;
                    difficulty := kw_difficulty;
                    tool := TOOL_ARTICLE;
                    source := SOURCE_ARTICLE;
                    used_by := [];
                    relevance_score := None;
                    semrush_url := _generate_semrush_url keyword_text |} ])
          else filter_keywords volume_field rest filtered_keywords
      end
  end.

Definition extract_article_keywords
    (title : string) (headings : list string) (content url time_range : string)
    : M (list kw_entry) :=
  let* volume_field := lift (_get_volume_field_name time_range) in
  let* response :=
    chat_completion "extract_article_keywords"
      ([url; title; take 4000 content; time_range; volume_field] ++ firstn 20 headings) in
  match json_span response with
  | None => raise (Exception "OpenAI returned invalid JSON response")
  | Some text =>
      let* data := json_loads loads_keywords text in
      match get data with
      | None | Some [] => raise (Exception "OpenAI returned no keywords")
      | Some keywords =>
          let* filtered_keywords := lift (filter_keywords volume_field keywords []) in
          match filtered_keywords with
          | [] => raise (Exception "All extracted keywords were filtered out (contained product names)")
          | _ => ret (firstn 10 filtered_keywords)
          end
      end
  end.

(** [None] is the Python [None] returned when the response holds no
    brace span; otherwise the [competitor_keyword] key of the parsed
    object. *)
Definition find_competitor_keyword_for_article_keyword
    (article_keyword article_context competitor_name competitor_content : string)
    (competitor_headings : list string) (time_range : string)
    : M (option (field keyword_obj)) :=
  let* volume_field := lift (_get_volume_field_name time_range) in
  let* response :=
    chat_completion "find_competitor_keyword_for_article_keyword"
      [article_keyword; take 500 article_context; competitor_name;
       join ", " (firstn 15 competitor_headings); take 3000 competitor_content;
       volume_field] in
  match json_span response with
  | None => ret None
  | Some text =>
      let* data := json_loads loads_mapping text in
      ret (Some data)
  end.

Definition TOOL_COMPETITOR : string := "Competitor Website Scraping".
Definition SOURCE_COMPETITOR : string := "Competitor Analysis".

(** [bool(ckw)] of a parsed [competitor_keyword] dictionary. *)
Definition keyword_obj_nonempty (o : keyword_obj) : bool :=
  negb (is_absent (o_keyword o) && is_absent (o_weekly_volume o)
        && is_absent (o_monthly_volume o) && is_absent (o_yearly_volume o)
        && is_absent (o_cpc o) && is_absent (o_difficulty o)
        && is_absent (o_relevance_score o) && is_absent (o_found_in o)).

(** The term stored for an accepted [competitor_keyword] object: the
    values with their defaults. *)
Definition term_of (volume_field comp_name ckw_text : string) (ckw : keyword_obj) : term :=
  let kw_volume :=
    py_or truthy_int (get_volume ckw volume_field)
      (py_or truthy_int (get_volume ckw "monthly_volume") 500) in
  let kw_cpc := py_or truthy_num (get (o_cpc ckw)) (3 # 2)%Q in
  let kw_difficulty := py_or truthy (get (o_difficulty ckw)) "medium" in
  let kw_relevance := py_or truthy_int (get (o_relevance_score ckw)) 7 in
  {| t_keyword := ckw_text;
     t_competitor := comp_name;
     t_search_volume := kw_volume;
     t_cpc := kw_cpc;
     t_difficulty := kw_difficulty;
     t_relevance_score := kw_relevance;
     t_found_in := get_default (o_found_in ckw) "content" |}.

(** What the mapping loop does with the oracle's answer for one
    (article keyword, competitor) pair. *)
Definition accept_term (volume_field comp_name : string)
    (result : option (field keyword_obj)) (competitor_terms_for_keyword : list term)
    : list term :=
  match result with
  | Some data =>
      match get data with
      | Some ckw =>
          if keyword_obj_nonempty ckw then
            match get_default (o_keyword ckw) "" with
            | Some ckw_text =>
                if (truthy ckw_text && negb (_is_excluded_keyword ckw_text))%bool then
                  competitor_terms_for_keyword ++ [term_of volume_field comp_name ckw_text ckw]
                else competitor_terms_for_keyword
            | None => competitor_terms_for_keyword
            end
          else competitor_terms_for_keyword
      | None => competitor_terms_for_keyword
      end
  | None => competitor_terms_for_keyword
  end.

(** A term that passed the text checks of the mapping loop. *)
Definition accepted (t : term) : Prop :=
  truthy (t_keyword t) ∧ _is_excluded_keyword (t_keyword t) = false.

(** The body of the loop over the competitors, for one article keyword. *)
Definition map_competitor
    (article_kw article_title article_content time_range volume_field : string)
    (comp : competitor_content) (competitor_terms_for_keyword : list term)
    : M (list term) :=
  let comp_name := competitor_name comp in
  let comp_text := content comp in
  let comp_headings := headings comp in
  if negb (truthy comp_text) then ret competitor_terms_for_keyword
  else
    try_except
      (let* result :=
         find_competitor_keyword_for_article_keyword article_kw
           (article_title +:+ ". " +:+ take 300 article_content)
           comp_name comp_text comp_headings time_range in
       ret (accept_term volume_field comp_name result competitor_terms_for_keyword))
      (fun _ => ret competitor_terms_for_keyword).

(** [text.lower().strip()] *)
Definition norm_text (text : string) : string := strip (lower text).

(** [a.lower().strip() == b.lower().strip()] *)
Definition same_text (a b : string) : bool :=
  String.eqb (norm_text a) (norm_text b).

Definition new_competitor_keyword (t : term) : kw_entry :=
  {| keyword := t_keyword t;
     search_volume := Some (t_search_volume t);
     cpc := Some (t_cpc t);
     difficulty := Some (t_difficulty t);
     tool := TOOL_COMPETITOR;
     source := SOURCE_COMPETITOR;
     used_by := [t_competitor t];
     relevance_score := None;
     semrush_url := _generate_semrush_url (t_keyword t) |}.

(** [existing_kw['used_by'].append(competitor)] unless it is there. *)
Definition add_used_by (competitor : string) (existing_kw : kw_entry) : kw_entry :=
  if bool_decide (competitor ∈ used_by existing_kw) then existing_kw
  else {| keyword := keyword existing_kw;
          search_volume := search_volume existing_kw;
          cpc := cpc existing_kw;
          difficulty := difficulty existing_kw;
          tool := tool existing_kw;
          source := source existing_kw;
          used_by := used_by existing_kw ++ [competitor];
          relevance_score := relevance_score existing_kw;
          semrush_url := semrush_url existing_kw |}.

(** One term enters the global list: the first row with the same
    text is updated in place, otherwise a new row is appended. *)
Fixpoint merge_term (t : term) (competitor_keywords_all : list kw_entry) : list kw_entry :=
  match competitor_keywords_all with
  | [] => [new_competitor_keyword t]
  | existing :: rest =>
      if same_text (keyword existing) (t_keyword t)
      then add_used_by (t_competitor t) existing :: rest
      else existing :: merge_term t rest
  end.

Definition merge_terms (terms : list term) (competitor_keywords_all : list kw_entry)
    : list kw_entry :=
  foldl (fun all t => merge_term t all) competitor_keywords_all terms.

(** The body of the loop over the article keywords. *)
Definition map_article_keyword
    (article_keywords : list kw_entry)
    (article_title article_content time_range volume_field : string)
    (competitor_content : list competitor_content)
    (article_kw : string) (acc : list keyword_mapping * list kw_entry)
    : M (list keyword_mapping * list kw_entry) :=
  let '(keyword_mappings, competitor_keywords_all) := acc in
  let article_kw_data :=
    List.find (fun akw => String.eqb (lower (keyword akw)) (lower article_kw))
      article_keywords in
  let* competitor_terms_for_keyword :=
    for_each competitor_content
      (map_competitor article_kw article_title article_content time_range volume_field)
      [] in
  match competitor_terms_for_keyword with
  | [] => ret acc
  | _ =>
      let competitor_terms_for_keyword :=
        sort_desc t_search_volume competitor_terms_for_keyword in
      ret (keyword_mappings ++
           [ {| article_keyword :=
                  (article_kw,
                   match article_kw_data with
                   | Some d => search_volume d
                   | None => Some 0
                   end);
                competitor_keywords := competitor_terms_for_keyword |} ],
           merge_terms competitor_terms_for_keyword competitor_keywords_all)
  end.

(** The state of the loop over the article keywords: the global list is
    the merge of the terms of the mappings found so far, and every
    mapping holds accepted terms sorted by volume. *)
Definition mapper_state (st : list keyword_mapping * list kw_entry) : Prop :=
  st.2 = merge_terms (concat (competitor_keywords <$> st.1)) []
  ∧ Forall (fun m => Forall accepted (competitor_keywords m)
                     ∧ StronglySorted (desc t_search_volume) (competitor_keywords m)) st.1.

Definition clean_row (akw : kw_entry) : kw_entry :=
  {| keyword := keyword akw;
     search_volume := search_volume akw;
     cpc := cpc akw;
     difficulty := difficulty akw;
     tool := TOOL_ARTICLE;
     source := SOURCE_ARTICLE;
     used_by := [];
     relevance_score := None;
     semrush_url := _generate_semrush_url (keyword akw) |}.

(** [article_keywords_clean] *)
Definition clean_article_keywords (article_keywords : list kw_entry) : list kw_entry :=
  clean_row <$>
    filter (fun akw => truthy (keyword akw) && negb (_is_excluded_keyword (keyword akw)))
      (firstn 5 article_keywords).

Definition pool_row (used : list string) (relevance : Z) (kw : kw_entry) : kw_entry :=
  {| keyword := keyword kw;
     search_volume := search_volume kw;
     cpc := cpc kw;
     difficulty := difficulty kw;
     tool := tool kw;
     source := source kw;
     used_by := used;
     relevance_score := Some relevance;
     semrush_url := semrush_url kw |}.

(** [all_keywords_for_suggestion] before it is sorted. *)
Definition suggestion_pool (article_keywords_clean competitor_keywords_all : list kw_entry)
    : list kw_entry :=
  ((fun akw => pool_row [] 10 akw) <$>
     filter (fun akw => is_Some (search_volume akw)) article_keywords_clean)
  ++ ((fun ckw => pool_row (used_by ckw) 8 ckw) <$>
        filter (fun ckw => is_Some (search_volume ckw)) competitor_keywords_all).

(** The sort key [x.get('search_volume') or 0]. *)
Definition volume_key (kw : kw_entry) : Z := py_or truthy_int (search_volume kw) 0.

Definition suggested_row (kw : kw_entry) : kw_entry :=
  {| keyword := keyword kw;
     search_volume := search_volume kw;
     cpc := cpc kw;
     difficulty := difficulty kw;
     tool := tool kw;
     source := "Highest Volume";
     used_by := used_by kw;
     relevance_score := None;
     semrush_url := semrush_url kw |}.

(** The selection loop over the sorted pool, with its [seen_keywords]
    set and the [break] at five rows. *)
Fixpoint select_suggested (pool : list kw_entry) (seen_keywords : gset string)
    (suggested_keywords : list kw_entry) : list kw_entry :=
  match pool with
  | [] => suggested_keywords
  | kw :: rest =>
      let keyword_text := lower (keyword kw) in
      let '(seen_keywords, suggested_keywords) :=
        if (truthy keyword_text && bool_decide (keyword_text ∉ seen_keywords))%bool
        then ({[keyword_text]} ∪ seen_keywords, suggested_keywords ++ [suggested_row kw])
        else (seen_keywords, suggested_keywords) in
      if bool_decide (5 <= List.length suggested_keywords)%nat then suggested_keywords
      else select_suggested rest seen_keywords suggested_keywords
  end.

(** The suggestion ranker: pool, sort, select. *)
Definition rank_suggestions (article_keywords_clean competitor_keywords_all : list kw_entry)
    : list kw_entry :=
  select_suggested
    (sort_desc volume_key (suggestion_pool article_keywords_clean competitor_keywords_all))
    ∅ [].

Definition get_competitor_keywords
    (article_keywords : list kw_entry) (product time_range : string)
    (article_title article_content : string)
    (competitor_content : list competitor_content) : M keyword_data :=
  match config.PRODUCT_COMPETITORS product with
  | None | Some [] => raise (Exception ("No competitors configured for product: " +:+ product))
  | Some (_ :: _) =>
      let article_kw_list :=
        filter (fun k => truthy k) (keyword <$> article_keywords) in
      match article_kw_list with
      | [] => raise (Exception "No article keywords provided for competitor analysis")
      | _ =>
          let* volume_field := lift (_get_volume_field_name time_range) in
          match competitor_content with
          | [] => raise (Exception "No competitor content provided - competitor websites must be scraped first")
          | _ =>
              let article_kw_list := firstn 5 article_kw_list in
              let competitor_content := firstn 2 competitor_content in
              let* (keyword_mappings, competitor_keywords_all) :=
                for_each article_kw_list
                  (map_article_keyword article_keywords article_title article_content
                     time_range volume_field competitor_content)
                  ([], []) in
              let article_keywords_clean := clean_article_keywords article_keywords in
              ret {| article_keywords := article_keywords_clean;
                     all_competitor_keywords := competitor_keywords_all;
                     suggested_keywords :=
                       rank_suggestions article_keywords_clean competitor_keywords_all;
                     keyword_mappings := keyword_mappings |}
          end
      end
  end.

End llm_client.

(** ** agents/competitor_agent.py *)

Module competitor_agent.

Import PyStr.

Definition nl : string := String "010" EmptyString.

Definition get_competitors (product : string) : outcome (list config.competitor) :=
  match config.PRODUCT_COMPETITORS product with
  | Some competitors => Ok competitors
  | None => Raise (Exception ("Unknown product type: " +:+ product))
  end.

Definition _get_common_paths : list string :=
  [ "/help"; "/help/"; "/support"; "/support/"; "/docs"; "/docs/";
    "/documentation"; "/blog"; "/blog/"; "/features"; "/features/";
    "/product"; "/products"; "/resources"; "/resources/"; "/learn";
    "/guides"; "/faq"; "/knowledge-base"; "/articles" ].

(** [if url not in discovered_urls: discovered_urls.append(url)] *)
Definition append_new (url : string) (discovered_urls : list string) : list string :=
  if bool_decide (url ∈ discovered_urls) then discovered_urls
  else discovered_urls ++ [url].

Definition help_keywords : list string :=
  [ "help"; "support"; "docs"; "documentation"; "knowledge"; "faq"; "guide";
    "learn"; "resources"; "how-to"; "blog"; "features"; "product" ].

(** The body of the loop over the anchors of the main page. *)
Definition scan_link (base_domain : string) (discovered_urls : list string)
    (link : string * string) : list string :=
  let href := link.1 in
  let link_text := lower link.2 in
  let is_help_link :=
    existsb (fun kw => str_in kw (lower href) || str_in kw link_text) help_keywords in
  if is_help_link then
    let full_url :=
      if startswith "/" href then Some ("https://" +:+ base_domain +:+ href)
      else if startswith "http" href then Some href
      else None in
    match full_url with
    | Some full_url =>
        if (str_in base_domain full_url || str_in "help." full_url
            || str_in "support." full_url)%bool
        then append_new full_url discovered_urls
        else discovered_urls
    | None => discovered_urls
    end
  else discovered_urls.

Definition discover (E : env) (base_url main_page_html : string) : list string :=
  let discovered_urls := [] in
  let base_url_clean := rstrip_char "/" base_url in
  let base_domain :=
    match split_nth1 "//" base_url_clean with
    | Some rest => split_nth0 "/" rest
    | None => base_url_clean
    end in
  let common_paths := _get_common_paths in
  let discovered_urls :=
    foldl (fun discovered_urls path => append_new (base_url_clean +:+ path) discovered_urls)
      discovered_urls common_paths in
  let discovered_urls :=
    if truthy main_page_html then
      let soup := parse_html E main_page_html in
      foldl (scan_link base_domain) discovered_urls (soup_links soup)
    else discovered_urls in
  firstn 10 discovered_urls.

(** [discover_help_urls] awaits nothing: it is a function of its
    arguments, given the parser. *)
Definition discover_help_urls (base_url main_page_html : string) : M (list string) :=
  let* E := ask in ret (discover E base_url main_page_html).

(** [_fetch_page] with [raise_on_error=False]: a failed request is the
    empty string. *)
Definition _fetch_page (url : string) : M string :=
  let* response := call (Fetch url) in
  ret (default "" response).

Record content_data : Type := {
  cd_url : string;
  cd_title : string;
  cd_headings : list string;
  cd_content : string
}.

(** [_extract_content] is synchronous and touches no network: it is a
    function of the markup, given the parser. *)
Definition extract_content (E : env) (html url : string) : content_data :=
  if negb (truthy html) then
    {| cd_url := url; cd_title := ""; cd_headings := []; cd_content := "" |}
  else
    let soup := parse_html E html in
    let headings :=
      filter (fun text => truthy text && (3 <? str_len text)) (soup_headings soup) in
    {| cd_url := url;
       cd_title := soup_title soup;
       cd_headings := firstn 30 headings;
       cd_content := take 8000 (soup_text soup) |}.

Definition _extract_content (html url : string) : M content_data :=
  let* E := ask in ret (extract_content E html url).

(** The dictionary [result] of [scrape_capability_specific_urls]. *)
Record scrape_result : Type := {
  urls_tried : list (string * string);
  urls_successful : list string;
  content_extracted : string;
  sr_headings : list string
}.

Definition tried (url status : string) (result : scrape_result) : scrape_result :=
  {| urls_tried := urls_tried result ++ [(url, status)];
     urls_successful := urls_successful result;
     content_extracted := content_extracted result;
     sr_headings := sr_headings result |}.

Definition succeeded (url : string) (cd : content_data) (result : scrape_result)
    : scrape_result :=
  {| urls_tried := urls_tried result ++ [(url, "success")];
     urls_successful := urls_successful result ++ [url];
     content_extracted :=
       content_extracted result
       +:+ (nl +:+ nl +:+ "=== FROM " +:+ url +:+ " ===" +:+ nl)
       +:+ take 4000 (cd_content cd);
     sr_headings := sr_headings result ++ cd_headings cd |}.

(** The body of the loop over [probable_urls[:5]]. *)
Definition try_url (url : string) (result : scrape_result) : M scrape_result :=
  try_except
    (let* html := _fetch_page url in
     if (truthy html && (500 <? str_len html))%bool then
       let* cd := _extract_content html url in
       if (truthy (cd_content cd) && (200 <? str_len (cd_content cd)))%bool
       then ret (succeeded url cd result)
       else ret (tried url "no_content" result)
     else ret (tried url "empty" result))
    (fun _ => ret (tried url "error" result)).

(** The pages the network answers when the URLs are fetched in turn
    after the history [h]: each URL with its markup. *)
Fixpoint fetched (E : env) (h : list request) (urls : list string)
    : list (string * string) :=
  match urls with
  | [] => []
  | url :: rest =>
      (url, default "" (net E h (Fetch url))) :: fetched E (h ++ [Fetch url]) rest
  end.

(** The body extracted from a fetched page. *)
Definition page_body (E : env) (page : string * string) : string :=
  cd_content (extract_content E page.2 page.1).

(** The test of [try_url] on a fetched page. *)
Definition page_succeeds (E : env) (page : string * string) : bool :=
  (truthy page.2 && (500 <? str_len page.2)
   && truthy (page_body E page) && (200 <? str_len (page_body E page)))%bool.

(** What a successful page adds to [content_extracted]. *)
Definition page_contribution (E : env) (page : string * string) : string :=
  (nl +:+ nl +:+ "=== FROM " +:+ page.1 +:+ " ===" +:+ nl) +:+ take 4000 (page_body E page).

Definition concat_str (l : list string) : string := foldr String.append "" l.

Definition scrape_capability_specific_urls
    (competitor_name competitor_base_url : string) (probable_urls : list string)
    (feature_name : option string) : M scrape_result :=
  let result :=
    {| urls_tried := []; urls_successful := []; content_extracted := ""; sr_headings := [] |} in
  let* result := for_each (firstn 5 probable_urls) try_url result in
  match urls_successful result with
  | [] =>
      let* html := _fetch_page competitor_base_url in
      if truthy html then
        let* cd := _extract_content html competitor_base_url in
        if truthy (cd_content cd) then
          ret {| urls_tried := urls_tried result;
                 urls_successful := urls_successful result ++ [competitor_base_url];
                 content_extracted := take 5000 (cd_content cd);
                 sr_headings := cd_headings cd |}
        else ret result
      else ret result
  | _ => ret result
  end.

(** The merge of the oracle's URLs with the discovered ones: the loop
    with the [seen] set. *)
Fixpoint unique_loop (all_urls_to_try : list string) (seen : gset string)
    (unique_urls : list string) : list string :=
  match all_urls_to_try with
  | [] => unique_urls
  | url :: rest =>
      if bool_decide (url ∉ seen)
      then unique_loop rest ({[url]} ∪ seen) (unique_urls ++ [url])
      else unique_loop rest seen unique_urls
  end.

Definition merge_urls (llm_urls discovered_help_urls : list string) : list string :=
  let all_urls_to_try := llm_urls ++ discovered_help_urls in
  unique_loop all_urls_to_try ∅ [].

(** [bool(d)] of the parsed [competitor_capability] dictionary. *)
Definition competitor_capability_nonempty (c : competitor_capability) : bool :=
  negb (is_absent (cc_competitor_name c) && is_absent (likely_feature_name c)
        && is_absent (probable_urls c) && is_absent (search_query c)
        && is_absent (terminology_hints c)).

(** The capability-specific attempt for one competitor (the inner
    [try] block): [Some row] when the loop goes on to the next competitor
    with a new row, [None] when the code falls through to the fallback. *)
Definition capability_attempt (capability : capability) (capability_name : option string)
    (comp : config.competitor) (fallback_content : string)
    (discovered_help_urls : list string) : M (option competitor_content) :=
  try_except
    (let* competitor_capability :=
       llm_client.find_competitor_capability_urls capability
         (config.comp_name comp) (config.comp_url comp) (take 1500 fallback_content) in
     match competitor_capability with
     | Some cc =>
         if competitor_capability_nonempty cc then
           let likely_feature_name :=
             match likely_feature_name cc with
             | Absent => capability_name
             | f => get f
             end in
           let terminology_hints := get_default (terminology_hints cc) [] in
           match get_default (probable_urls cc) [] with
           | None => raise (LibraryError "TypeError")
           | Some llm_urls =>
               let unique_urls := merge_urls llm_urls discovered_help_urls in
               let* scrape_result :=
                 scrape_capability_specific_urls (config.comp_name comp)
                   (config.comp_url comp) unique_urls likely_feature_name in
               if truthy (content_extracted scrape_result) then
                 ret (Some
                   {| competitor_name := config.comp_name comp;
                      competitor_url := config.comp_url comp;
                      capability_name := capability_name;
                      competitor_feature_name := likely_feature_name;
                      urls_scraped := urls_successful scrape_result;
                      content := take 8000 (content_extracted scrape_result);
                      headings := firstn 30 (sr_headings scrape_result);
                      content_terminology_hints := terminology_hints;
                      pages_scraped := List.length (urls_successful scrape_result) |})
               else ret None
           end
         else ret None
     | None => ret None
     end)
    (fun _ => ret None).

(** The row built from the main page of a competitor. *)
Definition main_page_row (capability_name : option string) (comp : config.competitor)
    (page_content : string) (page_headings : list string) : competitor_content :=
  {| competitor_name := config.comp_name comp;
     competitor_url := config.comp_url comp;
     capability_name := capability_name;
     competitor_feature_name := capability_name;
     urls_scraped := [config.comp_url comp];
     content := take 6000 page_content;
     headings := firstn 20 page_headings;
     content_terminology_hints := Some [];
     pages_scraped := 1 |}.

(** The fallback on the main page content fetched at the start of the
    iteration. *)
Definition main_page_fallback (capability_name : option string) (comp : config.competitor)
    (fallback_content : string) (fallback_headings : list string)
    (competitor_content : list Data.competitor_content) : list Data.competitor_content :=
  if (truthy fallback_content && (200 <? str_len fallback_content))%bool
  then competitor_content ++
       [main_page_row capability_name comp fallback_content fallback_headings]
  else competitor_content.

(** The body of the loop over the competitors. *)
Definition process_competitor (capability : capability) (capability_name : option string)
    (comp : config.competitor) (competitor_content : list Data.competitor_content)
    : M (list Data.competitor_content) :=
  try_except
    (let* main_html := _fetch_page (config.comp_url comp) in
     let* main_content :=
       if truthy main_html then
         let* cd := _extract_content main_html (config.comp_url comp) in ret (Some cd)
       else ret None in
     let fallback_content := from_option cd_content "" main_content in
     let fallback_headings := from_option cd_headings [] main_content in
     let* discovered_help_urls :=
       if truthy main_html then discover_help_urls (config.comp_url comp) main_html
       else ret [] in
     let* row :=
       capability_attempt capability capability_name comp fallback_content
         discovered_help_urls in
     match row with
     | Some row => ret (competitor_content ++ [row])
     | None =>
         ret (main_page_fallback capability_name comp fallback_content fallback_headings
                competitor_content)
     end)
    (fun _ => ret competitor_content).

(** The body of the second loop, run when no competitor gave a row. *)
Definition main_page_only (capability_name : option string)
    (comp : config.competitor) (competitor_content : list Data.competitor_content)
    : M (list Data.competitor_content) :=
  try_except
    (let* html := _fetch_page (config.comp_url comp) in
     if truthy html then
       let* cd := _extract_content html (config.comp_url comp) in
       if (truthy (cd_content cd)
           && (200 <? str_len (cd_content cd)))%bool
       then ret (competitor_content ++
                 [main_page_row capability_name comp (cd_content cd) (cd_headings cd)])
       else ret competitor_content
     else ret competitor_content)
    (fun _ => ret competitor_content).

Definition get_competitor_content_for_capability (product : string)
    (capability : capability) : M (list Data.competitor_content) :=
  let* competitors := lift (get_competitors product) in
  let capability_name := get_default (name capability) "Unknown" in
  let* competitor_content :=
    for_each competitors (process_competitor capability capability_name) [] in
  let* competitor_content :=
    match competitor_content with
    | [] => for_each competitors (main_page_only capability_name) []
    | _ => ret competitor_content
    end in
  match competitor_content with
  | [] => raise (Exception "Failed to scrape any competitor content for capability")
  | _ => ret competitor_content
  end.

End competitor_agent.

(** ** backend/scraper.py and agents/keyword_extraction_agent.py *)

Module scraper.

Import PyStr.

Definition fetch_page (url : string) : M string :=
  let* response := call (Fetch url) in
  match response with
  | None => raise (Exception ("Failed to fetch URL " +:+ url))
  | Some html =>
      if (negb (truthy html) || (str_len html <? 100))%bool
      then raise (Exception ("Failed to fetch URL " +:+ url))
      else ret html
  end.

(** The scraped article: title, headings, content. *)
Definition scrape_url (url : string) : M (string * list string * string) :=
  let* html := fetch_page url in
  let* E := ask in
  let soup := parse_article_html E html in
  let title := soup_title soup in
  if negb (truthy title) then raise (Exception ("No title found in URL: " +:+ url))
  else
    let headings :=
      filter (fun text => truthy text && (3 <? str_len text)) (soup_headings soup) in
    let content := soup_text soup in
    if (negb (truthy content) || (str_len content <? 100))%bool
    then raise (Exception ("No meaningful content found in URL: " +:+ url))
    else ret (title, headings, content).

End scraper.

(** ** agents/competitive_analysis_agent.py, crew.py and main.py *)

Module pipeline.

Import PyStr.

(** The dictionary returned by [analyze_competitor_keywords]. *)
Record analysis : Type := {
  an_capability : capability;
  an_competitors_scraped : nat;
  an_keywords : keyword_data
}.

Definition analyze_competitor_keywords
    (article_keywords : list kw_entry) (product time_range : string)
    (article_title article_content : string) (article_headings : list string)
    (article_url : string) : M analysis :=
  let* competitors := lift (competitor_agent.get_competitors product) in
  let* capability :=
    llm_client.identify_article_capability article_title article_headings
      article_content article_url in
  let* competitor_content :=
    competitor_agent.get_competitor_content_for_capability product capability in
  let* keyword_data :=
    llm_client.get_competitor_keywords article_keywords product time_range
      article_title article_content competitor_content in
  ret {| an_capability := capability;
         an_competitors_scraped := List.length competitor_content;
         an_keywords := keyword_data |}.

Definition full_seo_analysis (url product time_range : string) : M analysis :=
  let* competitors := lift (competitor_agent.get_competitors product) in
  let* (title, headings, content) := scraper.scrape_url url in
  let* article_keywords :=
    llm_client.extract_article_keywords title headings content url time_range in
  analyze_competitor_keywords article_keywords product time_range title content
    headings url.

(** The prefixes of [URL_PATTERNS]. *)
Definition URL_PATTERNS (product : string) : option string :=
  let docs := "https://experienceleague.adobe.com/en/docs/experience-manager-cloud-service/content/" in
  if String.eqb product "Forms" then Some (docs +:+ "forms")
  else if String.eqb product "Assets" then Some (docs +:+ "assets")
  else if String.eqb product "Sites" then Some (docs +:+ "sites")
  else None.

(** [re.match] of the pattern of a product: the prefix, then
    optionally a slash and any characters; the dot matches no line feed
    and the dollar also matches in front of a final line feed. *)
Definition matches_pattern (prefix url : string) : bool :=
  (startswith prefix url &&
   let rest := rstrip_one (drop_nat (String.length prefix) url) in
   (is_empty rest || (startswith "/" rest && negb (str_in competitor_agent.nl rest))))%bool.

Definition validate_url_for_product (url product : string) : bool :=
  match URL_PATTERNS product with
  | Some prefix => matches_pattern prefix url
  | None => false
  end.

Definition valid_time_ranges : list string := ["week"; "month"; "year"].

(** The route [/api/analyze]. *)
Definition analyze_url (url product time_range : string) : M analysis :=
  if negb (bool_decide (is_Some (config.PRODUCT_COMPETITORS product))) then
    raise (HTTPException 400 "Invalid product")
  else if negb (bool_decide (time_range ∈ valid_time_ranges)) then
    raise (HTTPException 400 "time_range must be: week, month, or year")
  else if negb (validate_url_for_product url product) then
    raise (HTTPException 400 "Invalid URL")
  else
    try_except (full_seo_analysis url product time_range)
      (fun e =>
         match e with
         | HTTPException _ _ => raise e
         | Exception msg => raise (HTTPException 500 (take 500 msg))
         | LibraryError origin => raise (HTTPException 500 origin)
         end).

End pipeline.

(** ** Concrete environments and inputs *)

Module Examples.

Import PyStr.

Fixpoint repeat_char (c : ascii) (n : nat) : string :=
  match n with
  | O => EmptyString
  | S n' => String c (repeat_char c n')
  end.

Definition quote : string := String "034" EmptyString.

(** A page of plain text: the parser finds no title, no heading and no
    anchor, and the text of the document is the page itself. *)
Definition plain_soup (html : string) : soup :=
  {| soup_title := ""; soup_headings := []; soup_text := html; soup_links := [] |}.

Definition no_capability : capability :=
  {| name := Absent; description := Absent; category := Absent;
     competitor_search_terms := Absent; common_url_paths := Absent |}.

Definition form_validation : capability :=
  {| name := Val "Form Validation"; description := Absent; category := Absent;
     competitor_search_terms := Absent; common_url_paths := Absent |}.

(** The oracle's answer of scenario A, with some prose around it. *)
Definition empty_capability_json : string :=
  "{" +:+ quote +:+ "capability" +:+ quote +:+ ": {}}".

Definition empty_capability_answer : string :=
  "Here is the result: " +:+ empty_capability_json +:+ " Done.".

Definition scenario_A : env :=
  {| net := fun _ r =>
       match r with
       | Chat _ _ => Some empty_capability_answer
       | Fetch _ => None
       end;
     parse_html := plain_soup;
     parse_article_html := plain_soup;
     loads_capability := fun text =>
       if String.eqb text empty_capability_json then Some (Val no_capability) else None;
     loads_competitor_capability := fun _ => None;
     loads_keywords := fun _ => None;
     loads_mapping := fun _ => None |}.

Definition typeform : config.competitor :=
  {| config.comp_name := "Typeform"; config.comp_url := "https://www.typeform.com/" |}.

Definition guessed_url : string := "https://www.typeform.com/help/validation".

(** The oracle guesses one URL for the capability. *)
Definition guess_json : string :=
  "{" +:+ quote +:+ "competitor_capability" +:+ quote +:+ ": {"
  +:+ quote +:+ "probable_urls" +:+ quote +:+ ": ["
  +:+ quote +:+ guessed_url +:+ quote +:+ "]}}".

Definition guess : competitor_capability :=
  {| cc_competitor_name := Absent; likely_feature_name := Absent;
     probable_urls := Val [guessed_url]; search_query := Absent;
     terminology_hints := Absent |}.

(** Every page of the site is a plain text of [n] characters, except
    the main page, which has [m] characters. *)
Definition small_site (m n : nat) : env :=
  {| net := fun _ r =>
       match r with
       | Fetch url =>
           if String.eqb url (config.comp_url typeform)
           then Some (repeat_char "a" m) else Some (repeat_char "a" n)
       | Chat _ _ => Some guess_json
       end;
     parse_html := plain_soup;
     parse_article_html := plain_soup;
     loads_capability := fun _ => None;
     loads_competitor_capability := fun text =>
       if String.eqb text guess_json then Some (Val guess) else None;
     loads_keywords := fun _ => None;
     loads_mapping := fun _ => None |}.

(** The oracle was asked for the weekly volume and answered with the
    monthly one. *)
Definition monthly_only : keyword_obj :=
  {| o_keyword := Val "spam protection"; o_weekly_volume := Absent;
     o_monthly_volume := Val 3000; o_yearly_volume := Absent; o_cpc := Absent;
     o_difficulty := Absent; o_relevance_score := Absent; o_found_in := Absent |}.

Definition article_keyword_obj (text : string) (volume : Z) : keyword_obj :=
  {| o_keyword := Val text; o_weekly_volume := Absent; o_monthly_volume := Val volume;
     o_yearly_volume := Absent; o_cpc := Val (3 # 1)%Q; o_difficulty := Val "medium";
     o_relevance_score := Absent; o_found_in := Absent |}.

(** An oracle for the keyword stages: three article keywords, one of
    them with a product name; both competitors use the same term for
    every article keyword, written differently. *)
Definition keyword_oracle : env :=
  {| net := fun _ r =>
       match r with
       | Chat _ (_ :: _ :: "Typeform" :: _) => Some "{Typeform}"
       | Chat _ (_ :: _ :: "Jotform" :: _) => Some "{Jotform}"
       | Chat _ _ => Some "{keywords}"
       | Fetch _ => None
       end;
     parse_html := plain_soup;
     parse_article_html := plain_soup;
     loads_capability := fun _ => None;
     loads_competitor_capability := fun _ => None;
     loads_keywords := fun _ =>
       Some (Val [ article_keyword_obj "form validation" 2400;
                   article_keyword_obj "AEM Forms" 5000;
                   article_keyword_obj "reCAPTCHA" 900 ]);
     loads_mapping := fun text =>
       if String.eqb text "{Typeform}" then
         Some (Val {| o_keyword := Val "Spam Protection"; o_weekly_volume := Absent;
                      o_monthly_volume := Val 1200; o_yearly_volume := Absent;
                      o_cpc := Val (5 # 2)%Q; o_difficulty := Val "high";
                      o_relevance_score := Val 9; o_found_in := Val "heading" |})
       else
         Some (Val {| o_keyword := Val " spam protection "; o_weekly_volume := Absent;
                      o_monthly_volume := Absent; o_yearly_volume := Absent;
                      o_cpc := Absent; o_difficulty := Absent;
                      o_relevance_score := Absent; o_found_in := Absent |}) |}.

Definition scraped (competitor text : string) : competitor_content :=
  {| competitor_name := competitor; competitor_url := ""; capability_name := None;
     competitor_feature_name := None; urls_scraped := []; content := text;
     headings := []; content_terminology_hints := None; pages_scraped := 1 |}.

Definition row (text : string) (volume : option Z) : kw_entry :=
  {| keyword := text; search_volume := volume; cpc := None; difficulty := None;
     tool := ""; source := ""; used_by := []; relevance_score := None;
     semrush_url := "" |}.

End Examples.

(** ** The requests and the failures of a computation *)

Module Requests.

Definition is_chat (r : request) : bool := negb (is_fetch r).

(** The computation only adds requests to the log, and at most [n] of
    the requests it adds satisfy [P]. *)
Definition bounded {A} (P : request -> bool) (n : nat) (m : M A) : Prop :=
  forall E h, exists ext,
    (m E h).2 = h ++ ext ∧ (List.length (filter (fun r => P r) ext) <= n)%nat.

(** The computation returns, whatever the network answers. *)
Definition never_raises {A} (m : M A) : Prop :=
  forall E h, exists a h', m E h = (Ok a, h').

(** Every exception the computation raises satisfies [P]. *)
Definition raises_only {A} (P : exn -> Prop) (m : M A) : Prop :=
  forall E h e h', m E h = (Raise e, h') -> P e.

(** An exception of the pipeline itself, not an HTTP error response. *)
Definition not_http (e : exn) : Prop :=
  match e with
  | HTTPException _ _ => False
  | _ => True
  end.



End Requests.

(** ** backend/llm_client.py: the content rewriter *)

Module rewriting.

Import PyStr llm_client.

(** [s.split(sep)] for a one-character separator: the pieces between
    the occurrences of the separator, empty pieces included. *)
Fixpoint split_char (sep : ascii) (s : string) : list string :=
  match s with
  | EmptyString => [EmptyString]
  | String c s' =>
      if Ascii.eqb c sep then EmptyString :: split_char sep s'
      else match split_char sep s' with
           | piece :: pieces => String c piece :: pieces
           | [] => [String c EmptyString]
           end
  end.

(** The characters of the class [[.!?]]. *)
Definition is_mark (c : ascii) : bool :=
  (Ascii.eqb c "." || Ascii.eqb c "!" || Ascii.eqb c "?")%bool.

(** Where the scan of [re.split] stands: in a sentence, just behind a
    mark, or in the white space that separates two sentences. *)
Inductive scan : Type := InText | AfterMark | InGap.

Definition cons_head (c : ascii) (pieces : list string) : list string :=
  match pieces with
  | piece :: pieces => String c piece :: pieces
  | [] => [String c EmptyString]
  end.

(** [re.split] of the pattern that matches a run of white space behind
    a full stop, an exclamation mark or a question mark: the first piece
    is the rest of the current sentence. *)
Fixpoint split_sentences_from (st : scan) (s : string) : list string :=
  match s with
  | EmptyString => [EmptyString]
  | String c s' =>
      if is_space c then
        match st with
        | AfterMark => EmptyString :: split_sentences_from InGap s'
        | InGap => split_sentences_from InGap s'
        | InText => cons_head c (split_sentences_from InText s')
        end
      else cons_head c (split_sentences_from (if is_mark c then AfterMark else InText) s')
  end.

Definition split_sentences (content : string) : list string :=
  split_sentences_from InText content.

(** [chunks.append(chunk.strip())] when the chunk is not empty. *)
Definition flush (chunk : string) (chunks : list string) : list string :=
  if truthy chunk then chunks ++ [strip chunk] else chunks.

(** [chunk += " " + piece if chunk else piece] *)
Definition extend (chunk piece : string) : string :=
  if truthy chunk then chunk +:+ " " +:+ piece else piece.

(** The loop over the words of a sentence that is longer than a chunk. *)
Fixpoint split_words (max_chunk_size : Z) (words : list string)
    (chunks : list string) (sub_chunk : string) : list string * string :=
  match words with
  | [] => (chunks, sub_chunk)
  | word :: words =>
      if max_chunk_size <? str_len sub_chunk + str_len word + 1
      then split_words max_chunk_size words (flush sub_chunk chunks) word
      else split_words max_chunk_size words chunks (extend sub_chunk word)
  end.

(** The loop over the sentences. *)
Fixpoint split_loop (max_chunk_size : Z) (sentences : list string)
    (chunks : list string) (current_chunk : string) : list string * string :=
  match sentences with
  | [] => (chunks, current_chunk)
  | sentence :: sentences =>
      if max_chunk_size <? str_len current_chunk + str_len sentence + 1 then
        let chunks := flush current_chunk chunks in
        if max_chunk_size <? str_len sentence then
          let '(chunks, sub_chunk) :=
            split_words max_chunk_size (split_char " " sentence) chunks "" in
          split_loop max_chunk_size sentences chunks sub_chunk
        else split_loop max_chunk_size sentences chunks sentence
      else split_loop max_chunk_size sentences chunks (extend current_chunk sentence)
  end.

(** [range(0, stop, step)] for a positive step. *)
Definition range_step (stop step : Z) : list Z :=
  (fun k => Z.of_nat k * step) <$> seq 0 (Z.to_nat ((stop + step - 1) / step)).

(** The split by characters, used when the sentences gave no chunk: a
    chunk that is not the last one is cut at its last space when that
    space lies behind the middle of the chunk. *)
Definition force_split (content : string) (max_chunk_size : Z) : list string :=
  (fun i =>
     let chunk := slice i (i + max_chunk_size) content in
     let chunk :=
       if i + max_chunk_size <? str_len content then
         let last_space := rfind " " chunk in
         if max_chunk_size <? 2 * last_space then take last_space chunk else chunk
       else chunk in
     strip chunk)
  <$> range_step (str_len content) max_chunk_size.

(** [_split_into_sections], for a positive [max_chunk_size] (the
    rewriter passes 4000). *)
Definition _split_into_sections (content : string) (max_chunk_size : Z) : list string :=
  let content := strip content in
  if str_len content <=? max_chunk_size then [content]
  else
    let sentences := split_sentences content in
    let '(chunks, current_chunk) := split_loop max_chunk_size sentences [] "" in
    let chunks :=
      if truthy (strip current_chunk) then chunks ++ [strip current_chunk] else chunks in
    match chunks with
    | [] => force_split content max_chunk_size
    | _ => chunks
    end.

Definition fence : string := "```".

(** The removal of a Markdown code fence around the answer. *)
Definition strip_code_fence (result : string) : string :=
  if startswith fence result then
    let lines := split_char "010" result in
    let lines :=
      match lines with
      | line :: rest => if startswith fence line then rest else lines
      | [] => lines
      end in
    let lines :=
      match last lines with
      | Some line => if String.eqb (strip line) fence then removelast lines else lines
      | None => lines
      end in
    join competitor_agent.nl lines
  else result.

Definition double_quote : string := String "034" EmptyString.

Section rewriter.

(** The two substitutions [re.sub(pattern, '', result)] that remove a
    section label and a chunk label from the answer. *)
Variable re_sub_section_label : string -> string.
Variable re_sub_chunk_label : string -> string.

Definition _rewrite_section (section : string) (keywords : list string)
    (section_num total_sections : nat) (tone : string) : M string :=
  let keywords_str :=
    join ", " ((fun kw => double_quote +:+ kw +:+ double_quote) <$> keywords) in
  let* response := chat_completion "_rewrite_section" [keywords_str; tone; section] in
  let result := strip response in
  let result := strip_code_fence result in
  let result := re_sub_section_label result in
  let result := re_sub_chunk_label result in
  ret result.

(** The original chunk in a paragraph, used when the oracle gave no
    usable answer. *)
Definition paragraph (chunk : string) : string := "<p>" +:+ chunk +:+ "</p>".

(** The attempts for one chunk: the loop over [range(max_retries)] with
    its [break]. *)
Fixpoint rewrite_attempts (attempts : list nat) (max_retries : nat) (chunk : string)
    (keywords : list string) (chunk_num total_chunks : nat) (tone : string)
    (st : list string * nat) : M (list string * nat) :=
  match attempts with
  | [] => ret st
  | attempt :: attempts =>
      let '(rewritten_chunks, successful) := st in
      let last_attempt := Nat.eqb attempt (max_retries - 1) in
      let* (again, st) :=
        try_except
          (let* rewritten :=
             _rewrite_section chunk keywords chunk_num total_chunks tone in
           if (truthy rewritten && (50 <? str_len rewritten))%bool
           then ret (false, (rewritten_chunks ++ [rewritten], S successful))
           else if last_attempt
                then ret (true, (rewritten_chunks ++ [paragraph chunk], successful))
                else ret (true, st))
          (fun _ =>
             if last_attempt
             then ret (true, (rewritten_chunks ++ [paragraph chunk], successful))
             else ret (true, st)) in
      if (again : bool)
      then rewrite_attempts attempts max_retries chunk keywords chunk_num total_chunks
             tone st
      else ret st
  end.

(** The loop over the chunks: the rewritten chunks and the number of
    chunks the oracle rewrote. *)
Definition rewrite_chunks (chunks : list string) (keywords_to_use : list string)
    (tone : string) : M (list string * nat) :=
  let total_chunks := List.length chunks in
  for_each (zip (seq 0 total_chunks) chunks)
    (fun '(i, chunk) st =>
       let chunk_num := S i in
       let max_retries := 2%nat in
       rewrite_attempts (seq 0 max_retries) max_retries chunk keywords_to_use chunk_num
         total_chunks tone st)
    ([], 0%nat).

(** The request [_rewrite_section] sends for a section. *)
Definition rewrite_request (keywords : list string) (tone section : string) : request :=
  Chat "_rewrite_section"
    [join ", " ((fun kw => double_quote +:+ kw +:+ double_quote) <$> keywords); tone; section].

(** The cleaning of an answer in [_rewrite_section]. *)
Definition cleaned (response : string) : string :=
  re_sub_chunk_label (re_sub_section_label (strip_code_fence (strip response))).

(** The test [rewritten and len(rewritten) > 50]. *)
Definition usable (rewritten : string) : bool :=
  (truthy rewritten && (50 <? str_len rewritten))%bool.

(** The cleaned answer of the oracle to the request for a chunk sent
    after the history [h], when there is an answer and it is usable. *)
Definition usable_answer (E : env) (h : list request) (keywords : list string)
    (tone chunk : string) : option string :=
  match net E h (rewrite_request keywords tone chunk) with
  | Some response => if usable (cleaned response) then Some (cleaned response) else None
  | None => None
  end.

(** What is expected of the two attempts for a chunk that start after
    the history [h]: the piece kept, whether it is an answer of the
    oracle, and the history after the attempts.  The first usable answer
    is kept; without one the chunk itself is kept, in a paragraph. *)
Definition kept_piece (E : env) (h : list request) (keywords : list string)
    (tone chunk : string) : (string * bool) * list request :=
  let request := rewrite_request keywords tone chunk in
  match usable_answer E h keywords tone chunk with
  | Some rewritten => ((rewritten, true), h ++ [request])
  | None =>
      match usable_answer E (h ++ [request]) keywords tone chunk with
      | Some rewritten => ((rewritten, true), h ++ [request; request])
      | None => ((paragraph chunk, false), h ++ [request; request])
      end
  end.

(** The pieces expected for the chunks, in order. *)
Fixpoint kept_pieces (E : env) (h : list request) (keywords : list string)
    (tone : string) (chunks : list string) : list (string * bool) * list request :=
  match chunks with
  | [] => ([], h)
  | chunk :: chunks =>
      let '(piece, h) := kept_piece E h keywords tone chunk in
      let '(pieces, h) := kept_pieces E h keywords tone chunks in
      (piece :: pieces, h)
  end.

(** The dictionary returned by [rewrite_content_for_seo]. *)
Record rewrite_result : Type := {
  rewritten_content : string;
  target_keywords : list string;
  chunks_processed : nat;
  total_chunks : nat
}.

Definition rewrite_content_for_seo (content : string) (target_keywords : list string)
    (tone : string) : M rewrite_result :=
  match target_keywords with
  | [] => raise (Exception "No target keywords provided")
  | _ =>
      let keywords_to_use := firstn 3 target_keywords in
      let chunks := _split_into_sections content 4000 in
      let total_chunks := List.length chunks in
      let* (rewritten_chunks, successful) := rewrite_chunks chunks keywords_to_use tone in
      let combined := join (competitor_agent.nl +:+ competitor_agent.nl) rewritten_chunks in
      ret {| rewritten_content := combined;
             target_keywords := keywords_to_use;
             chunks_processed := successful;
             total_chunks := total_chunks |}
  end.

End rewriter.

End rewriting.

(** ** backend/scraper.py: several articles *)

Module scraper_batch.

Import PyStr.

(** One result of [scrape_url], with its URL. *)
Record scraped_page : Type := {
  page_url : string;
  page_title : string;
  page_headings : list string;
  page_content : string
}.

(** [str(e)]; the scraper raises plain exceptions only. *)
Definition str_exn (e : exn) : string :=
  match e with
  | Exception msg => msg
  | HTTPException _ detail => detail
  | LibraryError origin => origin
  end.

(** The body of the loop over the URLs. *)
Definition scrape_one (url : string) (st : list scraped_page * list string)
    : M (list scraped_page * list string) :=
  let '(results, errors) := st in
  try_except
    (let* (title, headings, content) := scraper.scrape_url url in
     ret (results ++ [ {| page_url := url; page_title := title;
                          page_headings := headings; page_content := content |} ],
          errors))
    (fun e => ret (results, errors ++ [url +:+ ": " +:+ str_exn e])).

Definition scrape_multiple_urls (urls : list string) : M (list scraped_page) :=
  let* (results, errors) := for_each urls scrape_one ([], []) in
  match results with
  | [] => raise (Exception ("Failed to scrape ALL URLs: " +:+ join "; " errors))
  | _ => ret results
  end.

(** Every URL with the outcome of its scrape, the URLs being requested
    in turn after the history [h]. *)
Fixpoint scraped (E : env) (h : list request) (urls : list string)
    : list (string * outcome (string * list string * string)) :=
  match urls with
  | [] => []
  | url :: rest =>
      (url, (scraper.scrape_url url E h).1) :: scraped E (h ++ [Fetch url]) rest
  end.

(** The entry of [results] for a URL that could be scraped. *)
Definition page_of (attempt : string * outcome (string * list string * string))
    : option scraped_page :=
  match attempt.2 with
  | Ok (title, headings, content) =>
      Some {| page_url := attempt.1; page_title := title; page_headings := headings;
              page_content := content |}
  | Raise _ => None
  end.

(** The entry of [errors] for a URL that could not be scraped. *)
Definition error_of (attempt : string * outcome (string * list string * string))
    : option string :=
  match attempt.2 with
  | Ok _ => None
  | Raise e => Some (attempt.1 +:+ ": " +:+ str_exn e)
  end.

Definition scrapable (attempt : string * outcome (string * list string * string)) : bool :=
  match attempt.2 with
  | Ok _ => true
  | Raise _ => false
  end.

End scraper_batch.

(** ** agents/competitor_agent.py: the request headers and the search by
    article keywords *)

Module rotation.

Definition headers_list : list (list (string * string)) :=
  [ [ ("User-Agent", "Mozilla/5.0 (Windows NT 10.0; Win64; x64) AppleWebKit/537.36 (KHTML, like Gecko) Chrome/120.0.0.0 Safari/537.36");
      ("Accept", "text/html,application/xhtml+xml,application/xml;q=0.9,image/avif,image/webp,image/apng,*/*;q=0.8");
      ("Accept-Language", "en-US,en;q=0.9");
      ("Accept-Encoding", "gzip, deflate, br");
      ("Connection", "keep-alive");
      ("Upgrade-Insecure-Requests", "1");
      ("Sec-Fetch-Dest", "document");
      ("Sec-Fetch-Mode", "navigate");
      ("Sec-Fetch-Site", "none");
      ("Sec-Fetch-User", "?1");
      ("Cache-Control", "max-age=0") ];
    [ ("User-Agent", "Mozilla/5.0 (Macintosh; Intel Mac OS X 10_15_7) AppleWebKit/605.1.15 (KHTML, like Gecko) Version/17.0 Safari/605.1.15");
      ("Accept", "text/html,application/xhtml+xml,application/xml;q=0.9,*/*;q=0.8");
      ("Accept-Language", "en-US,en;q=0.9");
      ("Accept-Encoding", "gzip, deflate, br");
      ("Connection", "keep-alive") ];
    [ ("User-Agent", "Mozilla/5.0 (Windows NT 10.0; Win64; x64; rv:121.0) Gecko/20100101 Firefox/121.0");
      ("Accept", "text/html,application/xhtml+xml,application/xml;q=0.9,image/avif,image/webp,*/*;q=0.8");
      ("Accept-Language", "en-US,en;q=0.5");
      ("Accept-Encoding", "gzip, deflate, br");
      ("Connection", "keep-alive") ] ].

(** [_get_rotated_headers] on the counter of the agent: the new counter
    and the headers, [None] being the [IndexError] of the list access. *)
Definition _get_rotated_headers (request_count : nat)
    : nat * option (list (string * string)) :=
  let request_count := S request_count in
  let header_index := (request_count mod List.length headers_list)%nat in
  (request_count, headers_list !! header_index).

End rotation.

Module topic_search.

Import PyStr competitor_agent.

Definition scrape_competitor_page (url : string) : M content_data :=
  let* html := _fetch_page url in
  _extract_content html url.

Definition scrape_all_competitors (product : string) : M (list (string * content_data)) :=
  let* competitors := lift (get_competitors product) in
  for_each competitors
    (fun comp results =>
       let* data := scrape_competitor_page (config.comp_url comp) in
       ret (results ++ [(config.comp_name comp, data)]))
    [].

(** An entry of [pages_found]. *)
Record found_page : Type := {
  fp_url : string;
  fp_title : string;
  fp_type : string
}.

(** The dictionary [search_results]; its key [headings] exists once a
    page gave content. *)
Record topic_result : Type := {
  search_competitor_name : string;
  search_competitor_url : string;
  pages_found : list found_page;
  search_content_extracted : string;
  search_headings : option (list string)
}.

Definition common_paths : list string :=
  [ "/blog"; "/resources"; "/help"; "/docs"; "/features" ].

(** The body of the loop over [common_paths[:2]]. *)
Definition try_path (base_url path : string) (search_results : topic_result)
    : M topic_result :=
  try_except
    (let test_url := base_url +:+ path in
     let* html := _fetch_page test_url in
     if (truthy html && (1000 <? str_len html))%bool then
       let* content := _extract_content html test_url in
       if truthy (cd_content content) then
         ret {| search_competitor_name := search_competitor_name search_results;
                search_competitor_url := search_competitor_url search_results;
                pages_found :=
                  pages_found search_results
                  ++ [ {| fp_url := test_url; fp_title := cd_title content;
                          fp_type := "sub_page" |} ];
                search_content_extracted :=
                  search_content_extracted search_results
                  +:+ " " +:+ take 3000 (cd_content content);
                search_headings :=
                  Some (default [] (search_headings search_results)
                        ++ cd_headings content) |}
       else ret search_results
     else ret search_results)
    (fun _ => ret search_results).

Definition search_competitor_for_topic (competitor_name competitor_url : string)
    (search_terms : list string) : M topic_result :=
  let search_results :=
    {| search_competitor_name := competitor_name;
       search_competitor_url := competitor_url;
       pages_found := [];
       search_content_extracted := "";
       search_headings := None |} in
  let* main_content := scrape_competitor_page competitor_url in
  let search_results :=
    if truthy (cd_content main_content) then
      {| search_competitor_name := competitor_name;
         search_competitor_url := competitor_url;
         pages_found :=
           pages_found search_results
           ++ [ {| fp_url := competitor_url; fp_title := cd_title main_content;
                   fp_type := "main_page" |} ];
         search_content_extracted := cd_content main_content;
         search_headings := Some (cd_headings main_content) |}
    else search_results in
  let base_url := rstrip_char "/" competitor_url in
  for_each (firstn 2 common_paths) (try_path base_url) search_results.

(** A row of the [competitor_content] of this search. *)
Record keyword_content : Type := {
  kc_competitor_name : string;
  kc_competitor_url : string;
  kc_content : string;
  kc_headings : list string;
  kc_pages_scraped : nat;
  kc_urls_scraped : list string
}.

(** The body of the loop over the competitors. *)
Definition search_competitor (article_keywords : list string) (comp : config.competitor)
    (competitor_content : list keyword_content) : M (list keyword_content) :=
  try_except
    (let* content_data :=
       search_competitor_for_topic (config.comp_name comp) (config.comp_url comp)
         (firstn 5 article_keywords) in
     if truthy (search_content_extracted content_data) then
       let pages_found := pages_found content_data in
       ret (competitor_content ++
            [ {| kc_competitor_name := config.comp_name comp;
                 kc_competitor_url := config.comp_url comp;
                 kc_content := take 6000 (search_content_extracted content_data);
                 kc_headings := firstn 20 (default [] (search_headings content_data));
                 kc_pages_scraped := List.length pages_found;
                 kc_urls_scraped := fp_url <$> pages_found |} ])
     else ret competitor_content)
    (fun _ => ret competitor_content).

Definition get_competitor_content_for_keywords (product : string)
    (article_keywords : list string) (article_title : string)
    : M (list keyword_content) :=
  let* competitors := lift (get_competitors product) in
  let* competitor_content :=
    for_each competitors (search_competitor article_keywords) [] in
  match competitor_content with
  | [] =>
      raise (Exception ("Failed to scrape content from any competitor websites for product: "
                        +:+ product))
  | _ => ret competitor_content
  end.

(** Every competitor with the outcome of the search on its site, the
    sites being searched in turn after the history [h]. *)
Fixpoint searched (E : env) (h : list request) (search_terms : list string)
    (competitors : list config.competitor)
    : list (config.competitor * outcome topic_result) :=
  match competitors with
  | [] => []
  | comp :: rest =>
      let '(found, h) :=
        search_competitor_for_topic (config.comp_name comp) (config.comp_url comp)
          search_terms E h in
      (comp, found) :: searched E h search_terms rest
  end.

(** The row of [competitor_content] for a competitor whose search gave
    content. *)
Definition row_of (found : config.competitor * outcome topic_result)
    : option keyword_content :=
  match found.2 with
  | Ok content_data =>
      if truthy (search_content_extracted content_data) then
        Some {| kc_competitor_name := config.comp_name found.1;
                kc_competitor_url := config.comp_url found.1;
                kc_content := take 6000 (search_content_extracted content_data);
                kc_headings := firstn 20 (default [] (search_headings content_data));
                kc_pages_scraped := List.length (pages_found content_data);
                kc_urls_scraped := fp_url <$> pages_found content_data |}
      else None
  | Raise _ => None
  end.

(** The search on the site of a competitor gave no content. *)
Definition without_content (found : config.competitor * outcome topic_result) : bool :=
  match found.2 with
  | Ok content_data => negb (truthy (search_content_extracted content_data))
  | Raise _ => true
  end.

End topic_search.

(** ** The shape of the rows the stages return *)

Module Rows.

Import PyStr llm_client.

(** A row of the global list of competitor keywords, where [names] are
    the competitors the mapper asked about. *)
Definition competitor_keyword_row (names : list string) (e : kw_entry) : Prop :=
  truthy (keyword e) = true
  ∧ is_Some (search_volume e) ∧ is_Some (cpc e) ∧ is_Some (difficulty e)
  ∧ tool e = TOOL_COMPETITOR ∧ source e = SOURCE_COMPETITOR
  ∧ semrush_url e = _generate_semrush_url (keyword e)
  ∧ used_by e ≠ [] ∧ NoDup (used_by e) ∧ used_by e ⊆ names.

(** A row of [competitor_content], whatever the competitor. *)
Definition content_row (capability_name : option string) (r : competitor_content) : Prop :=
  Data.capability_name r = capability_name
  ∧ truthy (content r) = true
  ∧ str_len (content r) <= 8000
  ∧ (List.length (headings r) <= 30)%nat
  ∧ pages_scraped r = List.length (urls_scraped r)
  ∧ (1 <= pages_scraped r)%nat.

(** The competitor a row of [competitor_content] is about. *)
Definition row_competitor (r : competitor_content) : config.competitor :=
  {| config.comp_name := competitor_name r; config.comp_url := competitor_url r |}.

End Rows.

(** ** More concrete environments and inputs *)

Module Scenarios.

Import PyStr Examples.

(** A product name the oracle returns without a cost per click. *)
Definition product_name_without_cpc : keyword_obj :=
  {| o_keyword := Val "AEM Forms"; o_weekly_volume := Absent; o_monthly_volume := Val 5000;
     o_yearly_volume := Absent; o_cpc := Absent; o_difficulty := Val "high";
     o_relevance_score := Absent; o_found_in := Absent |}.

(** An oracle whose keyword list holds a complete keyword and the
    incomplete product name. *)
Definition incomplete_oracle : env :=
  {| net := fun _ r =>
       match r with
       | Chat _ _ => Some "{keywords}"
       | Fetch _ => None
       end;
     parse_html := plain_soup;
     parse_article_html := plain_soup;
     loads_capability := fun _ => None;
     loads_competitor_capability := fun _ => None;
     loads_keywords := fun _ =>
       Some (Val [ article_keyword_obj "form validation" 2400; product_name_without_cpc ]);
     loads_mapping := fun _ => None |}.

Definition forms_article : string :=
  "https://experienceleague.adobe.com/en/docs/experience-manager-cloud-service/content/forms/validation".

(** A site whose pages have 150 characters of text, a title and two
    headings, one of them of three characters; the oracle is down. *)
Definition article_site : env :=
  {| net := fun _ r =>
       match r with
       | Fetch _ => Some (repeat_char "a" 150)
       | Chat _ _ => None
       end;
     parse_html := plain_soup;
     parse_article_html := fun html =>
       {| soup_title := "Form validation"; soup_headings := ["Validation rules"; "FAQ"];
          soup_text := html; soup_links := [] |};
     loads_capability := fun _ => None;
     loads_competitor_capability := fun _ => None;
     loads_keywords := fun _ => None;
     loads_mapping := fun _ => None |}.

(** A site whose pages have 300 characters of plain text; the oracle is
    down. *)
Definition oracle_down : env :=
  {| net := fun _ r =>
       match r with
       | Fetch _ => Some (repeat_char "a" 300)
       | Chat _ _ => None
       end;
     parse_html := plain_soup;
     parse_article_html := plain_soup;
     loads_capability := fun _ => None;
     loads_competitor_capability := fun _ => None;
     loads_keywords := fun _ => None;
     loads_mapping := fun _ => None |}.

(** Five pages of a competitor and what the network gives for them:
    5,000, 300 and 4,500 characters, a failure, and 600 characters. *)
Definition page_a : string := "https://www.typeform.com/help/a".
Definition page_b : string := "https://www.typeform.com/help/b".
Definition page_c : string := "https://www.typeform.com/help/c".
Definition page_d : string := "https://www.typeform.com/help/d".
Definition page_e : string := "https://www.typeform.com/help/e".
Definition page_f : string := "https://www.typeform.com/help/f".

(** The oracle guesses three pages and names the first one twice. *)
Definition guesses : competitor_capability :=
  {| cc_competitor_name := Absent; likely_feature_name := Val "Answer checks";
     probable_urls := Val [page_a; page_b; page_c; page_a]; search_query := Absent;
     terminology_hints := Absent |}.

Definition guesses_json : string :=
  "{" +:+ quote +:+ "competitor_capability" +:+ quote +:+ ": {"
  +:+ quote +:+ "likely_feature_name" +:+ quote +:+ ": "
  +:+ quote +:+ "Answer checks" +:+ quote +:+ ", "
  +:+ quote +:+ "probable_urls" +:+ quote +:+ ": ["
  +:+ quote +:+ page_a +:+ quote +:+ ", " +:+ quote +:+ page_b +:+ quote +:+ ", "
  +:+ quote +:+ page_c +:+ quote +:+ ", " +:+ quote +:+ page_a +:+ quote +:+ "]}}".

Definition capability_site : env :=
  {| net := fun _ r =>
       match r with
       | Fetch url =>
           if String.eqb url page_a then Some (repeat_char "a" 5000)
           else if String.eqb url page_b then Some (repeat_char "b" 300)
           else if String.eqb url page_c then Some (repeat_char "c" 4500)
           else if String.eqb url page_d then None
           else Some (repeat_char "e" 600)
       | Chat _ _ => Some ("Here you are: " +:+ guesses_json)
       end;
     parse_html := plain_soup;
     parse_article_html := plain_soup;
     loads_capability := fun _ => None;
     loads_competitor_capability := fun text =>
       if String.eqb text guesses_json then Some (Val guesses) else None;
     loads_keywords := fun _ => None;
     loads_mapping := fun _ => None |}.




(** The oracle was asked for the weekly volume and answered with a
    monthly volume of zero only. *)
Definition monthly_zero : keyword_obj :=
  {| o_keyword := Val "spam protection"; o_weekly_volume := Absent;
     o_monthly_volume := Val 0; o_yearly_volume := Absent; o_cpc := Absent;
     o_difficulty := Absent; o_relevance_score := Absent; o_found_in := Absent |}.

(** An oracle for the rewriter that gives a short answer to the first
    request, a usable answer inside a code fence to the second one, and
    fails afterwards. *)
Definition fenced_answer : string :=
  rewriting.fence +:+ "html" +:+ competitor_agent.nl
  +:+ "<p>" +:+ repeat_char "x" 60 +:+ "</p>" +:+ competitor_agent.nl +:+ rewriting.fence.

Definition flaky_rewriter : env :=
  {| net := fun h r =>
       match r with
       | Chat _ _ =>
           match h with
           | [] => Some "ok"
           | [_] => Some fenced_answer
           | _ => None
           end
       | Fetch _ => None
       end;
     parse_html := plain_soup;
     parse_article_html := plain_soup;
     loads_capability := fun _ => None;
     loads_competitor_capability := fun _ => None;
     loads_keywords := fun _ => None;
     loads_mapping := fun _ => None |}.

(** Two sentences of 2,501 characters each. *)
Definition two_sentences : string :=
  repeat_char "a" 2500 +:+ ". " +:+ repeat_char "b" 2500 +:+ ".".

(** A site on which only the pages of the documentation exist: they
    have a title and 150 characters of text. *)
Definition docs_only : env :=
  {| net := fun _ r =>
       match r with
       | Fetch url =>
           if startswith "https://docs.example.com/" url
           then Some (repeat_char "a" 150) else None
       | Chat _ _ => None
       end;
     parse_html := plain_soup;
     parse_article_html := fun html =>
       {| soup_title := "Form validation"; soup_headings := ["Validation rules"; "FAQ"];
          soup_text := html; soup_links := [] |};
     loads_capability := fun _ => None;
     loads_competitor_capability := fun _ => None;
     loads_keywords := fun _ => None;
     loads_mapping := fun _ => None |}.

(** Of the competitors of the product only Jotform is reachable: its
    pages have 1,200 characters of plain text. *)
Definition jotform_only : env :=
  {| net := fun _ r =>
       match r with
       | Fetch url =>
           if startswith "https://www.jotform.com" url
           then Some (repeat_char "j" 1200) else None
       | Chat _ _ => None
       end;
     parse_html := plain_soup;
     parse_article_html := plain_soup;
     loads_capability := fun _ => None;
     loads_competitor_capability := fun _ => None;
     loads_keywords := fun _ => None;
     loads_mapping := fun _ => None |}.

(** The main page of the competitor has 650 characters of plain text
    when it is requested first and cannot be fetched afterwards; the
    other pages have 150 characters; the oracle guesses one URL. *)
Definition vanishing_main_page : env :=
  {| net := fun h r =>
       match r with
       | Fetch url =>
           if String.eqb url (config.comp_url typeform)
           then match h with
                | [] => Some (repeat_char "a" 650)
                | _ => None
                end
           else Some (repeat_char "a" 150)
       | Chat _ _ => Some guess_json
       end;
     parse_html := plain_soup;
     parse_article_html := plain_soup;
     loads_capability := fun _ => None;
     loads_competitor_capability := fun text =>
       if String.eqb text guess_json then Some (Val guess) else None;
     loads_keywords := fun _ => None;
     loads_mapping := fun _ => None |}.

End Scenarios.

Import Effects Data.

(** * Facts about the list operations *)

Lemma filter_all {A} (P : A -> Prop) `{!forall x, Decision (P x)} (l : list A) :
  (forall x, x ∈ l -> P x) -> filter P l = l.
Proof.
  induction l as [|x l IH]; intros Hall; [done|].
  rewrite filter_cons_True by (apply Hall; left).
  f_equal. apply IH. intros y Hy. apply Hall. by right.
Qed.

Lemma filter_cons_app {A} (P : A -> Prop) `{!forall x, Decision (P x)} (x : A) (l : list A) :
  filter P (x :: l) = filter P [x] ++ filter P l.
Proof. exact (filter_app P [x] l). Qed.

Section first_occurrences.
Context {A K : Type} `{EqDecision K} (key : A -> K).

Lemma first_occurrences_filter (P : K -> Prop) `{!forall k, Decision (P k)} (l : list A) :
  PyList.first_occurrences key (filter (fun x => P (key x)) l)
  = filter (fun x => P (key x)) (PyList.first_occurrences key l).
Proof.
  induction l as [|x l IH]; [done|].
  rewrite filter_cons. destruct (decide (P (key x))) as [HP|HP]; simpl.
  - rewrite filter_cons_True by done. f_equal. rewrite IH.
    rewrite !list_filter_filter. apply list_filter_iff. intros y. tauto.
  - rewrite filter_cons_False by done. rewrite IH.
    rewrite list_filter_filter. apply list_filter_iff.
    intros y. split; [|tauto]. intros Hy. split; [done|]. congruence.
Qed.

Lemma first_occurrences_sublist (l : list A) : PyList.first_occurrences key l `sublist_of` l.
Proof.
  induction l as [|x l IH]; simpl; [done|].
  constructor. etrans; [apply sublist_filter|done].
Qed.

Lemma first_occurrences_NoDup (l : list A) : NoDup (key <$> PyList.first_occurrences key l).
Proof.
  induction l as [|x l IH]; simpl; [constructor|].
  constructor.
  - rewrite list_elem_of_fmap. intros (y & Hy & Hin).
    apply list_elem_of_filter in Hin as [Hne _]. congruence.
  - eapply sublist_NoDup; [exact IH|]. apply fmap_sublist, sublist_filter.
Qed.

Lemma first_occurrences_keys (l : list A) (x : A) :
  x ∈ l -> key x ∈ key <$> PyList.first_occurrences key l.
Proof.
  induction l as [|y l IH]; simpl; [by rewrite elem_of_nil|].
  rewrite elem_of_cons. intros [->|Hin]; [left; done|].
  destruct (decide (key x = key y)) as [->|Hne]; [left; done|right].
  apply IH in Hin. apply list_elem_of_fmap in Hin as (z & Hz & Hin).
  apply list_elem_of_fmap. exists z. split; [done|].
  apply list_elem_of_filter. split; [congruence|done].
Qed.

Lemma first_occurrences_app (l1 l2 : list A) :
  PyList.first_occurrences key (l1 ++ l2)
  = PyList.first_occurrences key l1
    ++ filter (fun y => key y ∉ key <$> l1) (PyList.first_occurrences key l2).
Proof.
  induction l1 as [|x l1 IH]; simpl.
  - symmetry. apply filter_all. intros y _. apply not_elem_of_nil.
  - f_equal. rewrite IH, filter_app. f_equal.
    rewrite list_filter_filter. apply list_filter_iff. intros y.
    rewrite not_elem_of_cons. tauto.
Qed.

End first_occurrences.

Section sort_desc.
Context {A : Type} (key : A -> Z).

Lemma insert_desc_perm (x : A) (l : list A) : PyList.insert_desc key x l ≡ₚ x :: l.
Proof.
  induction l as [|y l IH]; simpl; [done|].
  destruct (key y <=? key x); [done|]. rewrite IH. apply Permutation_swap.
Qed.

Lemma sort_desc_perm (l : list A) : PyList.sort_desc key l ≡ₚ l.
Proof.
  induction l as [|x l IH]; simpl; [done|].
  rewrite insert_desc_perm. by rewrite IH.
Qed.

Lemma insert_desc_sorted (x : A) (l : list A) :
  StronglySorted (PyList.desc key) l -> StronglySorted (PyList.desc key) (PyList.insert_desc key x l).
Proof.
  induction 1 as [|y l Hl IH Hy]; simpl; [repeat constructor|].
  destruct (Z.leb_spec (key y) (key x)) as [Hle|Hlt].
  - constructor; [by constructor|]. constructor; [done|].
    eapply Forall_impl; [exact Hy|]. unfold PyList.desc. intros z Hz. lia.
  - constructor; [done|]. rewrite insert_desc_perm. constructor; [|done].
    unfold PyList.desc. lia.
Qed.

Lemma sort_desc_sorted (l : list A) : StronglySorted (PyList.desc key) (PyList.sort_desc key l).
Proof.
  induction l as [|x l IH]; simpl; [constructor|]. by apply insert_desc_sorted.
Qed.

Lemma insert_desc_stable (v : Z) (x : A) (l : list A) :
  filter (fun a => key a = v) (PyList.insert_desc key x l)
  = filter (fun a => key a = v) (x :: l).
Proof.
  induction l as [|y l IH]; simpl; [done|].
  destruct (Z.leb_spec (key y) (key x)) as [Hle|Hlt]; [done|].
  rewrite (filter_cons _ y), IH, !filter_cons.
  repeat case_decide; try done; lia.
Qed.

Lemma sort_desc_stable (v : Z) (l : list A) :
  filter (fun a => key a = v) (PyList.sort_desc key l) = filter (fun a => key a = v) l.
Proof.
  induction l as [|x l IH]; simpl; [done|].
  by rewrite insert_desc_stable, !filter_cons, IH.
Qed.

Lemma sorted_sublist (R : relation A) (l k : list A) :
  l `sublist_of` k -> StronglySorted R k -> StronglySorted R l.
Proof.
  induction 1 as [|x l k Hs IH|x l k Hs IH]; intros Hk; [done| |].
  - apply StronglySorted_inv in Hk as [Hk Hx]. constructor; [by apply IH|].
    eapply Forall_forall. intros y Hy. eapply Forall_forall in Hx; [done|].
    by eapply elem_of_sublist.
  - apply StronglySorted_inv in Hk as [Hk Hx]. by apply IH.
Qed.

End sort_desc.

(** * The URL candidates of a competitor *)

Section urls.
Import PyStr competitor_agent.

Lemma unique_loop_spec (l : list string) (seen : gset string) (acc : list string) :
  unique_loop l seen acc
  = acc ++ PyList.first_occurrences id (filter (fun u => u ∉ seen) l).
Proof.
  revert seen acc. induction l as [|u l IH]; intros seen acc; simpl.
  - by rewrite app_nil_r.
  - rewrite filter_cons. destruct (decide (u ∉ seen)) as [Hu|Hu].
    + rewrite bool_decide_true by done. rewrite IH. simpl. rewrite <- app_assoc. simpl.
      do 2 f_equal.
      etrans; [|exact (first_occurrences_filter id (fun k => k ≠ u) _)].
      f_equal. rewrite list_filter_filter. apply list_filter_iff.
      intros v. unfold id. rewrite not_elem_of_union, not_elem_of_singleton. tauto.
    + rewrite bool_decide_false by done. apply IH.
Qed.

Lemma merge_urls_spec (llm_urls discovered_help_urls : list string) :
  merge_urls llm_urls discovered_help_urls
  = PyList.first_occurrences id (llm_urls ++ discovered_help_urls).
Proof.
  unfold merge_urls. rewrite unique_loop_spec. simpl. f_equal.
  apply filter_all. intros u _. set_solver.
Qed.

Lemma append_inj (s a b : string) : s +:+ a = s +:+ b -> a = b.
Proof. induction s as [|c s IH]; simpl; [done|]. intros [= H]. by apply IH. Qed.

Lemma foldl_append_new {A} (f : A -> string) (acc : list string) (paths : list A) :
  NoDup (acc ++ (f <$> paths)) ->
  foldl (fun acc p => append_new (f p) acc) acc paths = acc ++ (f <$> paths).
Proof.
  revert acc. induction paths as [|p paths IH]; intros acc Hnd; simpl.
  - by rewrite app_nil_r.
  - unfold append_new at 2. rewrite bool_decide_false.
    + rewrite IH; [by rewrite <- app_assoc|]. by rewrite <- app_assoc.
    + apply NoDup_app in Hnd as (_ & Hdisj & _). intros Hin.
      apply (Hdisj _ Hin). left.
Qed.

Lemma scan_link_extends (base_domain : string) (acc : list string) (link : string * string) :
  exists extra, scan_link base_domain acc link = acc ++ extra.
Proof.
  unfold scan_link, append_new.
  repeat (case_match; try case_bool_decide);
    (by exists []; rewrite app_nil_r) || (by eexists [_]).
Qed.

Lemma foldl_scan_link_extends (base_domain : string) (links : list (string * string))
    (acc : list string) :
  exists extra, foldl (scan_link base_domain) acc links = acc ++ extra.
Proof.
  revert acc. induction links as [|link links IH]; intros acc; simpl.
  - exists []. by rewrite app_nil_r.
  - destruct (scan_link_extends base_domain acc link) as [e1 ->].
    destruct (IH (acc ++ e1)) as [e2 ->]. exists (e1 ++ e2). by rewrite app_assoc.
Qed.

Lemma common_paths_NoDup : NoDup _get_common_paths.
Proof. apply (bool_decide_unpack _). by vm_compute. Qed.

Lemma discover_spec (E : env) (base_url main_page_html : string) :
  discover E base_url main_page_html
  = (fun path => rstrip_char "/" base_url +:+ path) <$> firstn 10 _get_common_paths.
Proof.
  unfold discover.
  set (base := rstrip_char "/" base_url).
  rewrite (foldl_append_new (fun path => base +:+ path) [] _get_common_paths).
  2:{ rewrite app_nil_l. apply NoDup_fmap_2; [|apply common_paths_NoDup].
      intros a b. apply append_inj. }
  rewrite app_nil_l.
  assert (Hlen : (10 <= List.length ((fun path => base +:+ path) <$> _get_common_paths))%nat).
  { rewrite length_fmap. vm_compute. lia. }
  destruct (truthy main_page_html).
  - destruct (foldl_scan_link_extends
                (match split_nth1 "//" base with
                 | Some rest => split_nth0 "/" rest
                 | None => base
                 end)
                (soup_links (parse_html E main_page_html))
                ((fun path => base +:+ path) <$> _get_common_paths)) as [extra ->].
    rewrite take_app_le by exact Hlen. by rewrite fmap_take.
  - by rewrite fmap_take.
Qed.

(** C4: the URL candidates of a competitor are the oracle's URLs
    followed by the discovered URLs, every URL kept at its first
    occurrence only (exact string equality): the oracle's URLs come
    first, then the discovered URLs that are no oracle URL, both in
    their first-seen order. *)
Theorem merged_urls_oracle_first (llm_urls discovered_help_urls : list string) :
  let merged := merge_urls llm_urls discovered_help_urls in
  merged = PyList.first_occurrences id (llm_urls ++ discovered_help_urls)
  ∧ merged = PyList.first_occurrences id llm_urls
             ++ filter (fun u => u ∉ llm_urls)
                  (PyList.first_occurrences id discovered_help_urls)
  ∧ NoDup merged
  ∧ merged `sublist_of` llm_urls ++ discovered_help_urls
  ∧ (forall u, u ∈ merged <-> u ∈ llm_urls ∨ u ∈ discovered_help_urls).
Proof.
  intros merged. unfold merged. rewrite merge_urls_spec. split_and!.
  - done.
  - rewrite first_occurrences_app. do 2 f_equal. by rewrite list_fmap_id.
  - rewrite <- (list_fmap_id (PyList.first_occurrences _ _)).
    apply (first_occurrences_NoDup id).
  - apply first_occurrences_sublist.
  - intros u. rewrite <- elem_of_app. split.
    + intros Hu. eapply elem_of_sublist; [done|apply first_occurrences_sublist].
    + intros Hu. apply (first_occurrences_keys id) in Hu. by rewrite list_fmap_id in Hu.
Qed.

(** C10: whatever the base URL and the markup of the main page, the
    discovery returns ten URLs: the base URL without its final slashes
    followed by each of the first ten of the twenty generic paths.  The
    result does not depend on the markup, so no URL found by scanning
    the anchors is ever returned. *)
Theorem discover_help_urls_generic_only (E : env) (h : list request)
    (base_url main_page_html : string) :
  let urls := (fun path => rstrip_char "/" base_url +:+ path) <$> firstn 10 _get_common_paths in
  List.length _get_common_paths = 20%nat
  ∧ List.length urls = 10%nat
  ∧ discover_help_urls base_url main_page_html E h = (Ok urls, h)
  ∧ (forall E' h' main_page_html',
       discover_help_urls base_url main_page_html' E' h' = (Ok urls, h')).
Proof.
  intros urls. split_and!; [done|done| |].
  - unfold discover_help_urls, bind, ask, ret. by rewrite discover_spec.
  - intros E' h' html'. unfold discover_help_urls, bind, ask, ret. by rewrite discover_spec.
Qed.

End urls.

(** * The suggestion ranker *)

Section ranker.
Import PyStr llm_client.

Lemma select_suggested_spec (pool : list kw_entry) (seen : gset string) (sug : list kw_entry) :
  (List.length sug < 5)%nat ->
  select_suggested pool seen sug
  = firstn 5 (sug ++ (suggested_row <$>
      PyList.first_occurrences (fun kw => lower (keyword kw))
        (filter (fun kw => truthy (lower (keyword kw)) ∧ lower (keyword kw) ∉ seen) pool))).
Proof.
  revert seen sug. induction pool as [|kw rest IH]; intros seen sug Hlen.
  - simpl. rewrite app_nil_r. symmetry. apply firstn_all2. lia.
  - cbn [select_suggested]. rewrite filter_cons.
    destruct (decide (truthy (lower (keyword kw)) ∧ lower (keyword kw) ∉ seen)) as [[Ht Hs]|Hno].
    + rewrite (Is_true_true_1 _ Ht), bool_decide_true by done. cbn [andb].
      cbn [PyList.first_occurrences fmap list_fmap].
      case_bool_decide as H5.
      * rewrite length_app in H5. simpl in H5.
        match goal with
        | |- _ = firstn 5 (sug ++ ?x :: ?l) =>
            change (sug ++ x :: l) with (sug ++ [x] ++ l)
        end.
        rewrite app_assoc. symmetry.
        apply take_app_length'. rewrite length_app. simpl. lia.
      * rewrite IH by (rewrite length_app in *; simpl in *; lia).
        rewrite <- app_assoc. simpl. do 4 f_equal.
        etrans; [|exact (first_occurrences_filter (fun kw => lower (keyword kw))
                           (fun k => k ≠ lower (keyword kw)) _)].
        f_equal. rewrite list_filter_filter. apply list_filter_iff. intros v.
        rewrite not_elem_of_union, not_elem_of_singleton. tauto.
    + assert ((truthy (lower (keyword kw))
               && bool_decide (lower (keyword kw) ∉ seen))%bool = false) as ->.
      { apply not_true_is_false. intros H. apply Hno.
        apply andb_true_iff in H as [H1 H2]. split; [by apply Is_true_true_2|].
        by apply bool_decide_eq_true in H2. }
      rewrite bool_decide_false by lia. by apply IH.
Qed.

Lemma truthy_lower (s : string) : truthy (lower s) = truthy s.
Proof. by destruct s. Qed.

Lemma volume_key_Some (kw : kw_entry) (v : Z) :
  search_volume kw = Some v -> volume_key kw = v.
Proof.
  unfold volume_key, py_or, truthy_int. intros ->.
  destruct (Z.eqb_spec v 0); simpl; congruence.
Qed.

Lemma elem_of_suggestion_pool (clean all : list kw_entry) (p : kw_entry) :
  p ∈ suggestion_pool clean all ->
  exists e, e ∈ clean ++ all ∧ is_Some (search_volume e)
            ∧ keyword p = keyword e ∧ search_volume p = search_volume e.
Proof.
  unfold suggestion_pool. rewrite elem_of_app, !list_elem_of_fmap.
  intros [(e & -> & He)|(e & -> & He)]; apply list_elem_of_filter in He as [Hv He];
    exists e; rewrite elem_of_app; auto.
Qed.

Lemma rank_suggestions_spec (clean all : list kw_entry) :
  rank_suggestions clean all
  = suggested_row <$>
      firstn 5 (PyList.first_occurrences (fun kw => lower (keyword kw))
                  (filter (fun kw => truthy (keyword kw))
                     (PyList.sort_desc volume_key (suggestion_pool clean all)))).
Proof.
  unfold rank_suggestions. rewrite select_suggested_spec by (simpl; lia).
  rewrite app_nil_l, fmap_take. do 3 f_equal. apply list_filter_iff.
  intros kw. rewrite truthy_lower. split; [tauto|]. intros H. split; [done|].
  apply not_elem_of_empty.
Qed.

Lemma selected_sublist (l : list kw_entry) :
  firstn 5 (PyList.first_occurrences (fun kw => lower (keyword kw))
              (filter (fun kw => truthy (keyword kw)) l)) `sublist_of` l.
Proof.
  etrans; [apply sublist_take|]. etrans; [apply first_occurrences_sublist|].
  apply sublist_filter.
Qed.

Lemma rank_suggestions_elem (clean all : list kw_entry) (r : kw_entry) :
  r ∈ rank_suggestions clean all ->
  exists e v, e ∈ clean ++ all ∧ search_volume e = Some v ∧ keyword r = keyword e
              ∧ search_volume r = Some v ∧ volume_key r = v.
Proof.
  rewrite rank_suggestions_spec. intros Hr.
  apply list_elem_of_fmap in Hr as (p & -> & Hp).
  eapply elem_of_sublist in Hp; [|apply selected_sublist].
  rewrite sort_desc_perm in Hp.
  apply elem_of_suggestion_pool in Hp as (e & He & [v Hv] & Hk & Hsv).
  exists e, v. split_and!; [done|done|done|by rewrite <- Hv|].
  apply volume_key_Some. simpl. by rewrite <- Hv.
Qed.

(** C1: the suggestion pool is the cleaned article keywords with a
    volume followed by the merged competitor keywords with a volume;
    it is sorted by non-increasing volume with a stable sort; the
    suggested keywords are the first five first occurrences (by
    lower-cased text) of the sorted pool, so they are sorted by
    non-increasing volume, at most five, pairwise different in
    lower-cased text, and every one of them stems from a pooled entry
    that has a volume. *)
Theorem suggested_keywords_ranking (article_keywords_clean competitor_keywords_all : list kw_entry) :
  let pool := suggestion_pool article_keywords_clean competitor_keywords_all in
  let sorted := PyList.sort_desc volume_key pool in
  let out := rank_suggestions article_keywords_clean competitor_keywords_all in
  pool = (pool_row [] 10 <$>
            filter (fun akw => is_Some (search_volume akw)) article_keywords_clean)
         ++ ((fun ckw => pool_row (used_by ckw) 8 ckw) <$>
               filter (fun ckw => is_Some (search_volume ckw)) competitor_keywords_all)
  ∧ (forall p, p ∈ pool -> is_Some (search_volume p))
  ∧ sorted ≡ₚ pool
  ∧ StronglySorted (PyList.desc volume_key) sorted
  ∧ (forall v, filter (fun kw => volume_key kw = v) sorted
               = filter (fun kw => volume_key kw = v) pool)
  ∧ out = suggested_row <$>
            firstn 5 (PyList.first_occurrences (fun kw => lower (keyword kw))
                        (filter (fun kw => truthy (keyword kw)) sorted))
  ∧ StronglySorted (PyList.desc volume_key) out
  ∧ (List.length out <= 5)%nat
  ∧ NoDup ((fun kw => lower (keyword kw)) <$> out)
  ∧ (forall r, r ∈ out ->
       exists e v, e ∈ article_keywords_clean ++ competitor_keywords_all
                   ∧ search_volume e = Some v ∧ keyword r = keyword e
                   ∧ search_volume r = Some v ∧ volume_key r = v).
Proof.
  intros pool sorted out.
  pose proof (rank_suggestions_spec article_keywords_clean competitor_keywords_all) as Hout.
  fold pool sorted out in Hout.
  split_and!.
  - done.
  - intros p Hp. apply elem_of_suggestion_pool in Hp as (e & _ & Hv & _ & ->). done.
  - apply sort_desc_perm.
  - apply sort_desc_sorted.
  - intros v. apply sort_desc_stable.
  - done.
  - rewrite Hout. apply (StronglySorted_fmap _ (PyList.desc volume_key)).
    + intros a b Hab. exact Hab.
    + eapply sorted_sublist; [apply selected_sublist|]. apply sort_desc_sorted.
  - rewrite Hout, length_fmap, length_take. lia.
  - rewrite Hout, <- list_fmap_compose.
    eapply sublist_NoDup;
      [apply (first_occurrences_NoDup (fun kw => lower (keyword kw))
                (filter (fun kw => truthy (keyword kw)) sorted))|].
    apply fmap_sublist, sublist_take.
  - apply rank_suggestions_elem.
Qed.

End ranker.

(** * Facts about the string operations *)

Section strings.
Import PyStr.

Lemma str_in_empty (t : string) : truthy t -> str_in t "" = false.
Proof. by destruct t. Qed.

Lemma str_in_cons (t : string) (c : ascii) (s : string) :
  str_in t s = true -> str_in t (String c s) = true.
Proof. intros H. cbn [str_in]. rewrite H. apply orb_true_r. Qed.

Lemma str_in_lstrip (t s : string) (a : ascii) :
  first_char t = Some a -> is_space a = false ->
  str_in t s = true -> str_in t (lstrip s) = true.
Proof.
  intros Ht Ha. induction s as [|c s IH]; [done|].
  cbn [lstrip]. destruct (is_space c) eqn:Hc; [|done].
  intros H. apply IH. cbn [str_in] in H. apply orb_true_iff in H as [H|H]; [|done].
  destruct t as [|b t]; [done|]. injection Ht as ->. simpl in H.
  apply andb_true_iff in H as [H _]. apply Ascii.eqb_eq in H. congruence.
Qed.

Lemma startswith_rstrip (t s : string) (a : ascii) :
  last_char t = Some a -> is_space a = false ->
  startswith t s = true -> startswith t (rstrip s) = true.
Proof.
  intros Ht Ha. revert s. induction t as [|b t IH]; [done|].
  intros [|c s]; [done|]. cbn [startswith]. intros H.
  apply andb_true_iff in H as [Hbc Hs]. apply Ascii.eqb_eq in Hbc as <-.
  destruct t as [|b' t].
  - injection Ht as ->. cbn [rstrip]. rewrite Ha. simpl. by rewrite Ascii.eqb_refl.
  - specialize (IH Ht s Hs). cbn [rstrip].
    destruct (rstrip s) as [|c' r]; [done|].
    rewrite andb_false_r. cbn [startswith]. rewrite Ascii.eqb_refl. exact IH.
Qed.

Lemma str_in_rstrip (t s : string) (a : ascii) :
  last_char t = Some a -> is_space a = false ->
  str_in t s = true -> str_in t (rstrip s) = true.
Proof.
  intros Ht Ha. assert (Hne : truthy t) by (by destruct t).
  induction s as [|c s IH]; [done|].
  intros H. cbn [str_in] in H. apply orb_true_iff in H as [H|H].
  - apply (startswith_rstrip _ _ _ Ht Ha) in H.
    destruct (rstrip (String c s)); simpl; by rewrite H.
  - specialize (IH H). cbn [rstrip].
    destruct (rstrip s) as [|c' r]; [by rewrite str_in_empty in IH|].
    rewrite andb_false_r. by apply str_in_cons.
Qed.

Lemma str_in_strip (t s : string) (a b : ascii) :
  first_char t = Some a -> is_space a = false ->
  last_char t = Some b -> is_space b = false ->
  str_in t s = true -> str_in t (strip s) = true.
Proof.
  intros. unfold strip. eapply str_in_rstrip; [done..|]. by eapply str_in_lstrip.
Qed.

End strings.

(** * The excluded product terms *)

Section excluded.
Import PyStr llm_client.

Lemma excluded_terms_plain : forallb plain_term EXCLUDED_PRODUCT_TERMS = true.
Proof. by vm_compute. Qed.

Lemma not_excluded_spec (keyword : string) :
  _is_excluded_keyword keyword = false ->
  forall t, t ∈ EXCLUDED_PRODUCT_TERMS -> contains_ci t keyword = false.
Proof.
  unfold _is_excluded_keyword. intros Hex t Ht.
  apply list_elem_of_In in Ht.
  pose proof excluded_terms_plain as Hplain.
  rewrite forallb_forall in Hplain. specialize (Hplain t Ht).
  unfold plain_term in Hplain.
  apply andb_true_iff in Hplain as [Hplain Hlast].
  apply andb_true_iff in Hplain as [Hlow Hfirst].
  apply String.eqb_eq in Hlow.
  destruct (first_char t) as [a|] eqn:Ha; [|done].
  destruct (last_char t) as [b|] eqn:Hb; [|done]. simpl in Hfirst, Hlast.
  apply negb_true_iff in Hfirst, Hlast.
  apply not_true_is_false. intros Hin. unfold contains_ci in Hin. rewrite Hlow in Hin.
  apply (str_in_strip t _ a b Ha Hfirst Hb Hlast) in Hin.
  assert (existsb (fun term => str_in term (strip (lower keyword)))
            EXCLUDED_PRODUCT_TERMS = true); [|congruence].
  apply existsb_exists. eauto.
Qed.

End excluded.

(** * Facts about computations *)

Section computations.

Lemma bind_Ok_inv {A B} (m : M A) (k : A -> M B) E h b h' :
  bind m k E h = (Ok b, h') ->
  exists a h1, m E h = (Ok a, h1) ∧ k a E h1 = (Ok b, h').
Proof. unfold bind. destruct (m E h) as [[a|e] h1]; [eauto|done]. Qed.

Lemma bind_Raise_inv {A B} (m : M A) (k : A -> M B) E h e h' :
  bind m k E h = (Raise e, h') ->
  m E h = (Raise e, h')
  ∨ exists a h1, m E h = (Ok a, h1) ∧ k a E h1 = (Raise e, h').
Proof. unfold bind. destruct (m E h) as [[a|e'] h1]; [eauto|]. intros [= -> ->]. by left. Qed.

Lemma try_except_Ok_inv {A} (m : M A) (handler : exn -> M A) E h a h' :
  try_except m handler E h = (Ok a, h') ->
  m E h = (Ok a, h')
  ∨ exists e h1, m E h = (Raise e, h1) ∧ handler e E h1 = (Ok a, h').
Proof. unfold try_except. destruct (m E h) as [[a'|e] h1]; [by left|eauto]. Qed.

Lemma for_each_invariant {A S} (P : S -> Prop) (body : A -> S -> M S) (l : list A) :
  (forall x s E h s' h', x ∈ l -> P s -> body x s E h = (Ok s', h') -> P s') ->
  forall s E h s' h', P s -> for_each l body s E h = (Ok s', h') -> P s'.
Proof.
  induction l as [|x l IH]; intros Hbody s E h s' h' Hs Hrun.
  - by injection Hrun as <- <-.
  - simpl in Hrun. apply bind_Ok_inv in Hrun as (s1 & h1 & Hx & Hrest).
    eapply IH; [|eapply Hbody; [left|done..]|done].
    intros; eapply Hbody; [by right|done..].
Qed.

End computations.

(** * The keyword mapper *)

Section mapper.
Import PyStr llm_client.

Lemma accept_term_accepted volume_field comp_name result terms :
  Forall accepted terms -> Forall accepted (accept_term volume_field comp_name result terms).
Proof.
  intros Hterms. unfold accept_term.
  repeat case_match; try done.
  apply Forall_app. split; [done|]. apply Forall_singleton.
  match goal with
  | H : (_ && _)%bool = true |- _ => apply andb_true_iff in H as [Htext Hexcl]
  end.
  split; simpl; [by apply Is_true_true_2|]. by apply negb_true_iff.
Qed.

Lemma map_competitor_accepted article_kw title content time_range volume_field comp
    terms E h terms' h' :
  map_competitor article_kw title content time_range volume_field comp terms E h
  = (Ok terms', h') ->
  Forall accepted terms -> Forall accepted terms'.
Proof.
  unfold map_competitor. destruct (negb _).
  - by intros [= <- <-].
  - intros Hrun Hterms. apply try_except_Ok_inv in Hrun as [Hrun|(e & h1 & _ & Hrun)].
    + apply bind_Ok_inv in Hrun as (result & h1 & _ & Hrun).
      injection Hrun as <- <-. by apply accept_term_accepted.
    + by injection Hrun as <- <-.
Qed.

Lemma map_article_keyword_inv article_keywords title content time_range volume_field
    competitor_content article_kw ms all E h ms' all' h' :
  map_article_keyword article_keywords title content time_range volume_field
    competitor_content article_kw (ms, all) E h = (Ok (ms', all'), h') ->
  (ms' = ms ∧ all' = all)
  ∨ exists m, ms' = ms ++ [m] ∧ Forall accepted (competitor_keywords m)
              ∧ StronglySorted (PyList.desc t_search_volume) (competitor_keywords m)
              ∧ all' = merge_terms (competitor_keywords m) all.
Proof.
  unfold map_article_keyword. intros Hrun.
  apply bind_Ok_inv in Hrun as (terms & h1 & Hloop & Hrun).
  assert (Forall accepted terms) as Hterms.
  { eapply (for_each_invariant (Forall accepted)); [|constructor|exact Hloop].
    intros. by eapply map_competitor_accepted. }
  destruct terms as [|t terms].
  - injection Hrun as <- <- <-. by left.
  - injection Hrun as <- <- <-. right. eexists. split; [done|]. simpl.
    split_and!; [|exact (sort_desc_sorted t_search_volume (t :: terms))|done].
    eapply Forall_forall. intros x Hx.
    eapply Forall_forall in Hterms; [done|].
    by rewrite <- (sort_desc_perm t_search_volume (t :: terms)).
Qed.

Lemma get_competitor_keywords_inv akws product time_range title content
    competitor_content E h data h' :
  get_competitor_keywords akws product time_range title content
    competitor_content E h = (Ok data, h') ->
  mapper_state (keyword_mappings data, all_competitor_keywords data)
  ∧ article_keywords data = clean_article_keywords akws
  ∧ suggested_keywords data
    = rank_suggestions (article_keywords data) (all_competitor_keywords data).
Proof.
  unfold get_competitor_keywords. intros Hrun.
  destruct (config.PRODUCT_COMPETITORS product) as [[|c cs]|]; [done| |done].
  destruct (filter _ _) as [|k ks]; [done|].
  apply bind_Ok_inv in Hrun as (volume_field & h1 & _ & Hrun).
  destruct competitor_content as [|cc ccs]; [done|].
  apply bind_Ok_inv in Hrun as ([ms all] & h2 & Hloop & Hrun).
  injection Hrun as <- <-. simpl. split_and!; [|done..].
  eapply (for_each_invariant mapper_state); [| |exact Hloop].
  - intros x [ms0 all0] E0 h0 [ms1 all1] h3 _ [Hall Hms] Hbody.
    apply map_article_keyword_inv in Hbody as [[-> ->]|(m & -> & Hm & Hsorted & ->)]; [done|].
    split; simpl in *.
    + rewrite fmap_app, concat_app. simpl. rewrite app_nil_r.
      unfold merge_terms. rewrite foldl_app. by rewrite Hall.
    + apply Forall_app. split; [done|]. by apply Forall_singleton.
  - split; [done|constructor].
Qed.

Lemma same_text_iff (a b : string) : same_text a b = true <-> norm_text a = norm_text b.
Proof. apply String.eqb_eq. Qed.

Lemma keyword_add_used_by (c : string) (e : kw_entry) : keyword (add_used_by c e) = keyword e.
Proof. unfold add_used_by. by case_bool_decide. Qed.

Lemma used_by_add_used_by (c : string) (e : kw_entry) :
  c ∈ used_by (add_used_by c e) ∧ used_by e ⊆ used_by (add_used_by c e).
Proof.
  unfold add_used_by. case_bool_decide; simpl; [done|].
  split; [apply elem_of_app; right; left|]. intros x Hx. apply elem_of_app. by left.
Qed.

Lemma merge_term_norms (t : term) (all : list kw_entry) :
  (fun e => norm_text (keyword e)) <$> merge_term t all
  = if decide (norm_text (t_keyword t) ∈ (fun e => norm_text (keyword e)) <$> all)
    then (fun e => norm_text (keyword e)) <$> all
    else ((fun e => norm_text (keyword e)) <$> all) ++ [norm_text (t_keyword t)].
Proof.
  induction all as [|e rest IH].
  - case_decide as Hin; [by apply elem_of_nil in Hin|done].
  - cbn [merge_term]. destruct (same_text (keyword e) (t_keyword t)) eqn:Hsame.
    + apply same_text_iff in Hsame. rewrite !fmap_cons, keyword_add_used_by.
      rewrite decide_True; [done|]. rewrite Hsame. left.
    + rewrite !fmap_cons, IH.
      assert (norm_text (keyword e) ≠ norm_text (t_keyword t)) as Hne.
      { intros Heq. apply same_text_iff in Heq. congruence. }
      destruct (decide (norm_text (t_keyword t) ∈ _ <$> rest)) as [Hin|Hin].
      * rewrite decide_True; [done|]. by right.
      * rewrite decide_False; [done|]. apply not_elem_of_cons. split; [congruence|done].
Qed.

Lemma merge_term_NoDup (t : term) (all : list kw_entry) :
  NoDup ((fun e => norm_text (keyword e)) <$> all) ->
  NoDup ((fun e => norm_text (keyword e)) <$> merge_term t all).
Proof.
  intros Hnd. rewrite merge_term_norms. case_decide; [done|].
  apply NoDup_app. split_and!; [done| |apply NoDup_singleton].
  intros x Hx Hx'. apply list_elem_of_singleton in Hx'. congruence.
Qed.

Lemma merge_term_used (t : term) (all : list kw_entry) :
  exists e, e ∈ merge_term t all
            ∧ norm_text (keyword e) = norm_text (t_keyword t)
            ∧ t_competitor t ∈ used_by e.
Proof.
  induction all as [|e rest (e' & Hin & Hk & Hu)]; simpl.
  - eexists. split; [left|]. simpl. split; [done|left].
  - destruct (same_text (keyword e) (t_keyword t)) eqn:Hsame.
    + apply same_text_iff in Hsame. eexists. split; [left|].
      rewrite keyword_add_used_by. split; [done|]. apply (proj1 (used_by_add_used_by _ _)).
    + exists e'. split; [by right|done].
Qed.

Lemma merge_term_mono (t : term) (all : list kw_entry) (e : kw_entry) :
  e ∈ all ->
  exists e', e' ∈ merge_term t all ∧ keyword e' = keyword e ∧ used_by e ⊆ used_by e'.
Proof.
  induction all as [|x rest IH]; [by rewrite elem_of_nil|].
  rewrite elem_of_cons. simpl. intros [->|Hin].
  - destruct (same_text _ _).
    + eexists. split; [left|]. rewrite keyword_add_used_by. split; [done|].
      apply (proj2 (used_by_add_used_by _ _)).
    + exists x. split; [left|done].
  - destruct (same_text _ _).
    + exists e. split; [by right|done].
    + destruct (IH Hin) as (e' & ? & ? & ?). exists e'. split; [by right|done].
Qed.

Lemma merge_term_keywords (t : term) (all : list kw_entry) (e' : kw_entry) :
  e' ∈ merge_term t all ->
  keyword e' = t_keyword t ∨ exists e, e ∈ all ∧ keyword e' = keyword e.
Proof.
  induction all as [|x rest IH]; simpl.
  - rewrite list_elem_of_singleton. intros ->. by left.
  - destruct (same_text _ _); rewrite elem_of_cons.
    + intros [->|Hin]; right.
      * exists x. split; [left|apply keyword_add_used_by].
      * exists e'. split; [by right|done].
    + intros [->|Hin].
      * right. exists x. split; [left|done].
      * destruct (IH Hin) as [?|(e & ? & ?)]; [by left|].
        right. exists e. split; [by right|done].
Qed.

Lemma merge_terms_NoDup (terms : list term) (all : list kw_entry) :
  NoDup ((fun e => norm_text (keyword e)) <$> all) ->
  NoDup ((fun e => norm_text (keyword e)) <$> merge_terms terms all).
Proof.
  revert all. induction terms as [|t terms IH]; intros all Hnd; [done|].
  apply IH. by apply merge_term_NoDup.
Qed.

Lemma merge_terms_mono (terms : list term) (all : list kw_entry) (e : kw_entry) :
  e ∈ all ->
  exists e', e' ∈ merge_terms terms all ∧ keyword e' = keyword e ∧ used_by e ⊆ used_by e'.
Proof.
  revert all e. induction terms as [|t terms IH]; intros all e Hin.
  - exists e. done.
  - destruct (merge_term_mono t all e Hin) as (e1 & Hin1 & Hk1 & Hu1).
    destruct (IH _ _ Hin1) as (e2 & Hin2 & Hk2 & Hu2).
    exists e2. split; [done|]. split; [congruence|]. by etrans.
Qed.

Lemma merge_terms_used (terms : list term) (all : list kw_entry) (t : term) :
  t ∈ terms ->
  exists e, e ∈ merge_terms terms all
            ∧ norm_text (keyword e) = norm_text (t_keyword t)
            ∧ t_competitor t ∈ used_by e.
Proof.
  revert all. induction terms as [|t' terms IH]; intros all; [by rewrite elem_of_nil|].
  rewrite elem_of_cons. intros [->|Hin]; [|by apply IH].
  destruct (merge_term_used t' all) as (e1 & Hin1 & Hk1 & Hu1).
  destruct (merge_terms_mono terms _ _ Hin1) as (e2 & Hin2 & Hk2 & Hu2).
  exists e2. split; [done|]. split; [congruence|]. by apply Hu2.
Qed.

Lemma merge_terms_keywords (terms : list term) (all : list kw_entry) (e' : kw_entry) :
  e' ∈ merge_terms terms all ->
  (exists t, t ∈ terms ∧ keyword e' = t_keyword t)
  ∨ exists e, e ∈ all ∧ keyword e' = keyword e.
Proof.
  revert all. induction terms as [|t terms IH]; intros all Hin.
  - right. by exists e'.
  - destruct (IH _ Hin) as [(t' & ? & ?)|(e & He & Hk)].
    + left. exists t'. split; [by right|done].
    + destruct (merge_term_keywords _ _ _ He) as [?|(e0 & ? & ?)].
      * left. exists t. split; [left|congruence].
      * right. exists e0. split; [done|congruence].
Qed.

(** C2: the merged competitor keywords are the fold of [merge_term]
    over the terms of all mappings; their trimmed lower-case texts are
    pairwise different; every term of every mapping is represented by the
    row of its text, whose [used_by] holds the competitor of the term;
    and the same text reported by two different competitors gives one row
    whose [used_by] lists both. *)
Theorem competitor_terms_merged akws product time_range title content
    competitor_content E h data h'
    (Hrun : get_competitor_keywords akws product time_range title content
              competitor_content E h = (Ok data, h')) :
  let all := all_competitor_keywords data in
  all = merge_terms (concat (competitor_keywords <$> keyword_mappings data)) []
  ∧ NoDup ((fun e => norm_text (keyword e)) <$> all)
  ∧ (forall m t, m ∈ keyword_mappings data -> t ∈ competitor_keywords m ->
       exists e, e ∈ all ∧ norm_text (keyword e) = norm_text (t_keyword t)
                 ∧ t_competitor t ∈ used_by e)
  ∧ (forall t1 t2, same_text (t_keyword t1) (t_keyword t2) = true ->
       t_competitor t1 ≠ t_competitor t2 ->
       exists e, merge_terms [t1; t2] [] = [e] ∧ keyword e = t_keyword t1
                 ∧ used_by e = [t_competitor t1; t_competitor t2]).
Proof.
  intros all. apply get_competitor_keywords_inv in Hrun as [[Hall _] _].
  simpl in Hall. fold all in Hall. split_and!.
  - done.
  - rewrite Hall. apply merge_terms_NoDup. constructor.
  - intros m t Hm Ht. rewrite Hall. apply merge_terms_used.
    apply list_elem_of_In, in_concat. exists (competitor_keywords m).
    split; apply list_elem_of_In; [by apply list_elem_of_fmap_2|done].
  - intros t1 t2 Hsame Hne. unfold merge_terms. simpl.
    rewrite Hsame. unfold add_used_by. simpl.
    rewrite bool_decide_false.
    + eexists. done.
    + rewrite list_elem_of_singleton. congruence.
Qed.

End mapper.

(** * No excluded product term in a keyword list *)

Section keyword_lists.
Import PyStr llm_client.

Lemma filter_keywords_not_excluded volume_field keywords acc out :
  filter_keywords volume_field keywords acc = Ok out ->
  Forall (fun e => _is_excluded_keyword (keyword e) = false) acc ->
  Forall (fun e => _is_excluded_keyword (keyword e) = false) out.
Proof.
  revert acc. induction keywords as [|kw rest IH]; intros acc Hrun Hacc.
  - by injection Hrun as <-.
  - cbn [filter_keywords] in Hrun.
    destruct (get_default (o_keyword kw) "") as [text|]; [|by eapply IH].
    destruct (negb (truthy text)); [by eapply IH|].
    destruct (negb (bool_decide (is_Some (get_volume kw volume_field)))); [done|].
    destruct (negb (bool_decide (is_Some (get (o_cpc kw))))); [done|].
    destruct (negb (bool_decide (is_Some (get (o_difficulty kw))))); [done|].
    destruct (negb (_is_excluded_keyword text)) eqn:Hex; [|by eapply IH].
    eapply IH; [exact Hrun|]. apply Forall_app. split; [done|].
    apply Forall_singleton. simpl. by apply negb_true_iff.
Qed.

Lemma extract_article_keywords_not_excluded title headings content url time_range
    E h out h' :
  extract_article_keywords title headings content url time_range E h = (Ok out, h') ->
  Forall (fun e => _is_excluded_keyword (keyword e) = false) out.
Proof.
  unfold extract_article_keywords. intros Hrun.
  apply bind_Ok_inv in Hrun as (volume_field & h1 & _ & Hrun).
  apply bind_Ok_inv in Hrun as (response & h2 & _ & Hrun).
  destruct (json_span response) as [text|]; [|done].
  apply bind_Ok_inv in Hrun as (data & h3 & _ & Hrun).
  destruct (get data) as [[|kw kws]|]; [done| |done].
  apply bind_Ok_inv in Hrun as (filtered & h4 & Hfilter & Hrun).
  assert (Forall (fun e => _is_excluded_keyword (keyword e) = false) filtered) as Hall.
  { assert (filter_keywords volume_field (kw :: kws) [] = Ok filtered) as Hf
      by (unfold lift in Hfilter; congruence).
    eapply filter_keywords_not_excluded; [exact Hf|constructor]. }
  destruct filtered as [|e es]; [done|].
  injection Hrun as <- _. exact (Forall_take _ 10%nat _ Hall).
Qed.

Lemma clean_article_keywords_not_excluded (akws : list kw_entry) :
  Forall (fun e => _is_excluded_keyword (keyword e) = false) (clean_article_keywords akws).
Proof.
  apply Forall_forall. intros e He. unfold clean_article_keywords in He.
  apply list_elem_of_fmap in He as (a & -> & Ha).
  apply list_elem_of_filter in Ha as [Ha _]. simpl.
  apply Is_true_true_1, andb_true_iff in Ha as [_ Ha]. by apply negb_true_iff.
Qed.

Lemma merged_not_excluded (ms : list keyword_mapping) (all : list kw_entry) :
  mapper_state (ms, all) ->
  Forall (fun e => _is_excluded_keyword (keyword e) = false) all.
Proof.
  intros [Hall Hms]. simpl in *. apply Forall_forall. intros e He.
  rewrite Hall in He. apply merge_terms_keywords in He as [(t & Ht & ->)|(e0 & He0 & _)].
  - apply list_elem_of_In, in_concat in Ht as (l & Hl & Ht).
    apply list_elem_of_In, list_elem_of_fmap in Hl as (m & -> & Hm).
    eapply Forall_forall in Hms as [Hm' _]; [|exact Hm].
    eapply Forall_forall in Hm' as [_ Hm']; [done|]. by apply list_elem_of_In.
  - by apply elem_of_nil in He0.
Qed.

(** C3: the keywords extracted from the article and the four keyword
    lists returned by the keyword mapper (article keywords, competitor
    keywords, suggested keywords and the competitor keywords of every
    mapping) hold no entry whose text contains an excluded product term,
    the case of the letters being ignored. *)
Theorem no_excluded_product_terms
    title headings content url time_range E h extracted h'
    akws product time_range' title' content' competitor_content h0 data h0'
    (Hextract : extract_article_keywords title headings content url time_range E h
                = (Ok extracted, h'))
    (Hrun : get_competitor_keywords akws product time_range' title' content'
              competitor_content E h0 = (Ok data, h0')) :
  let clean text := forall t, t ∈ EXCLUDED_PRODUCT_TERMS -> contains_ci t text = false in
  Forall (fun e => clean (keyword e)) extracted
  ∧ Forall (fun e => clean (keyword e)) (article_keywords data)
  ∧ Forall (fun e => clean (keyword e)) (all_competitor_keywords data)
  ∧ Forall (fun e => clean (keyword e)) (suggested_keywords data)
  ∧ Forall (fun m => Forall (fun t => clean (t_keyword t)) (competitor_keywords m))
      (keyword_mappings data).
Proof.
  intros clean.
  apply extract_article_keywords_not_excluded in Hextract.
  apply get_competitor_keywords_inv in Hrun as (Hstate & Hclean & Hsug).
  pose proof (merged_not_excluded _ _ Hstate) as Hall.
  pose proof (clean_article_keywords_not_excluded akws) as Hakws.
  rewrite <- Hclean in Hakws.
  split_and!.
  - eapply Forall_impl; [exact Hextract|]. intros e He. exact (not_excluded_spec _ He).
  - eapply Forall_impl; [exact Hakws|]. intros e He. exact (not_excluded_spec _ He).
  - eapply Forall_impl; [exact Hall|]. intros e He. exact (not_excluded_spec _ He).
  - rewrite Hsug. apply Forall_forall. intros r Hr.
    apply rank_suggestions_elem in Hr as (e & v & He & _ & -> & _).
    refine (not_excluded_spec (keyword e) _). apply elem_of_app in He as [He|He].
    + by eapply Forall_forall in Hakws.
    + by eapply Forall_forall in Hall.
  - destruct Hstate as [_ Hms]. simpl in Hms.
    eapply Forall_impl; [exact Hms|]. intros m [Hm _].
    eapply Forall_impl; [exact Hm|]. intros t [_ Ht]. exact (not_excluded_spec _ Ht).
Qed.

(** C9 (as amended): an accepted competitor term is stored, never
    rejected for a missing value.  A missing volume is replaced by the
    answer's [monthly_volume] when that is present and not zero, and by
    500 otherwise, that is when the [monthly_volume] is missing too or
    is zero; a missing cost per click by 1.5, a missing difficulty
    by "medium", a missing relevance score by 7 and an absent [found_in]
    by "content".  A value that is present and neither zero nor empty is
    kept; a zero or an empty text is replaced like a missing value. *)
Theorem mapping_defaults (volume_field comp_name ckw_text : string) (ckw : keyword_obj)
    (terms : list term)
    (Htext : get_default (o_keyword ckw) "" = Some ckw_text)
    (Htruthy : truthy ckw_text = true)
    (Hnot_excluded : _is_excluded_keyword ckw_text = false) :
  let t := term_of volume_field comp_name ckw_text ckw in
  let missing := fun value : option Z => value = None ∨ value = Some 0 in
  accept_term volume_field comp_name (Some (Val ckw)) terms = terms ++ [t]
  ∧ t_keyword t = ckw_text ∧ t_competitor t = comp_name
  ∧ (get_volume ckw volume_field = None -> get_volume ckw "monthly_volume" = None ->
       t_search_volume t = 500)
  ∧ (get_volume ckw volume_field = None ->
       forall v, get_volume ckw "monthly_volume" = Some v -> v ≠ 0 -> t_search_volume t = v)
  ∧ (get (o_cpc ckw) = None -> t_cpc t = (3 # 2)%Q)
  ∧ (get (o_difficulty ckw) = None -> t_difficulty t = "medium")
  ∧ (get (o_relevance_score ckw) = None -> t_relevance_score t = 7)
  ∧ (o_found_in ckw = Absent -> t_found_in t = Some "content")
  ∧ (missing (get_volume ckw volume_field) ->
       missing (get_volume ckw "monthly_volume") -> t_search_volume t = 500)
  ∧ (missing (get_volume ckw volume_field) ->
       forall v, get_volume ckw "monthly_volume" = Some v -> v ≠ 0 -> t_search_volume t = v)
  ∧ (forall v, get_volume ckw volume_field = Some v -> v ≠ 0 -> t_search_volume t = v)
  ∧ (forall q, get (o_cpc ckw) = Some q ->
               t_cpc t = if Qnum q =? 0 then (3 # 2)%Q else q)
  ∧ (forall d, get (o_difficulty ckw) = Some d ->
               t_difficulty t = if truthy d then d else "medium")
  ∧ (forall r, get (o_relevance_score ckw) = Some r ->
               t_relevance_score t = if r =? 0 then 7 else r)
  ∧ (forall f, o_found_in ckw = Val f -> t_found_in t = Some f)
  ∧ (o_found_in ckw = Null -> t_found_in t = None).
Proof.
  intros t missing.
  assert (forall value d, missing value -> py_or truthy_int value d = d) as Hmissing.
  { by intros value d [->| ->]. }
  assert (forall v d, v ≠ 0 -> py_or truthy_int (Some v) d = v) as Hpresent.
  { intros v d Hv. simpl. unfold truthy_int. by destruct (Z.eqb_spec v 0). }
  split_and!.
  - unfold accept_term. simpl.
    assert (keyword_obj_nonempty ckw = true) as ->.
    { unfold keyword_obj_nonempty. destruct (o_keyword ckw); [|done..].
      injection Htext as <-. done. }
    by rewrite Htext, Htruthy, Hnot_excluded.
  - done.
  - done.
  - simpl. by intros -> ->.
  - simpl. intros -> v -> Hv. by rewrite Hpresent.
  - simpl. by intros ->.
  - simpl. by intros ->.
  - simpl. by intros ->.
  - simpl. by intros ->.
  - simpl. intros Hv Hm. by rewrite !Hmissing.
  - simpl. intros Hv v -> Hnonzero. by rewrite Hmissing, Hpresent.
  - simpl. intros v -> Hnonzero. by rewrite Hpresent.
  - simpl. intros q ->. simpl. unfold truthy_num. by destruct (Qnum q =? 0).
  - simpl. intros d ->. done.
  - simpl. intros r ->. simpl. unfold truthy_int. by destruct (r =? 0).
  - simpl. by intros f ->.
  - simpl. by intros ->.
Qed.

End keyword_lists.

(** * The capability content scraper *)

Section capability_scraper.
Import PyStr competitor_agent.

Lemma append_cons (x : ascii) (a b : string) : String x a +:+ b = String x (a +:+ b).
Proof. done. Qed.

Lemma append_assoc (a b c : string) : (a +:+ b) +:+ c = a +:+ (b +:+ c).
Proof. induction a as [|x a IH]; [done|]. by rewrite !append_cons, IH. Qed.

Lemma append_empty_r (a : string) : a +:+ "" = a.
Proof. induction a as [|x a IH]; [done|]. by rewrite append_cons, IH. Qed.

Lemma concat_str_app (l1 l2 : list string) :
  concat_str (l1 ++ l2) = concat_str l1 +:+ concat_str l2.
Proof.
  unfold concat_str. induction l1 as [|x l1 IH]; [done|].
  cbn [app foldr]. by rewrite append_assoc, IH.
Qed.

Lemma length_take_nat (n : nat) (s : string) : (String.length (take_nat n s) <= n)%nat.
Proof.
  revert s. induction n as [|n IH]; intros [|c s]; simpl; try lia.
  specialize (IH s). lia.
Qed.

Lemma str_len_take (n : Z) (s : string) : 0 <= n -> str_len (take n s) <= n.
Proof.
  intros Hn. unfold str_len, take.
  pose proof (length_take_nat (Z.to_nat n) s). lia.
Qed.

Lemma str_len_truthy (s : string) (n : Z) : 0 <= n -> n < str_len s -> truthy s = true.
Proof. destruct s; [|done]. unfold str_len. simpl. lia. Qed.

Lemma fetch_page_run (url : string) (E : env) (h : list request) :
  _fetch_page url E h = (Ok (default "" (net E h (Fetch url))), h ++ [Fetch url]).
Proof. done. Qed.

Lemma page_succeeds_iff (E : env) (page : string * string) :
  page_succeeds E page = true
  <-> 500 < str_len page.2 ∧ 200 < str_len (page_body E page).
Proof.
  unfold page_succeeds. rewrite !andb_true_iff, !Z.ltb_lt. split; [tauto|].
  intros [H1 H2]. split_and!; [|done| |done]; by eapply str_len_truthy; [|done].
Qed.

Lemma try_url_run (url : string) (result : scrape_result) (E : env) (h : list request) :
  let page := (url, default "" (net E h (Fetch url))) in
  exists result',
    try_url url result E h = (Ok result', h ++ [Fetch url])
    ∧ (urls_tried result').*1 = (urls_tried result).*1 ++ [url]
    ∧ urls_successful result'
      = urls_successful result ++ (filter (fun p => page_succeeds E p) [page]).*1
    ∧ content_extracted result'
      = content_extracted result
        +:+ concat_str (page_contribution E <$> filter (fun p => page_succeeds E p) [page]).
Proof.
  intros page. unfold try_url, try_except, bind. rewrite fetch_page_run.
  unfold _extract_content, bind, ask, ret.
  rewrite filter_cons, filter_nil. unfold page_succeeds, page_body, page. cbn [fst snd].
  set (html := default "" (net E h (Fetch url))).
  set (body := cd_content (extract_content E html url)).
  destruct (truthy html && (500 <? str_len html))%bool; cbn [andb].
  - destruct (truthy body && (200 <? str_len body))%bool eqn:Hbody.
    + unfold body in Hbody. rewrite Hbody. rewrite decide_True by done.
      eexists. split; [done|]. cbn. split_and!.
      * by rewrite fmap_app.
      * done.
      * unfold page_contribution, page_body. cbn [fst snd concat_str fmap list_fmap foldr].
        rewrite append_empty_r, !append_assoc. reflexivity.
    + unfold body in Hbody. rewrite Hbody. rewrite decide_False by (intros []).
      eexists. split; [done|]. cbn. rewrite fmap_app, !app_nil_r, append_empty_r. done.
  - rewrite decide_False by (intros []).
    eexists. split; [done|]. cbn. rewrite fmap_app, !app_nil_r, append_empty_r. done.
Qed.

Lemma try_urls_run (urls : list string) (result : scrape_result) (E : env)
    (h : list request) :
  let good := filter (fun p => page_succeeds E p) (fetched E h urls) in
  exists result',
    for_each urls try_url result E h = (Ok result', h ++ (Fetch <$> urls))
    ∧ (urls_tried result').*1 = (urls_tried result).*1 ++ urls
    ∧ urls_successful result' = urls_successful result ++ good.*1
    ∧ content_extracted result'
      = content_extracted result +:+ concat_str (page_contribution E <$> good).
Proof.
  revert result h. induction urls as [|url urls IH]; intros result h good.
  - exists result. cbn. rewrite !app_nil_r, append_empty_r. done.
  - destruct (try_url_run url result E h) as (r1 & Hrun1 & Ht1 & Hs1 & Hc1).
    destruct (IH r1 (h ++ [Fetch url])) as (r2 & Hrun2 & Ht2 & Hs2 & Hc2).
    exists r2. cbn [for_each]. unfold bind. rewrite Hrun1, Hrun2.
    split_and!.
    + by rewrite fmap_cons, <- app_assoc.
    + rewrite Ht2, Ht1, <- app_assoc. done.
    + rewrite Hs2, Hs1. unfold good. cbn [fetched].
      rewrite (filter_cons_app _ _ (fetched _ _ _)), fmap_app, app_assoc. done.
    + rewrite Hc2, Hc1. unfold good. cbn [fetched].
      rewrite (filter_cons_app _ _ (fetched _ _ _)), fmap_app.
      by rewrite concat_str_app, append_assoc.
Qed.

Lemma fetched_urls (E : env) (h : list request) (urls : list string) :
  (fetched E h urls).*1 = urls.
Proof.
  revert h. induction urls as [|url urls IH]; intros h; [done|].
  cbn. by rewrite IH.
Qed.

(** The loop of [scrape_capability_specific_urls] and what follows it. *)
Lemma scrape_run (competitor_name base : string) (probable_urls : list string)
    (feature_name : option string) (E : env) (h : list request) :
  let attempts := firstn 5 probable_urls in
  let good := filter (fun p => page_succeeds E p) (fetched E h attempts) in
  let h1 := h ++ (Fetch <$> attempts) in
  let body := cd_content (extract_content E (default "" (net E h1 (Fetch base))) base) in
  exists result h',
    scrape_capability_specific_urls competitor_name base probable_urls feature_name E h
    = (Ok result, h')
    ∧ (urls_tried result).*1 = attempts
    ∧ (good ≠ [] ->
         h' = h1 ∧ urls_successful result = good.*1
         ∧ content_extracted result = concat_str (page_contribution E <$> good))
    ∧ (good = [] ->
         h' = h1 ++ [Fetch base]
         ∧ ((urls_successful result = [] ∧ content_extracted result = "" ∧ truthy body = false)
            ∨ (urls_successful result = [base]
               ∧ content_extracted result = take 5000 body ∧ truthy body = true))).
Proof.
  intros attempts good h1 body.
  unfold scrape_capability_specific_urls, bind.
  destruct (try_urls_run attempts
              {| urls_tried := []; urls_successful := []; content_extracted := "";
                 sr_headings := [] |} E h) as (r & Hrun & Ht & Hs & Hc).
  change (firstn 5 probable_urls) with attempts. rewrite Hrun.
  cbn in Ht, Hs, Hc. fold good in Hs, Hc.
  destruct good as [|g good'] eqn:Hgood.
  - cbn in Hs. rewrite Hs. rewrite fetch_page_run. fold h1.
    unfold _extract_content, bind, ask, ret.
    set (html := default "" (net E h1 (Fetch base))). fold html in body.
    destruct (truthy html) eqn:Hhtml.
    + fold body. destruct (truthy body) eqn:Hbody.
      * eexists _, _. split; [done|]. cbn. split_and!; [done|done|].
        intros _. split; [done|]. right. by rewrite ?Hs.
      * eexists _, _. split; [done|]. split_and!; [done|done|].
        intros _. split; [done|]. left. by rewrite ?Hs, ?Hc.
    + eexists _, _. split; [done|]. split_and!; [done|done|].
      intros _. split; [done|]. left. rewrite ?Hs, ?Hc. split_and!; [done..|].
      unfold body. destruct html; [done|done].
  - assert (urls_successful r = g.1 :: good'.*1) as Hs' by (by rewrite Hs).
    rewrite Hs'. eexists _, _. split; [done|]. split_and!; [done| |done].
    intros _. rewrite Hs, Hc. done.
Qed.

Lemma capability_attempt_row capability capability_name comp fallback discovered
    E h row h' :
  capability_attempt capability capability_name comp fallback discovered E h
  = (Ok (Some row), h') ->
  str_len (content row) <= 8000
  ∧ pages_scraped row = List.length (urls_scraped row)
  ∧ truthy (content row) = true.
Proof.
  unfold capability_attempt. intros Hrun.
  apply try_except_Ok_inv in Hrun as [Hrun|(e & h1 & _ & Hrun)]; [|done].
  apply bind_Ok_inv in Hrun as (cc & h1 & _ & Hrun).
  destruct cc as [cc|]; [|done].
  destruct (competitor_capability_nonempty cc); [|done].
  destruct (get_default (probable_urls cc) []) as [llm_urls|]; [|done].
  apply bind_Ok_inv in Hrun as (r & h2 & _ & Hrun).
  destruct (truthy (content_extracted r)) eqn:Hcontent; [|done].
  injection Hrun as <- <-. cbn. split_and!; [by apply str_len_take|done|].
  destruct (content_extracted r); [done|done].
Qed.

Lemma capability_attempt_total capability capability_name comp fallback discovered E h :
  exists row h',
    capability_attempt capability capability_name comp fallback discovered E h
    = (Ok row, h').
Proof.
  unfold capability_attempt, try_except.
  match goal with |- context [?m E h] => destruct (m E h) as [[a|e] h'] end; eauto.
Qed.

Lemma process_competitor_run capability capability_name comp rows E h :
  let url := config.comp_url comp in
  let main_html := default "" (net E h (Fetch url)) in
  let main_content := extract_content E main_html url in
  let discovered := if truthy main_html then discover E url main_html else [] in
  exists row h',
    capability_attempt capability capability_name comp (cd_content main_content)
      discovered E (h ++ [Fetch url]) = (Ok row, h')
    ∧ process_competitor capability capability_name comp rows E h
      = (Ok (match row with
             | Some row => rows ++ [row]
             | None => main_page_fallback capability_name comp (cd_content main_content)
                         (cd_headings main_content) rows
             end), h').
Proof.
  intros url main_html main_content discovered.
  destruct (capability_attempt_total capability capability_name comp
              (cd_content main_content) discovered E (h ++ [Fetch url]))
    as (row & h' & Hattempt).
  exists row, h'. split; [done|].
  unfold process_competitor, try_except, bind. rewrite fetch_page_run.
  fold url main_html. unfold main_content, discovered in Hattempt.
  destruct (truthy main_html) eqn:Hhtml.
  - unfold _extract_content, discover_help_urls, bind, ask, ret. cbn [from_option].
    rewrite Hattempt. by destruct row.
  - unfold ret at 1 2. cbn [from_option].
    assert (main_html = "") as Hempty by (by destruct main_html).
    rewrite Hempty in Hattempt. cbn in Hattempt. rewrite Hattempt.
    unfold main_content. rewrite Hempty. by destruct row.
Qed.

Lemma concat_contributions_truthy (E : env) (good : list (string * string)) :
  good ≠ [] -> truthy (concat_str (page_contribution E <$> good)) = true.
Proof. by destruct good. Qed.

(** The capability attempt when the oracle named candidates and one of
    the attempted candidates succeeds. *)
Lemma capability_attempt_scraped capability capability_name comp fallback discovered
    E h cc llm_urls h1 :
  let attempts := firstn 5 (merge_urls llm_urls discovered) in
  let good := filter (fun p => page_succeeds E p) (fetched E h1 attempts) in
  llm_client.find_competitor_capability_urls capability (config.comp_name comp)
    (config.comp_url comp) (take 1500 fallback) E h = (Ok (Some cc), h1) ->
  competitor_capability_nonempty cc = true ->
  get_default (probable_urls cc) [] = Some llm_urls ->
  good ≠ [] ->
  exists row,
    capability_attempt capability capability_name comp fallback discovered E h
    = (Ok (Some row), h1 ++ (Fetch <$> attempts))
    ∧ competitor_name row = config.comp_name comp
    ∧ urls_scraped row = good.*1
    ∧ pages_scraped row = List.length good
    ∧ content row = take 8000 (concat_str (page_contribution E <$> good)).
Proof.
  intros attempts good Hfind Hnonempty Hurls Hgood.
  unfold capability_attempt, try_except, bind at 1.
  rewrite Hfind, Hnonempty, Hurls. unfold bind.
  destruct (scrape_run (config.comp_name comp) (config.comp_url comp)
              (merge_urls llm_urls discovered)
              (match likely_feature_name cc with
               | Absent => capability_name
               | f => get f
               end) E h1) as (result & h' & Hrun & _ & Hsome & _).
  fold attempts good in Hsome. destruct (Hsome Hgood) as (-> & Hs & Hc).
  rewrite Hrun, Hc, concat_contributions_truthy by done.
  eexists. split; [done|]. cbn. by rewrite Hs, length_fmap.
Qed.

(** C5 (as amended): the scraper fetches the first five candidates, in
    order and all of them; a candidate succeeds exactly when its markup
    is longer than 500 characters and its extracted body is longer than
    200 characters; when some candidate succeeds the result is the
    concatenation, in order, of the contributions of the successful
    candidates, each the source URL header followed by at most 4,000
    characters of the body.  The candidates of a competitor are the
    first five of the merged list of the oracle's URLs and the
    discovered ones: when one of them succeeds, the competitor's row
    holds exactly the successful URLs, their number as page count and
    the concatenation cut at 8,000 characters, and no other page is
    requested. *)
Theorem capability_urls_scraped (E : env) (h : list request)
    (competitor_name base : string) (probable_urls : list string)
    (feature_name : option string) :
  let attempts := firstn 5 probable_urls in
  let pages := fetched E h attempts in
  let good := filter (fun p => page_succeeds E p) pages in
  (List.length attempts <= 5)%nat
  ∧ pages.*1 = attempts
  ∧ (forall page, page_succeeds E page = true
                  <-> 500 < str_len page.2 ∧ 200 < str_len (page_body E page))
  ∧ (forall page, exists body,
       page_contribution E page
       = (nl +:+ nl +:+ "=== FROM " +:+ page.1 +:+ " ===" +:+ nl) +:+ body
       ∧ body = take 4000 (page_body E page) ∧ str_len body <= 4000)
  ∧ (exists result h' tail,
       scrape_capability_specific_urls competitor_name base probable_urls feature_name E h
       = (Ok result, h')
       ∧ (urls_tried result).*1 = attempts
       ∧ h' = h ++ (Fetch <$> attempts) ++ tail
       ∧ (good ≠ [] ->
            tail = [] ∧ urls_successful result = good.*1
            ∧ content_extracted result = concat_str (page_contribution E <$> good)))
  ∧ (forall capability capability_name comp fallback discovered h0 row h1,
       capability_attempt capability capability_name comp fallback discovered E h0
       = (Ok (Some row), h1) ->
       str_len (content row) <= 8000)
  ∧ (forall capability capability_name comp fallback discovered h0 cc llm_urls h1,
       let merged := firstn 5 (merge_urls llm_urls discovered) in
       let scraped := filter (fun p => page_succeeds E p) (fetched E h1 merged) in
       llm_client.find_competitor_capability_urls capability (config.comp_name comp)
         (config.comp_url comp) (take 1500 fallback) E h0 = (Ok (Some cc), h1) ->
       competitor_capability_nonempty cc = true ->
       get_default (Effects.probable_urls cc) [] = Some llm_urls ->
       scraped ≠ [] ->
       exists row,
         capability_attempt capability capability_name comp fallback discovered E h0
         = (Ok (Some row), h1 ++ (Fetch <$> merged))
         ∧ Data.competitor_name row = config.comp_name comp
         ∧ urls_scraped row = scraped.*1
         ∧ pages_scraped row = List.length scraped
         ∧ content row = take 8000 (concat_str (page_contribution E <$> scraped))).
Proof.
  intros attempts pages good. split_and!.
  - unfold attempts. rewrite length_take. lia.
  - apply fetched_urls.
  - apply page_succeeds_iff.
  - intros page. eexists. split; [done|]. split; [done|]. by apply str_len_take.
  - destruct (scrape_run competitor_name base probable_urls feature_name E h)
      as (result & h' & Hrun & Htried & Hgood & Hnone).
    fold attempts pages good in Hgood, Hnone.
    destruct (decide (good = [])) as [Hg|Hg].
    + destruct (Hnone Hg) as [-> _].
      exists result, ((h ++ (Fetch <$> attempts)) ++ [Fetch base]), [Fetch base].
      split_and!; [done|done|by rewrite <- app_assoc|done].
    + destruct (Hgood Hg) as (-> & Hs & Hc).
      exists result, (h ++ (Fetch <$> attempts)), [].
      split_and!; [done|done|by rewrite app_nil_r|done].
  - intros. by eapply capability_attempt_row.
  - intros capability capability_name comp fallback discovered h0 cc llm_urls h1
      merged scraped Hfind Hnonempty Hurls Hscraped.
    by eapply capability_attempt_scraped.
Qed.

End capability_scraper.

(** * Capability identification and the request validation *)

Section identification.
Import PyStr llm_client pipeline.











Lemma volume_field_invalid (time_range : string) :
  time_range ∉ valid_time_ranges ->
  _get_volume_field_name time_range
  = Raise (Exception ("Invalid time_range: " +:+ time_range
                      +:+ ". Must be: week, month, or year")).
Proof.
  unfold valid_time_ranges. rewrite !not_elem_of_cons. intros (H1 & H2 & H3 & _).
  unfold _get_volume_field_name.
  by rewrite !(proj2 (String.eqb_neq _ _)).
Qed.

(** C8: a time range other than "week", "month" and "year" makes the
    analysis route fail with a client error before any request leaves
    the process: the log of requests is unchanged.  The keyword
    extraction and the keyword mapper fail on it before their first
    oracle call as well.  For the three valid values the volume field is
    [weekly_volume], [monthly_volume] and [yearly_volume]. *)
Theorem invalid_time_range_fails_first (E : env) (h : list request)
    (url product time_range : string)
    (Hinvalid : time_range ∉ ["week"; "month"; "year"]) :
  (exists detail,
     analyze_url url product time_range E h = (Raise (HTTPException 400 detail), h))
  ∧ (exists msg, _get_volume_field_name time_range = Raise (Exception msg))
  ∧ (forall title headings content url',
       exists msg,
         extract_article_keywords title headings content url' time_range E h
         = (Raise (Exception msg), h))
  ∧ (forall akws product' title content competitor_content,
       exists e,
         get_competitor_keywords akws product' time_range title content
           competitor_content E h = (Raise e, h))
  ∧ _get_volume_field_name "week" = Ok "weekly_volume"
  ∧ _get_volume_field_name "month" = Ok "monthly_volume"
  ∧ _get_volume_field_name "year" = Ok "yearly_volume".
Proof.
  pose proof (volume_field_invalid time_range Hinvalid) as Hfield.
  split_and!; [| | | |done..].
  - unfold analyze_url. destruct (negb (bool_decide (is_Some _))); [by eexists|].
    rewrite bool_decide_false by done. by eexists.
  - by eexists.
  - intros. unfold extract_article_keywords, bind, lift. rewrite Hfield. by eexists.
  - intros. unfold get_competitor_keywords.
    destruct (config.PRODUCT_COMPETITORS product') as [[|c cs]|]; [by eexists| |by eexists].
    destruct (filter _ _); [by eexists|].
    unfold bind, lift. rewrite Hfield. by eexists.
Qed.

End identification.

(** * Concrete runs *)

Section concrete.
Import PyStr llm_client competitor_agent pipeline Examples Scenarios.

Lemma suggested_keywords_ranking_witness :
  let out := rank_suggestions
               [row "b" (Some 5); row "A" (Some 7); row "c" None]
               [row "a" (Some 7); row "d" (Some 5); row "e" (Some 9); row "f" (Some 1);
                row "g" (Some 2); row "h" (Some 3)] in
  keyword <$> out = ["e"; "A"; "b"; "d"; "h"]
  ∧ (List.length out <= 5)%nat
  ∧ NoDup ((fun kw => lower (keyword kw)) <$> out).
Proof.
  intros out. split; [by vm_compute|].
  pose proof (suggested_keywords_ranking
                [row "b" (Some 5); row "A" (Some 7); row "c" None]
                [row "a" (Some 7); row "d" (Some 5); row "e" (Some 9); row "f" (Some 1);
                 row "g" (Some 2); row "h" (Some 3)]) as H.
  cbv zeta in H. fold out in H. tauto.
Defined.

Lemma competitor_terms_merged_witness :
  exists data h',
    get_competitor_keywords
      [row "form validation" (Some 2400); row "reCAPTCHA" (Some 900)]
      "Forms" "month" "T" "C" [scraped "Typeform" "x"; scraped "Jotform" "y"]
      keyword_oracle [] = (Ok data, h')
    ∧ (fun e => (keyword e, used_by e)) <$> all_competitor_keywords data
      = [("Spam Protection", ["Typeform"; "Jotform"])]
    ∧ NoDup ((fun e => norm_text (keyword e)) <$> all_competitor_keywords data).
Proof.
  destruct (get_competitor_keywords
              [row "form validation" (Some 2400); row "reCAPTCHA" (Some 900)]
              "Forms" "month" "T" "C" [scraped "Typeform" "x"; scraped "Jotform" "y"]
              keyword_oracle []) as [[data|e] h'] eqn:Hrun; [|by vm_compute in Hrun].
  exists data, h'. split; [done|]. split.
  - vm_compute in Hrun. by injection Hrun as <- <-.
  - exact (proj1 (proj2 (competitor_terms_merged _ _ _ _ _ _ _ _ _ _ Hrun))).
Defined.

Lemma no_excluded_product_terms_witness :
  exists extracted h' data h'',
    extract_article_keywords "T" [] "C" "U" "month" keyword_oracle [] = (Ok extracted, h')
    ∧ get_competitor_keywords extracted "Forms" "month" "T" "C"
        [scraped "Typeform" "x"; scraped "Jotform" "y"] keyword_oracle h' = (Ok data, h'')
    ∧ keyword <$> extracted = ["form validation"; "reCAPTCHA"]
    ∧ Forall (fun e => forall t, t ∈ EXCLUDED_PRODUCT_TERMS ->
                                 contains_ci t (keyword e) = false)
        (suggested_keywords data).
Proof.
  destruct (extract_article_keywords "T" [] "C" "U" "month" keyword_oracle [])
    as [[extracted|e] h'] eqn:Hextract; [|by vm_compute in Hextract].
  destruct (get_competitor_keywords extracted "Forms" "month" "T" "C"
              [scraped "Typeform" "x"; scraped "Jotform" "y"] keyword_oracle h')
    as [[data|e] h''] eqn:Hrun.
  - exists extracted, h', data, h''. split_and!; [done|done| |].
    + vm_compute in Hextract. by injection Hextract as <- <-.
    + exact (proj1 (proj2 (proj2 (proj2
               (no_excluded_product_terms _ _ _ _ _ _ _ _ _ _ _ _ _ _ _ _ _ _
                  Hextract Hrun))))).
  - vm_compute in Hextract. injection Hextract as <- <-. by vm_compute in Hrun.
Defined.

Lemma merged_urls_oracle_first_witness :
  merge_urls ["https://x/b"; "https://x/a"; "https://x/b"]
    ["https://x/help"; "https://x/a"; "https://x/docs"]
  = ["https://x/b"; "https://x/a"; "https://x/help"; "https://x/docs"]
  ∧ NoDup (merge_urls ["https://x/b"; "https://x/a"; "https://x/b"]
             ["https://x/help"; "https://x/a"; "https://x/docs"]).
Proof.
  split; [by vm_compute|].
  exact (proj1 (proj2 (proj2 (merged_urls_oracle_first
           ["https://x/b"; "https://x/a"; "https://x/b"]
           ["https://x/help"; "https://x/a"; "https://x/docs"])))).
Defined.

(** C5 as stated fails for a page of 300 characters of plain text: its
    extracted body is longer than 200 characters, but its markup is not
    longer than 500 characters, so the URL is recorded as empty and is
    not successful. *)
Lemma small_page_does_not_succeed :
  let E := small_site 300 300 in
  let page := (guessed_url, repeat_char "a" 300) in
  fetched E [] [guessed_url] = [page]
  ∧ 200 < str_len (page_body E page)
  ∧ exists result h',
      scrape_capability_specific_urls "Typeform" "https://www.typeform.com/"
        [guessed_url] None E [] = (Ok result, h')
      ∧ urls_tried result = [(guessed_url, "empty")]
      ∧ guessed_url ∉ urls_successful result.
Proof.
  intros E page. split; [by vm_compute|]. split; [by vm_compute|].
  eexists _, _. split; [by vm_compute|]. split; [done|].
  cbn. rewrite list_elem_of_singleton. by vm_compute.
Defined.

(** A competitor with six candidates, the first five of which are
    requested: three of them succeed, and their contributions exceed the
    8,000 characters kept. *)
Lemma capability_urls_scraped_witness :
  exists row h',
    capability_attempt form_validation (Some "Form Validation") typeform ""
      [page_b; page_d; page_e; page_f] capability_site [] = (Ok (Some row), h')
    ∧ h' = [Chat "find_competitor_capability_urls"
              ["Form Validation"; ""; "Typeform"; "https://www.typeform.com/"; ""];
            Fetch page_a; Fetch page_b; Fetch page_c; Fetch page_d; Fetch page_e]
    ∧ urls_scraped row = [page_a; page_c; page_e]
    ∧ pages_scraped row = 3%nat
    ∧ str_len (content row) = 8000.
Proof.
  pose proof (proj2 (proj2 (proj2 (proj2 (proj2 (proj2
                (capability_urls_scraped capability_site [] "" "" [] None))))))
                form_validation (Some "Form Validation") typeform ""
                [page_b; page_d; page_e; page_f] [] guesses
                [page_a; page_b; page_c; page_a]
                [Chat "find_competitor_capability_urls"
                   ["Form Validation"; ""; "Typeform"; "https://www.typeform.com/"; ""]])
    as H.
  cbv zeta in H.
  assert (find_competitor_capability_urls form_validation (config.comp_name typeform)
            (config.comp_url typeform) (take 1500 "") capability_site []
          = (Ok (Some guesses),
             [Chat "find_competitor_capability_urls"
                ["Form Validation"; ""; "Typeform"; "https://www.typeform.com/"; ""]]))
    as Hguess by (vm_compute; reflexivity).
  specialize (H Hguess eq_refl eq_refl).
  assert (filter (fun p => page_succeeds capability_site p)
            (fetched capability_site
               [Chat "find_competitor_capability_urls"
                  ["Form Validation"; ""; "Typeform"; "https://www.typeform.com/"; ""]]
               (firstn 5 (merge_urls [page_a; page_b; page_c; page_a]
                            [page_b; page_d; page_e; page_f]))) ≠ [])
    as Hsome by (vm_compute; discriminate).
  destruct (H Hsome) as (row & Hrun & _ & Hurls & Hpages & Hcontent).
  exists row. eexists. split; [exact Hrun|]. split; [vm_compute; reflexivity|].
  rewrite Hurls, Hpages, Hcontent. vm_compute. split_and!; reflexivity.
Defined.

(** C6: on a site whose pages, the main page included, are plain texts
    of 50 characters, no capability URL succeeds and the main page
    content fetched at the start has 50 characters, below the threshold
    of 200.  The fallback of the caller rejects this content; still the
    competitor gets a row that holds it, with one scraped page, because
    the scraper has requested the base URL once more and taken its body
    without a test of its length. *)
Lemma short_main_page_is_used :
  let E := small_site 50 50 in
  let url := config.comp_url typeform in
  let main_content := extract_content E (default "" (net E [] (Fetch url))) url in
  let body := cd_content main_content in
  str_len body = 50
  ∧ (forall h u, page_succeeds E (u, default "" (net E h (Fetch u))) = false)
  ∧ main_page_fallback (Some "Form Validation") typeform body (cd_headings main_content) []
    = []
  ∧ exists row h',
      process_competitor form_validation (Some "Form Validation") typeform [] E []
      = (Ok [row], h')
      ∧ h' = [Fetch url;
              Chat "find_competitor_capability_urls"
                ["Form Validation"; ""; "Typeform"; url; body]]
             ++ (Fetch <$> [guessed_url; url +:+ "help"; url +:+ "help/";
                            url +:+ "support"; url +:+ "support/"])
             ++ [Fetch url]
      ∧ urls_scraped row = [url] ∧ content row = body ∧ pages_scraped row = 1%nat.
Proof.
  intros E url main_content body. split; [by vm_compute|]. split; [|split].
  - intros h u. unfold page_succeeds, E. cbn [net small_site snd].
    by destruct (String.eqb u (config.comp_url typeform)).
  - by vm_compute.
  - eexists _, _. split; [by vm_compute|]. by vm_compute.
Qed.



Lemma invalid_time_range_fails_first_witness :
  ("quarter" ∉ ["week"; "month"; "year"])
  ∧ exists detail,
      analyze_url
        "https://experienceleague.adobe.com/en/docs/experience-manager-cloud-service/content/forms/x"
        "Forms" "quarter" scenario_A []
      = (Raise (HTTPException 400 detail), []).
Proof.
  assert ("quarter" ∉ ["week"; "month"; "year"]) as Hinvalid.
  { rewrite !not_elem_of_cons. split_and!; [done..|]. apply not_elem_of_nil. }
  split; [done|].
  exact (proj1 (invalid_time_range_fails_first scenario_A [] _ "Forms" "quarter" Hinvalid)).
Defined.

(** Called without the route, the pipeline fetches the article before
    the time range is looked at. *)
Remark full_seo_analysis_fetches_first :
  exists e,
    full_seo_analysis "https://experienceleague.adobe.com/x" "Forms" "quarter" scenario_A []
    = (Raise e, [Fetch "https://experienceleague.adobe.com/x"]).
Proof. eexists. by vm_compute. Qed.

(** C9 as stated fails when the oracle was asked for the weekly volume
    and answers with the monthly volume only: the weekly volume is
    missing, and the stored volume is the monthly 3,000, not 500. *)
Lemma missing_volume_not_500 :
  get_volume monthly_only "weekly_volume" = None
  ∧ accept_term "weekly_volume" "Typeform" (Some (Val monthly_only)) []
    = [term_of "weekly_volume" "Typeform" "spam protection" monthly_only]
  ∧ t_search_volume (term_of "weekly_volume" "Typeform" "spam protection" monthly_only)
    = 3000
  ∧ 3000 ≠ 500.
Proof. by vm_compute. Defined.

Lemma mapping_defaults_witness :
  get_default (o_keyword monthly_only) "" = Some "spam protection"
  ∧ truthy "spam protection" = true
  ∧ _is_excluded_keyword "spam protection" = false
  ∧ t_cpc (term_of "monthly_volume" "Jotform" "spam protection" monthly_only) = (3 # 2)%Q
  ∧ t_search_volume (term_of "weekly_volume" "Jotform" "spam protection" monthly_only)
    = 3000
  ∧ accept_term "weekly_volume" "Jotform" (Some (Val monthly_zero)) []
    = [term_of "weekly_volume" "Jotform" "spam protection" monthly_zero]
  ∧ t_search_volume (term_of "weekly_volume" "Jotform" "spam protection" monthly_zero)
    = 500.
Proof.
  split; [done|]. split; [done|]. split; [by vm_compute|].
  pose proof (mapping_defaults "monthly_volume" "Jotform" "spam protection" monthly_only []
                eq_refl eq_refl eq_refl) as Hm.
  pose proof (mapping_defaults "weekly_volume" "Jotform" "spam protection" monthly_only []
                eq_refl eq_refl eq_refl) as Hw.
  pose proof (mapping_defaults "weekly_volume" "Jotform" "spam protection" monthly_zero []
                eq_refl eq_refl eq_refl) as Hz.
  cbv zeta in Hm, Hw, Hz.
  destruct Hm as (_ & _ & _ & _ & _ & Hcpc & _).
  destruct Hw as (_ & _ & _ & _ & Hmonthly & _).
  destruct Hz as (Haccept & _ & _ & _ & _ & _ & _ & _ & _ & Hzero & _).
  split_and!.
  - by apply Hcpc.
  - by apply Hmonthly.
  - exact Haccept.
  - apply Hzero; [by left|by right].
Defined.

Lemma discover_help_urls_generic_only_witness :
  discover_help_urls "https://www.typeform.com/" "<a href='/pricing/help'>Help</a>"
    (small_site 50 50) []
  = (Ok ["https://www.typeform.com/help"; "https://www.typeform.com/help/";
         "https://www.typeform.com/support"; "https://www.typeform.com/support/";
         "https://www.typeform.com/docs"; "https://www.typeform.com/docs/";
         "https://www.typeform.com/documentation"; "https://www.typeform.com/blog";
         "https://www.typeform.com/blog/"; "https://www.typeform.com/features"], []).
Proof.
  exact (proj1 (proj2 (proj2 (discover_help_urls_generic_only (small_site 50 50) []
           "https://www.typeform.com/" "<a href='/pricing/help'>Help</a>")))).
Defined.

End concrete.

(** * The requests of a computation *)

Section requests.
Import Requests.
Context (P : request -> bool).

Lemma bounded_ret {A} (a : A) : bounded P 0 (ret a).
Proof. intros E h. exists []. by rewrite app_nil_r. Qed.

Lemma bounded_raise {A} (e : exn) : bounded P 0 (@raise A e).
Proof. intros E h. exists []. by rewrite app_nil_r. Qed.

Lemma bounded_lift {A} (o : outcome A) : bounded P 0 (lift o).
Proof. intros E h. exists []. by rewrite app_nil_r. Qed.

Lemma bounded_ask : bounded P 0 ask.
Proof. intros E h. exists []. by rewrite app_nil_r. Qed.

Lemma bounded_call (r : request) : bounded P (if P r then 1 else 0) (call r).
Proof.
  intros E h. exists [r]. split; [done|].
  rewrite filter_cons, filter_nil.
  destruct (P r); cbn; [rewrite decide_True by done|rewrite decide_False by (intros [])];
    simpl; lia.
Qed.

Lemma bounded_le {A} (n n' : nat) (m : M A) :
  bounded P n m -> (n <= n')%nat -> bounded P n' m.
Proof. intros Hm Hle E h. destruct (Hm E h) as (ext & ? & ?). exists ext. split; [done|lia]. Qed.

Lemma bounded_bind {A B} (n1 n2 : nat) (m : M A) (k : A -> M B) :
  bounded P n1 m -> (forall a, bounded P n2 (k a)) -> bounded P (n1 + n2) (bind m k).
Proof.
  intros Hm Hk E h. unfold bind.
  destruct (Hm E h) as (e1 & H1 & Hn1).
  destruct (m E h) as [[a|e] h1]; simpl in H1; subst h1.
  - destruct (Hk a E (h ++ e1)) as (e2 & H2 & Hn2).
    exists (e1 ++ e2). rewrite H2, app_assoc. split; [done|].
    rewrite filter_app, length_app. lia.
  - exists e1. split; [done|lia].
Qed.

Lemma bounded_try_except {A} (n1 n2 : nat) (m : M A) (handler : exn -> M A) :
  bounded P n1 m -> (forall e, bounded P n2 (handler e)) ->
  bounded P (n1 + n2) (try_except m handler).
Proof.
  intros Hm Hk E h. unfold try_except.
  destruct (Hm E h) as (e1 & H1 & Hn1).
  destruct (m E h) as [[a|e] h1]; simpl in H1; subst h1.
  - exists e1. split; [done|lia].
  - destruct (Hk e E (h ++ e1)) as (e2 & H2 & Hn2).
    exists (e1 ++ e2). rewrite H2, app_assoc. split; [done|].
    rewrite filter_app, length_app. lia.
Qed.

Lemma bounded_for_each {A S} (n : nat) (body : A -> S -> M S) (l : list A) (s : S) :
  (forall x s, bounded P n (body x s)) ->
  bounded P (List.length l * n) (for_each l body s).
Proof.
  intros Hbody. revert s. induction l as [|x l IH]; intros s.
  - apply bounded_ret.
  - cbn [for_each List.length]. 
    eapply bounded_le; [apply (bounded_bind n (List.length l * n)); [apply Hbody|apply IH]|lia].
Qed.

Lemma bounded_bind_within {A B} (n n1 : nat) (m : M A) (k : A -> M B) :
  bounded P n1 m -> (n1 <= n)%nat -> (forall a, bounded P (n - n1) (k a)) ->
  bounded P n (bind m k).
Proof.
  intros Hm Hle Hk. eapply bounded_le; [apply (bounded_bind n1 (n - n1)); done|lia].
Qed.

Lemma bounded_try_except_within {A} (n : nat) (m : M A) (handler : exn -> M A) :
  bounded P n m -> (forall e, bounded P 0 (handler e)) -> bounded P n (try_except m handler).
Proof.
  intros Hm Hk. eapply bounded_le; [apply (bounded_try_except n 0); done|lia].
Qed.

Lemma bounded_for_each_within {A S} (n k : nat) (body : A -> S -> M S) (l : list A) (s : S) :
  (forall x s, bounded P k (body x s)) -> (List.length l * k <= n)%nat ->
  bounded P n (for_each l body s).
Proof. intros Hbody Hle. eapply bounded_le; [by apply bounded_for_each|done]. Qed.

Lemma bounded_bind_lift {A B} (n : nat) (o : outcome A) (k : A -> M B) :
  (forall a, o = Ok a -> bounded P n (k a)) -> bounded P n (bind (lift o) k).
Proof.
  intros Hk. destruct o as [a|e].
  - intros E h. exact (Hk a eq_refl E h).
  - intros E h. exists []. split; [by rewrite app_nil_r|simpl; lia].
Qed.

End requests.

Create HintDb bounded.

(** A bound for a computation written with [bind], [try_except] and
    case distinctions, from the bounds of the computations it calls. *)
Ltac bounded :=
  lazymatch goal with
  | |- Requests.bounded _ _ (ret _) => eapply bounded_le; [apply bounded_ret|lia]
  | |- Requests.bounded _ _ (raise _) => eapply bounded_le; [apply bounded_raise|lia]
  | |- Requests.bounded _ _ (lift _) => eapply bounded_le; [apply bounded_lift|lia]
  | |- Requests.bounded _ _ ask => eapply bounded_le; [apply bounded_ask|lia]
  | |- Requests.bounded _ _ (bind _ _) =>
      first
        [ eapply bounded_bind_within; [solve [eauto with bounded]|simpl; lia|intros; simpl]
        | eapply (bounded_bind_within _ _ 0); [bounded|lia|intros; rewrite ?Nat.sub_0_r] ];
      bounded
  | |- Requests.bounded _ _ (try_except _ _) =>
      apply bounded_try_except_within; [|intros]; bounded
  | |- Requests.bounded _ _ (if ?b then _ else _) => destruct b; bounded
  | |- Requests.bounded _ _ (match ?x with _ => _ end) => destruct x; bounded
  | |- _ => first [ solve [eauto with bounded]
                  | eapply bounded_le; [solve [eauto with bounded]|simpl; lia] ]
  end.

Section request_bounds.
Import Requests PyStr llm_client competitor_agent pipeline.

Lemma chat_completion_fetches task args : bounded is_fetch 0 (chat_completion task args).
Proof.
  unfold chat_completion.
  eapply bounded_bind_within; [apply bounded_call|simpl; lia|].
  intros [text|]; [apply bounded_ret|apply bounded_raise].
Qed.

Lemma chat_completion_chats task args : bounded is_chat 1 (chat_completion task args).
Proof.
  unfold chat_completion.
  eapply bounded_bind_within; [apply bounded_call|simpl; lia|].
  intros [text|]; [apply bounded_ret|apply bounded_raise].
Qed.

Lemma fetch_page_fetches url : bounded is_fetch 1 (_fetch_page url).
Proof.
  unfold _fetch_page.
  eapply bounded_bind_within; [apply bounded_call|simpl; lia|].
  intros r. apply bounded_ret.
Qed.

Lemma fetch_page_chats url : bounded is_chat 0 (_fetch_page url).
Proof.
  unfold _fetch_page.
  eapply bounded_bind_within; [apply bounded_call|simpl; lia|].
  intros r. apply bounded_ret.
Qed.

Lemma json_loads_bounded {A} P (loads : env -> string -> option A) text :
  bounded P 0 (json_loads loads text).
Proof.
  unfold json_loads. intros E h. exists []. rewrite app_nil_r. unfold bind, ask.
  by destruct (loads E text).
Qed.

Lemma extract_content_bounded P html url : bounded P 0 (_extract_content html url).
Proof. intros E h. exists []. by rewrite app_nil_r. Qed.

Lemma discover_help_urls_bounded P base html : bounded P 0 (discover_help_urls base html).
Proof. intros E h. exists []. by rewrite app_nil_r. Qed.

Hint Resolve chat_completion_fetches chat_completion_chats fetch_page_fetches
  fetch_page_chats json_loads_bounded extract_content_bounded
  discover_help_urls_bounded : bounded.

Lemma identify_article_capability_fetches title headings content url :
  bounded is_fetch 0 (identify_article_capability title headings content url).
Proof. unfold identify_article_capability. bounded. Qed.

Lemma identify_article_capability_chats title headings content url :
  bounded is_chat 1 (identify_article_capability title headings content url).
Proof. unfold identify_article_capability. bounded. Qed.

Lemma find_competitor_capability_urls_fetches capability competitor_name base content :
  bounded is_fetch 0 (find_competitor_capability_urls capability competitor_name base content).
Proof. unfold find_competitor_capability_urls. bounded. Qed.

Lemma find_competitor_capability_urls_chats capability competitor_name base content :
  bounded is_chat 1 (find_competitor_capability_urls capability competitor_name base content).
Proof. unfold find_competitor_capability_urls. bounded. Qed.

Lemma extract_article_keywords_fetches title headings content url time_range :
  bounded is_fetch 0 (extract_article_keywords title headings content url time_range).
Proof. unfold extract_article_keywords. bounded. Qed.

Lemma extract_article_keywords_chats title headings content url time_range :
  bounded is_chat 1 (extract_article_keywords title headings content url time_range).
Proof. unfold extract_article_keywords. bounded. Qed.

Lemma find_competitor_keyword_fetches article_keyword context competitor_name content
    headings time_range :
  bounded is_fetch 0
    (find_competitor_keyword_for_article_keyword article_keyword context competitor_name
       content headings time_range).
Proof. unfold find_competitor_keyword_for_article_keyword. bounded. Qed.

Lemma find_competitor_keyword_chats article_keyword context competitor_name content
    headings time_range :
  bounded is_chat 1
    (find_competitor_keyword_for_article_keyword article_keyword context competitor_name
       content headings time_range).
Proof. unfold find_competitor_keyword_for_article_keyword. bounded. Qed.

Hint Resolve find_competitor_capability_urls_fetches find_competitor_capability_urls_chats
  find_competitor_keyword_fetches find_competitor_keyword_chats : bounded.

Lemma map_competitor_fetches article_kw title content time_range volume_field comp terms :
  bounded is_fetch 0
    (map_competitor article_kw title content time_range volume_field comp terms).
Proof. unfold map_competitor. bounded. Qed.

Lemma map_competitor_chats article_kw title content time_range volume_field comp terms :
  bounded is_chat 1
    (map_competitor article_kw title content time_range volume_field comp terms).
Proof. unfold map_competitor. bounded. Qed.

Lemma map_competitors_fetches article_kw title content time_range volume_field ccs terms :
  bounded is_fetch 0
    (for_each ccs (map_competitor article_kw title content time_range volume_field) terms).
Proof.
  eapply bounded_for_each_within; [intros; apply map_competitor_fetches|lia].
Qed.

Lemma map_competitors_chats article_kw title content time_range volume_field ccs terms :
  bounded is_chat (List.length ccs)
    (for_each ccs (map_competitor article_kw title content time_range volume_field) terms).
Proof.
  eapply bounded_for_each_within; [intros; apply map_competitor_chats|lia].
Qed.

Hint Resolve map_competitors_fetches map_competitors_chats : bounded.

Lemma map_article_keyword_fetches akws title content time_range volume_field ccs kw acc :
  bounded is_fetch 0
    (map_article_keyword akws title content time_range volume_field ccs kw acc).
Proof. unfold map_article_keyword. destruct acc. bounded. Qed.

Lemma map_article_keyword_chats akws title content time_range volume_field ccs kw acc :
  bounded is_chat (List.length ccs)
    (map_article_keyword akws title content time_range volume_field ccs kw acc).
Proof. unfold map_article_keyword. destruct acc. bounded. Qed.

Lemma get_competitor_keywords_fetches akws product time_range title content ccs :
  bounded is_fetch 0 (get_competitor_keywords akws product time_range title content ccs).
Proof.
  unfold get_competitor_keywords.
  destruct (config.PRODUCT_COMPETITORS product) as [[|c cs]|]; [bounded| |bounded].
  destruct (filter _ _) as [|k ks]; [bounded|].
  eapply (bounded_bind_within _ _ 0); [bounded|lia|intros volume_field].
  destruct ccs as [|cc ccs]; [bounded|].
  eapply (bounded_bind_within _ _ 0); [|lia|intros [ms all]; bounded].
  eapply bounded_for_each_within; [intros; apply map_article_keyword_fetches|lia].
Qed.

Lemma get_competitor_keywords_chats akws product time_range title content ccs :
  bounded is_chat 10 (get_competitor_keywords akws product time_range title content ccs).
Proof.
  unfold get_competitor_keywords.
  destruct (config.PRODUCT_COMPETITORS product) as [[|c cs]|]; [bounded| |bounded].
  destruct (filter _ _) as [|k ks]; [bounded|].
  eapply (bounded_bind_within _ _ 0); [bounded|lia|intros volume_field].
  destruct ccs as [|cc ccs]; [bounded|].
  eapply (bounded_bind_within _ _ 10); [|lia|intros [ms all]; bounded].
  eapply bounded_for_each_within; [intros; apply map_article_keyword_chats|].
  pose proof (firstn_le_length 5 (k :: ks)).
  pose proof (firstn_le_length 2 (cc :: ccs)).
  rewrite !length_take in *. nia.
Qed.

Lemma try_url_fetches url result : bounded is_fetch 1 (try_url url result).
Proof. unfold try_url. bounded. Qed.

Lemma try_url_chats url result : bounded is_chat 0 (try_url url result).
Proof. unfold try_url. bounded. Qed.

Lemma try_urls_fetches urls result :
  bounded is_fetch 5 (for_each (firstn 5 urls) try_url result).
Proof.
  eapply bounded_for_each_within; [intros; apply try_url_fetches|].
  rewrite length_take. lia.
Qed.

Lemma try_urls_chats urls result : bounded is_chat 0 (for_each urls try_url result).
Proof. eapply bounded_for_each_within; [intros; apply try_url_chats|lia]. Qed.

Hint Resolve try_urls_fetches try_urls_chats : bounded.

Lemma scrape_capability_specific_urls_fetches competitor_name base urls feature_name :
  bounded is_fetch 6 (scrape_capability_specific_urls competitor_name base urls feature_name).
Proof. unfold scrape_capability_specific_urls. bounded. Qed.

Lemma scrape_capability_specific_urls_chats competitor_name base urls feature_name :
  bounded is_chat 0 (scrape_capability_specific_urls competitor_name base urls feature_name).
Proof. unfold scrape_capability_specific_urls. bounded. Qed.

Hint Resolve scrape_capability_specific_urls_fetches
  scrape_capability_specific_urls_chats : bounded.

Lemma capability_attempt_fetches capability capability_name comp fallback discovered :
  bounded is_fetch 6 (capability_attempt capability capability_name comp fallback discovered).
Proof. unfold capability_attempt. bounded. Qed.

Lemma capability_attempt_chats capability capability_name comp fallback discovered :
  bounded is_chat 1 (capability_attempt capability capability_name comp fallback discovered).
Proof. unfold capability_attempt. bounded. Qed.

Hint Resolve capability_attempt_fetches capability_attempt_chats : bounded.

Lemma process_competitor_fetches capability capability_name comp rows :
  bounded is_fetch 7 (process_competitor capability capability_name comp rows).
Proof. unfold process_competitor. bounded. Qed.

Lemma process_competitor_chats capability capability_name comp rows :
  bounded is_chat 1 (process_competitor capability capability_name comp rows).
Proof. unfold process_competitor. bounded. Qed.

Lemma main_page_only_fetches capability_name comp rows :
  bounded is_fetch 1 (main_page_only capability_name comp rows).
Proof. unfold main_page_only. bounded. Qed.

Lemma main_page_only_chats capability_name comp rows :
  bounded is_chat 0 (main_page_only capability_name comp rows).
Proof. unfold main_page_only. bounded. Qed.

Lemma four_competitors product competitors :
  config.PRODUCT_COMPETITORS product = Some competitors -> List.length competitors = 4%nat.
Proof.
  unfold config.PRODUCT_COMPETITORS.
  repeat case_match; intros [= <-]; done.
Qed.

Lemma get_competitor_content_for_capability_fetches product capability :
  bounded is_fetch 32 (get_competitor_content_for_capability product capability).
Proof.
  unfold get_competitor_content_for_capability, get_competitors.
  apply bounded_bind_lift. intros competitors Hproduct.
  destruct (config.PRODUCT_COMPETITORS product) as [cs|] eqn:Hcs; [|done].
  injection Hproduct as ->. apply four_competitors in Hcs.
  eapply (bounded_bind_within _ _ 28); [|lia|intros rows; simpl].
  { eapply bounded_for_each_within; [intros; apply process_competitor_fetches|lia]. }
  eapply (bounded_bind_within _ _ 4); [|lia|intros rows'; bounded].
  destruct rows; [|bounded].
  eapply bounded_for_each_within; [intros; apply main_page_only_fetches|lia].
Qed.

Lemma get_competitor_content_for_capability_chats product capability :
  bounded is_chat 4 (get_competitor_content_for_capability product capability).
Proof.
  unfold get_competitor_content_for_capability, get_competitors.
  apply bounded_bind_lift. intros competitors Hproduct.
  destruct (config.PRODUCT_COMPETITORS product) as [cs|] eqn:Hcs; [|done].
  injection Hproduct as ->. apply four_competitors in Hcs.
  eapply (bounded_bind_within _ _ 4); [|lia|intros rows; simpl].
  { eapply bounded_for_each_within; [intros; apply process_competitor_chats|lia]. }
  eapply (bounded_bind_within _ _ 0); [|lia|intros rows'; bounded].
  destruct rows; [|bounded].
  eapply bounded_for_each_within; [intros; apply main_page_only_chats|lia].
Qed.

Lemma scraper_fetch_page_fetches url : bounded is_fetch 1 (scraper.fetch_page url).
Proof.
  unfold scraper.fetch_page.
  eapply bounded_bind_within; [apply bounded_call|simpl; lia|].
  intros [html|]; bounded.
Qed.

Lemma scraper_fetch_page_chats url : bounded is_chat 0 (scraper.fetch_page url).
Proof.
  unfold scraper.fetch_page.
  eapply bounded_bind_within; [apply bounded_call|simpl; lia|].
  intros [html|]; bounded.
Qed.

Hint Resolve scraper_fetch_page_fetches scraper_fetch_page_chats : bounded.

Lemma scrape_url_fetches url : bounded is_fetch 1 (scraper.scrape_url url).
Proof. unfold scraper.scrape_url. bounded. Qed.

Lemma scrape_url_chats url : bounded is_chat 0 (scraper.scrape_url url).
Proof. unfold scraper.scrape_url. bounded. Qed.

Hint Resolve scrape_url_fetches scrape_url_chats
  identify_article_capability_fetches identify_article_capability_chats
  extract_article_keywords_fetches extract_article_keywords_chats
  get_competitor_content_for_capability_fetches get_competitor_content_for_capability_chats
  get_competitor_keywords_fetches get_competitor_keywords_chats : bounded.

Lemma analyze_competitor_keywords_fetches akws product time_range title content headings url :
  bounded is_fetch 32
    (analyze_competitor_keywords akws product time_range title content headings url).
Proof. unfold analyze_competitor_keywords. bounded. Qed.

Lemma analyze_competitor_keywords_chats akws product time_range title content headings url :
  bounded is_chat 15
    (analyze_competitor_keywords akws product time_range title content headings url).
Proof. unfold analyze_competitor_keywords. bounded. Qed.

Hint Resolve analyze_competitor_keywords_fetches analyze_competitor_keywords_chats : bounded.

Lemma full_seo_analysis_fetches url product time_range :
  bounded is_fetch 33 (full_seo_analysis url product time_range).
Proof. unfold full_seo_analysis. bounded. Qed.

Lemma full_seo_analysis_chats url product time_range :
  bounded is_chat 16 (full_seo_analysis url product time_range).
Proof. unfold full_seo_analysis. bounded. Qed.

End request_bounds.

(** * Computations that cannot fail, and the exceptions of the others *)

Section outcomes.
Import Requests.

Lemma never_raises_ret {A} (a : A) : never_raises (ret a).
Proof. intros E h. by eexists _, _. Qed.

Lemma never_raises_ask : never_raises ask.
Proof. intros E h. by eexists _, _. Qed.

Lemma never_raises_call (r : request) : never_raises (call r).
Proof. intros E h. by eexists _, _. Qed.

Lemma never_raises_bind {A B} (m : M A) (k : A -> M B) :
  never_raises m -> (forall a, never_raises (k a)) -> never_raises (bind m k).
Proof.
  intros Hm Hk E h. unfold bind. destruct (Hm E h) as (a & h1 & ->). apply Hk.
Qed.

Lemma never_raises_try_except {A} (m : M A) (handler : exn -> M A) :
  (forall e, never_raises (handler e)) -> never_raises (try_except m handler).
Proof.
  intros Hk E h. unfold try_except. destruct (m E h) as [[a|e] h1]; [by eexists _, _|apply Hk].
Qed.

Lemma never_raises_for_each {A S} (body : A -> S -> M S) (l : list A) (s : S) :
  (forall x s, never_raises (body x s)) -> never_raises (for_each l body s).
Proof.
  intros Hbody. revert s. induction l as [|x l IH]; intros s.
  - apply never_raises_ret.
  - apply never_raises_bind; [apply Hbody|apply IH].
Qed.

Context (P : exn -> Prop).

Lemma raises_only_ret {A} (a : A) : raises_only P (ret a).
Proof. by intros E h e h'. Qed.

Lemma raises_only_ask : raises_only P ask.
Proof. by intros E h e h'. Qed.

Lemma raises_only_call (r : request) : raises_only P (call r).
Proof. by intros E h e h'. Qed.

Lemma raises_only_raise {A} (e : exn) : P e -> raises_only P (@raise A e).
Proof. intros He E h e' h' [= <- _]. done. Qed.

Lemma raises_only_lift {A} (o : outcome A) :
  (forall e, o = Raise e -> P e) -> raises_only P (lift o).
Proof. intros Ho E h e h' [= -> _]. by apply Ho. Qed.

Lemma raises_only_bind {A B} (m : M A) (k : A -> M B) :
  raises_only P m -> (forall a, raises_only P (k a)) -> raises_only P (bind m k).
Proof.
  intros Hm Hk E h e h' Hrun.
  apply bind_Raise_inv in Hrun as [Hrun|(a & h1 & _ & Hrun)]; [by eapply Hm|by eapply Hk].
Qed.

Lemma raises_only_try_except {A} (m : M A) (handler : exn -> M A) :
  (forall e, raises_only P (handler e)) -> raises_only P (try_except m handler).
Proof.
  intros Hk E h e h'. unfold try_except.
  destruct (m E h) as [[a|e'] h1]; [done|]. apply Hk.
Qed.

Lemma raises_only_for_each {A S} (body : A -> S -> M S) (l : list A) (s : S) :
  (forall x s, raises_only P (body x s)) -> raises_only P (for_each l body s).
Proof.
  intros Hbody. revert s. induction l as [|x l IH]; intros s.
  - apply raises_only_ret.
  - apply raises_only_bind; [apply Hbody|apply IH].
Qed.

End outcomes.

Create HintDb outcomes.

Hint Resolve never_raises_ret never_raises_ask never_raises_call raises_only_ret
  raises_only_ask raises_only_call : outcomes.

(** The same for computations written with [bind], [try_except] and
    case distinctions. *)
Ltac outcomes :=
  lazymatch goal with
  | |- Requests.never_raises (bind _ _) =>
      apply never_raises_bind; [|intros]; outcomes
  | |- Requests.never_raises (try_except _ _) =>
      apply never_raises_try_except; intros; outcomes
  | |- Requests.raises_only _ (bind _ _) =>
      apply raises_only_bind; [|intros]; outcomes
  | |- Requests.raises_only _ (try_except _ _) =>
      apply raises_only_try_except; intros; outcomes
  | |- Requests.raises_only _ (raise _) => apply raises_only_raise; exact I
  | |- Requests.raises_only _ (lift _) =>
      first [ solve [eauto with outcomes]
            | apply raises_only_lift; intros ? ?; repeat case_match; simplify_eq; exact I ]
  | |- _ (if ?b then _ else _) => destruct b; outcomes
  | |- _ (match ?x with _ => _ end) => destruct x; outcomes
  | |- _ => solve [eauto with outcomes]
  end.

Section pipeline_outcomes.
Import Requests PyStr llm_client competitor_agent pipeline.

Lemma volume_field_raises time_range :
  raises_only not_http (lift (_get_volume_field_name time_range)).
Proof.
  apply raises_only_lift. unfold _get_volume_field_name. intros e He.
  repeat case_match; simplify_eq; exact I.
Qed.

Lemma filter_keywords_raises volume_field keywords acc :
  raises_only not_http (lift (filter_keywords volume_field keywords acc)).
Proof.
  apply raises_only_lift. revert acc.
  induction keywords as [|kw keywords IH]; intros acc e He; [done|].
  cbn [filter_keywords] in He.
  repeat case_match; simplify_eq; first [exact I|by eapply IH].
Qed.

Lemma get_competitors_raises product :
  raises_only not_http (lift (get_competitors product)).
Proof.
  apply raises_only_lift. unfold get_competitors. intros e He.
  repeat case_match; simplify_eq; exact I.
Qed.

Lemma chat_completion_raises task args : raises_only not_http (chat_completion task args).
Proof. unfold chat_completion. outcomes. Qed.

Lemma json_loads_raises {A} (loads : env -> string -> option A) text :
  raises_only not_http (json_loads loads text).
Proof.
  unfold json_loads. intros E h e h'. unfold bind, ask.
  destruct (loads E text); [done|]. by intros [= <- _].
Qed.

Hint Resolve volume_field_raises filter_keywords_raises get_competitors_raises
  chat_completion_raises json_loads_raises : outcomes.

Lemma identify_article_capability_raises title headings content url :
  raises_only not_http (identify_article_capability title headings content url).
Proof. unfold identify_article_capability. outcomes. Qed.

Lemma extract_article_keywords_raises title headings content url time_range :
  raises_only not_http (extract_article_keywords title headings content url time_range).
Proof. unfold extract_article_keywords. outcomes. Qed.

Lemma find_competitor_keyword_raises article_keyword context competitor_name content
    headings time_range :
  raises_only not_http
    (find_competitor_keyword_for_article_keyword article_keyword context competitor_name
       content headings time_range).
Proof. unfold find_competitor_keyword_for_article_keyword. outcomes. Qed.

Lemma map_competitor_never_raises article_kw title content time_range volume_field comp
    terms :
  never_raises (map_competitor article_kw title content time_range volume_field comp terms).
Proof. unfold map_competitor. outcomes. Qed.

Lemma map_article_keyword_never_raises akws title content time_range volume_field ccs kw
    acc :
  never_raises (map_article_keyword akws title content time_range volume_field ccs kw acc).
Proof.
  unfold map_article_keyword. destruct acc.
  apply never_raises_bind.
  - apply never_raises_for_each. intros. apply map_competitor_never_raises.
  - intros terms. outcomes.
Qed.

Lemma get_competitor_keywords_raises akws product time_range title content ccs :
  raises_only not_http (get_competitor_keywords akws product time_range title content ccs).
Proof.
  unfold get_competitor_keywords.
  destruct (config.PRODUCT_COMPETITORS product) as [[|c cs]|]; [outcomes| |outcomes].
  destruct (filter _ _) as [|k ks]; [outcomes|].
  apply raises_only_bind; [outcomes|intros volume_field].
  destruct ccs as [|cc ccs]; [outcomes|].
  apply raises_only_bind; [|intros [ms all]; outcomes].
  intros E h e h' Hrun.
  destruct (never_raises_for_each
              (map_article_keyword akws title content time_range volume_field
                 (firstn 2 (cc :: ccs)))
              (firstn 5 (k :: ks)) ([], [])
              ltac:(intros; apply map_article_keyword_never_raises) E h) as (a & h1 & Hok).
  congruence.
Qed.

Lemma process_competitor_never_raises capability capability_name comp rows :
  never_raises (process_competitor capability capability_name comp rows).
Proof. unfold process_competitor. outcomes. Qed.

Lemma main_page_only_never_raises capability_name comp rows :
  never_raises (main_page_only capability_name comp rows).
Proof. unfold main_page_only. outcomes. Qed.

Lemma never_raises_only {A} (P : exn -> Prop) (m : M A) : never_raises m -> raises_only P m.
Proof. intros Hm E h e h' Hrun. destruct (Hm E h) as (a & h1 & Hok). congruence. Qed.

Lemma get_competitor_content_for_capability_raises product capability :
  raises_only not_http (get_competitor_content_for_capability product capability).
Proof.
  unfold get_competitor_content_for_capability.
  apply raises_only_bind; [outcomes|intros competitors].
  apply raises_only_bind.
  { apply never_raises_only, never_raises_for_each.
    intros. apply process_competitor_never_raises. }
  intros rows. apply raises_only_bind; [|intros rows'; outcomes].
  destruct rows; [|outcomes].
  apply never_raises_only, never_raises_for_each.
  intros. apply main_page_only_never_raises.
Qed.

Lemma scrape_url_raises url : raises_only not_http (scraper.scrape_url url).
Proof. unfold scraper.scrape_url, scraper.fetch_page. outcomes. Qed.

Hint Resolve identify_article_capability_raises extract_article_keywords_raises
  get_competitor_keywords_raises get_competitor_content_for_capability_raises
  scrape_url_raises : outcomes.

Lemma analyze_competitor_keywords_raises akws product time_range title content headings url :
  raises_only not_http
    (analyze_competitor_keywords akws product time_range title content headings url).
Proof. unfold analyze_competitor_keywords. outcomes. Qed.

Hint Resolve analyze_competitor_keywords_raises : outcomes.

Lemma full_seo_analysis_raises url product time_range :
  raises_only not_http (full_seo_analysis url product time_range).
Proof. unfold full_seo_analysis. outcomes. Qed.

Lemma volume_field_valid time_range :
  time_range ∈ valid_time_ranges -> exists volume_field,
    _get_volume_field_name time_range = Ok volume_field.
Proof.
  unfold valid_time_ranges. rewrite !elem_of_cons, elem_of_nil.
  intros [->|[->|[->|[]]]]; by eexists.
Qed.

Lemma volume_field_Ok time_range volume_field :
  _get_volume_field_name time_range = Ok volume_field -> time_range ∈ valid_time_ranges.
Proof.
  unfold _get_volume_field_name, valid_time_ranges.
  repeat case_match; try done; intros _;
    match goal with H : String.eqb _ _ = true |- _ => apply String.eqb_eq in H as -> end;
    set_solver.
Qed.

End pipeline_outcomes.

(** * Requests and failures of the stages *)

Section stages.
Import Requests PyStr llm_client competitor_agent pipeline.

(** X1: The route [/api/analyze] answers a failure with an HTTP error only:
    status 400, before any request is sent, when the product, the time
    range or the URL is not valid, and status 500 for every failure of
    the analysis of a valid request. *)
Theorem analyze_url_status (url product time_range : string) (E : env)
    (h h' : list request) (e : exn)
    (Hrun : analyze_url url product time_range E h = (Raise e, h')) :
  let valid := is_Some (config.PRODUCT_COMPETITORS product)
               ∧ time_range ∈ valid_time_ranges
               ∧ validate_url_for_product url product = true in
  (¬ valid -> h' = h ∧ exists detail, e = HTTPException 400 detail)
  ∧ (valid -> exists detail, e = HTTPException 500 detail).
Proof.
  intros valid. unfold analyze_url in Hrun.
  destruct (bool_decide (is_Some (config.PRODUCT_COMPETITORS product))) eqn:Hproduct;
    cbn [negb] in Hrun.
  2: { apply bool_decide_eq_false in Hproduct. injection Hrun as <- <-.
       split; [by eauto|]. intros (? & _). done. }
  apply bool_decide_eq_true in Hproduct.
  destruct (bool_decide (time_range ∈ valid_time_ranges)) eqn:Hrange; cbn [negb] in Hrun.
  2: { apply bool_decide_eq_false in Hrange. injection Hrun as <- <-.
       split; [by eauto|]. intros (_ & ? & _). done. }
  apply bool_decide_eq_true in Hrange.
  destruct (validate_url_for_product url product) eqn:Hurl; cbn [negb] in Hrun.
  2: { injection Hrun as <- <-. split; [by eauto|]. intros (_ & _ & ?). done. }
  split; [intros Hinvalid; by destruct Hinvalid|intros _].
  unfold try_except in Hrun.
  destruct (full_seo_analysis url product time_range E h) as [[a|e0] h0] eqn:Hfull; [done|].
  apply full_seo_analysis_raises in Hfull.
  destruct e0 as [msg|status detail|origin]; [|done|]; injection Hrun as <- _; by eexists.
Qed.

(** X2: One call of the route [/api/analyze] fetches at most 33 pages (the
    article, at most seven pages for each of the four competitors and
    their four main pages again) and asks the oracle at most 16 times. *)
Theorem analysis_request_budget (url product time_range : string) :
  bounded is_fetch 33 (analyze_url url product time_range)
  ∧ bounded is_chat 16 (analyze_url url product time_range).
Proof.
  pose proof full_seo_analysis_fetches. pose proof full_seo_analysis_chats.
  unfold analyze_url. split; bounded.
Qed.

(** X3: The keyword mapper fetches no page and asks the oracle at most ten
    times: once for each of at most five article keywords and each of at
    most two competitors. *)
Theorem mapping_request_budget (akws : list kw_entry) (product time_range : string)
    (title content : string) (ccs : list competitor_content) :
  bounded is_fetch 0 (get_competitor_keywords akws product time_range title content ccs)
  ∧ bounded is_chat 10 (get_competitor_keywords akws product time_range title content ccs).
Proof.
  split; [apply get_competitor_keywords_fetches|apply get_competitor_keywords_chats].
Qed.

(** X4: For one competitor the scraper fetches at most seven pages (the main
    page, five candidates, the main page again) and asks the oracle at
    most once; for a product, at most 32 pages and four oracle calls. *)
Theorem scraping_request_budget (product : string) (capability : capability)
    (capability_name : option string) (comp : config.competitor)
    (rows : list competitor_content) :
  bounded is_fetch 7 (process_competitor capability capability_name comp rows)
  ∧ bounded is_chat 1 (process_competitor capability capability_name comp rows)
  ∧ bounded is_fetch 32 (get_competitor_content_for_capability product capability)
  ∧ bounded is_chat 4 (get_competitor_content_for_capability product capability).
Proof.
  split_and!.
  - apply process_competitor_fetches.
  - apply process_competitor_chats.
  - apply get_competitor_content_for_capability_fetches.
  - apply get_competitor_content_for_capability_chats.
Qed.

(** X5: In the keyword mapper a failure for one competitor is isolated.
    The step for one competitor never fails.  It makes no request when
    the competitor has no content or the time range is not valid, and
    exactly one oracle call otherwise.  When that call fails, when its
    answer has no brace span and when the span is no JSON text, the terms
    collected so far are kept as they are; otherwise the answer is
    examined, and the only possible change is one more term, attributed
    to this competitor, whose text passed the exclusion test. *)
Theorem mapping_failures_are_isolated (article_kw title content time_range : string)
    (volume_field : string) (comp : competitor_content) (terms : list term) (E : env)
    (h : list request) :
  let ask_for := fun field =>
    Chat "find_competitor_keyword_for_article_keyword"
      [article_kw; take 500 (title +:+ ". " +:+ take 300 content); competitor_name comp;
       join ", " (firstn 15 (headings comp)); take 3000 (Data.content comp); field] in
  exists terms' h',
    map_competitor article_kw title content time_range volume_field comp terms E h
    = (Ok terms', h')
    ∧ (terms' = terms
       ∨ exists t, terms' = terms ++ [t] ∧ t_competitor t = competitor_name comp
                   ∧ accepted t)
    ∧ (truthy (Data.content comp) = false ∨ time_range ∉ valid_time_ranges ->
       terms' = terms ∧ h' = h)
    ∧ (truthy (Data.content comp) = true ->
       forall field, _get_volume_field_name time_range = Ok field ->
         h' = h ++ [ask_for field]
         ∧ match net E h (ask_for field) with
           | None => terms' = terms
           | Some response =>
               match json_span response with
               | None => terms' = terms
               | Some text =>
                   match loads_mapping E text with
                   | None => terms' = terms
                   | Some data =>
                       terms' = accept_term volume_field (competitor_name comp)
                                  (Some data) terms
                   end
               end
           end).
Proof.
  intros ask_for. unfold map_competitor.
  destruct (truthy (Data.content comp)) eqn:Hcontent; cbn [negb].
  2: { exists terms, h. split_and!; [done|by left|done|done]. }
  unfold try_except, bind at 1, find_competitor_keyword_for_article_keyword, bind at 1, lift.
  destruct (_get_volume_field_name time_range) as [field|e] eqn:Hfield.
  2: { exists terms, h. split_and!; [done|by left|done|done]. }
  assert (time_range ∈ valid_time_ranges) as Hvalid.
  { destruct (decide (time_range ∈ valid_time_ranges)) as [|Hinvalid]; [done|].
    apply volume_field_invalid in Hinvalid. congruence. }
  unfold chat_completion, bind, call. fold (ask_for field).
  destruct (net E h (ask_for field)) as [response|] eqn:Hnet; unfold ret at 1.
  2: { exists terms, (h ++ [ask_for field]). split_and!; [done|by left| |].
       - by intros [|].
       - intros _ field' [= <-]. by rewrite Hnet. }
  destruct (json_span response) as [text|] eqn:Hspan.
  2: { exists terms, (h ++ [ask_for field]). split_and!; [done|by left| |].
       - by intros [|].
       - intros _ field' [= <-]. by rewrite Hnet, Hspan. }
  unfold json_loads, bind, ask.
  destruct (loads_mapping E text) as [data|] eqn:Hloads.
  2: { exists terms, (h ++ [ask_for field]). split_and!; [done|by left| |].
       - by intros [|].
       - intros _ field' [= <-]. by rewrite Hnet, Hspan, Hloads. }
  exists (accept_term volume_field (competitor_name comp) (Some data) terms),
    (h ++ [ask_for field]).
  split_and!; [done| | |].
  - unfold accept_term. repeat case_match; try (by left).
    right. eexists. split; [done|]. split; [done|].
    match goal with
    | H : (_ && _)%bool = true |- _ => apply andb_true_iff in H as [Htext Hexcl]
    end.
    split; simpl; [by apply Is_true_true_2|]. by apply negb_true_iff.
  - by intros [|].
  - intros _ field' [= <-]. by rewrite Hnet, Hspan, Hloads.
Qed.

End stages.

(** * The extraction of the article keywords *)

Section extraction.
Import Requests PyStr llm_client.

Lemma filter_keywords_rows volume_field keywords acc out (R : kw_entry -> Prop) :
  (forall text v c d,
     truthy text = true ->
     R {| keyword := text; search_volume := Some v; cpc := Some c; difficulty := Some d;
          tool := TOOL_ARTICLE; source := SOURCE_ARTICLE; used_by := [];
          relevance_score := None; semrush_url := _generate_semrush_url text |}) ->
  filter_keywords volume_field keywords acc = Ok out ->
  Forall R acc -> Forall R out.
Proof.
  intros HR. revert acc. induction keywords as [|kw rest IH]; intros acc Hrun Hacc.
  - by injection Hrun as <-.
  - cbn [filter_keywords] in Hrun.
    destruct (get_default (o_keyword kw) "") as [text|]; [|by eapply IH].
    destruct (truthy text) eqn:Htext; cbn [negb] in Hrun; [|by eapply IH].
    destruct (negb (bool_decide (is_Some (get_volume kw volume_field)))) eqn:Hv; [done|].
    destruct (negb (bool_decide (is_Some (get (o_cpc kw))))) eqn:Hc; [done|].
    destruct (negb (bool_decide (is_Some (get (o_difficulty kw))))) eqn:Hd; [done|].
    apply negb_false_iff, bool_decide_eq_true in Hv as [v Hv].
    apply negb_false_iff, bool_decide_eq_true in Hc as [c Hc].
    apply negb_false_iff, bool_decide_eq_true in Hd as [d Hd].
    rewrite Hv, Hc, Hd in Hrun.
    destruct (negb (_is_excluded_keyword text)); [|by eapply IH].
    eapply IH; [exact Hrun|]. apply Forall_app. split; [done|].
    apply Forall_singleton. by apply HR.
Qed.

Lemma filter_keywords_incomplete volume_field keywords acc kw text :
  kw ∈ keywords ->
  get_default (o_keyword kw) "" = Some text -> truthy text = true ->
  get_volume kw volume_field = None ∨ get (o_cpc kw) = None ∨ get (o_difficulty kw) = None ->
  exists msg, filter_keywords volume_field keywords acc = Raise (Exception msg).
Proof.
  intros Hin Htext Htruthy Hmissing. revert acc.
  induction Hin as [kw rest|kw kw' rest Hin IH]; intros acc.
  - cbn [filter_keywords]. rewrite Htext, Htruthy. cbn [negb].
    destruct (get_volume kw volume_field) as [v|];
      [|rewrite bool_decide_eq_false_2 by (by intros [? ?]); by eexists].
    rewrite bool_decide_eq_true_2 by done. cbn [negb].
    destruct (get (o_cpc kw)) as [c|];
      [|rewrite bool_decide_eq_false_2 by (by intros [? ?]); by eexists].
    rewrite bool_decide_eq_true_2 by done. cbn [negb].
    destruct (get (o_difficulty kw)) as [d|];
      [|rewrite bool_decide_eq_false_2 by (by intros [? ?]); by eexists].
    by destruct Hmissing as [?|[?|?]].
  - cbn [filter_keywords]. repeat case_match; by eauto.
Qed.

(** X6: Keyword extraction asks the oracle once and returns between one and
    ten rows; every row has a text, a search volume, a cost per click
    and a difficulty, the article's tool and source labels and the
    SEMrush link of its text. *)
Theorem extracted_keywords_are_complete (title : string) (headings : list string)
    (content url time_range : string) (E : env) (h h' : list request)
    (out : list kw_entry)
    (Hrun : extract_article_keywords title headings content url time_range E h
            = (Ok out, h')) :
  out ≠ []
  ∧ (List.length out <= 10)%nat
  ∧ Forall (fun e => truthy (keyword e) = true
                     ∧ is_Some (search_volume e) ∧ is_Some (cpc e)
                     ∧ is_Some (difficulty e)
                     ∧ tool e = TOOL_ARTICLE ∧ source e = SOURCE_ARTICLE
                     ∧ used_by e = []
                     ∧ semrush_url e = _generate_semrush_url (keyword e)) out
  ∧ exists volume_field,
      _get_volume_field_name time_range = Ok volume_field
      ∧ h' = h ++ [Chat "extract_article_keywords"
                     ([url; title; take 4000 content; time_range; volume_field]
                      ++ firstn 20 headings)].
Proof.
  unfold extract_article_keywords in Hrun.
  apply bind_Ok_inv in Hrun as (volume_field & h1 & Hfield & Hrun).
  assert (_get_volume_field_name time_range = Ok volume_field ∧ h1 = h) as [Hvf ->]
    by (unfold lift in Hfield; split; congruence).
  apply bind_Ok_inv in Hrun as (response & h2 & Hchat & Hrun).
  set (log := h ++ [Chat "extract_article_keywords"
                      ([url; title; take 4000 content; time_range; volume_field]
                       ++ firstn 20 headings)]).
  assert (h2 = log) as ->.
  { unfold chat_completion, bind, call in Hchat.
    destruct (net E h _); [|done]. by injection Hchat as _ <-. }
  destruct (json_span response) as [text|]; [|done].
  apply bind_Ok_inv in Hrun as (data & h3 & Hloads & Hrun).
  assert (h3 = log) as ->.
  { unfold json_loads, bind, ask in Hloads.
    destruct (loads_keywords E text); [|done]. by injection Hloads as _ <-. }
  destruct (get data) as [[|kw kws]|]; [done| |done].
  apply bind_Ok_inv in Hrun as (filtered & h4 & Hfilter & Hrun).
  assert (filter_keywords volume_field (kw :: kws) [] = Ok filtered ∧ h4 = log) as [Hf ->]
    by (unfold lift in Hfilter; split; [congruence|by injection Hfilter as _ <-]).
  eapply (filter_keywords_rows _ _ _ _
            (fun e => truthy (keyword e) = true
                      ∧ is_Some (search_volume e) ∧ is_Some (cpc e)
                      ∧ is_Some (difficulty e)
                      ∧ tool e = TOOL_ARTICLE ∧ source e = SOURCE_ARTICLE
                      ∧ used_by e = []
                      ∧ semrush_url e = _generate_semrush_url (keyword e)))
    in Hf as Hall; [|by intros; cbn; split_and!|constructor].
  destruct filtered as [|e es]; [done|].
  injection Hrun as <- <-. split_and!.
  - done.
  - exact (firstn_le_length 10 (e :: es)).
  - exact (Forall_take _ 10%nat _ Hall).
  - by exists volume_field.
Qed.

(** X7: Keyword extraction is strict: when one object of the oracle's list
    has a text but no search volume, no cost per click or no difficulty,
    the extraction fails, also when that text is a product name that
    would be dropped. *)
Theorem extraction_needs_every_metric (title : string) (headings : list string)
    (content url time_range volume_field : string) (E : env) (h : list request)
    (response text : string) (keywords : list keyword_obj) (kw : keyword_obj)
    (keyword_text : string)
    (Hfield : _get_volume_field_name time_range = Ok volume_field)
    (Hnet : net E h (Chat "extract_article_keywords"
                       ([url; title; take 4000 content; time_range; volume_field]
                        ++ firstn 20 headings)) = Some response)
    (Hspan : json_span response = Some text)
    (Hloads : loads_keywords E text = Some (Val keywords))
    (Hkw : kw ∈ keywords)
    (Htext : get_default (o_keyword kw) "" = Some keyword_text)
    (Htruthy : truthy keyword_text = true)
    (Hmissing : get_volume kw volume_field = None ∨ get (o_cpc kw) = None
                ∨ get (o_difficulty kw) = None) :
  exists msg,
    extract_article_keywords title headings content url time_range E h
    = (Raise (Exception msg),
       h ++ [Chat "extract_article_keywords"
               ([url; title; take 4000 content; time_range; volume_field]
                ++ firstn 20 headings)]).
Proof.
  destruct (filter_keywords_incomplete volume_field keywords [] kw keyword_text
              Hkw Htext Htruthy Hmissing) as (msg & Hfilter).
  exists msg. unfold extract_article_keywords, bind at 1, lift. rewrite Hfield.
  unfold bind at 1, chat_completion, bind at 1, call. rewrite Hnet. unfold ret at 1.
  rewrite Hspan. unfold bind at 1, json_loads, bind at 1, ask. rewrite Hloads.
  unfold ret at 1. cbn [get].
  destruct keywords as [|kw0 kws]; [by apply elem_of_nil in Hkw|].
  unfold bind, lift. by rewrite Hfilter.
Qed.

End extraction.

(** * The structure of the keyword mappings *)

Section mappings.
Import Requests PyStr PyList llm_client.

Lemma for_each_prefix {A S} (P : list A -> S -> Prop) (body : A -> S -> M S) (l : list A) :
  (forall pre x post s E h s' h',
     l = pre ++ x :: post -> P pre s -> body x s E h = (Ok s', h') -> P (pre ++ [x]) s') ->
  forall s E h s' h', P [] s -> for_each l body s E h = (Ok s', h') -> P l s'.
Proof.
  intros Hbody.
  assert (forall post pre s E h s' h',
            l = pre ++ post -> P pre s -> for_each post body s E h = (Ok s', h') -> P l s')
    as Hgen.
  { induction post as [|x post IH]; intros pre s E h s' h' Hl Hs Hrun.
    - injection Hrun as <- <-. by rewrite Hl, app_nil_r.
    - simpl in Hrun. apply bind_Ok_inv in Hrun as (s1 & h1 & Hx & Hrest).
      eapply (IH (pre ++ [x])); [by rewrite <- app_assoc| |exact Hrest].
      by eapply Hbody. }
  intros s E h s' h' Hs Hrun. by eapply (Hgen l []).
Qed.

Lemma map_competitor_inv article_kw title content time_range volume_field comp terms
    E h terms' h' :
  map_competitor article_kw title content time_range volume_field comp terms E h
  = (Ok terms', h') ->
  terms' = terms
  ∨ exists t, terms' = terms ++ [t] ∧ t_competitor t = competitor_name comp
              ∧ truthy (Data.content comp) = true.
Proof.
  unfold map_competitor. destruct (truthy (Data.content comp)) eqn:Hcontent; cbn [negb].
  - intros Hrun. apply try_except_Ok_inv in Hrun as [Hrun|(e & h1 & _ & Hrun)].
    + apply bind_Ok_inv in Hrun as (result & h1 & _ & Hrun).
      injection Hrun as <- <-. unfold accept_term.
      repeat case_match; try (by left). right. by eexists.
    + injection Hrun as <- <-. by left.
  - intros [= <- <-]. by left.
Qed.

Lemma map_competitors_names article_kw title content time_range volume_field ccs
    E h terms h' :
  for_each ccs (map_competitor article_kw title content time_range volume_field) []
    E h = (Ok terms, h') ->
  (t_competitor <$> terms)
  `sublist_of` (competitor_name <$> filter (fun c => truthy (Data.content c)) ccs).
Proof.
  apply (for_each_prefix
           (fun pre terms =>
              (t_competitor <$> terms)
              `sublist_of` (competitor_name
                              <$> filter (fun c => truthy (Data.content c)) pre))); [|done].
  intros pre comp post terms0 E0 h0 terms1 h1 _ Hsub Hrun.
  rewrite filter_app, fmap_app.
  apply map_competitor_inv in Hrun as [->|(t & -> & Hname & Hcontent)].
  - by apply sublist_inserts_r.
  - rewrite fmap_app. apply sublist_app; [done|].
    rewrite filter_cons, filter_nil, decide_True by (by rewrite Hcontent).
    cbn. by rewrite Hname.
Qed.

Lemma find_article_keyword (akws : list kw_entry) (article_kw : string) :
  article_kw ∈ keyword <$> akws ->
  exists d, List.find (fun akw => String.eqb (lower (keyword akw)) (lower article_kw)) akws
            = Some d.
Proof.
  intros Hin. apply list_elem_of_fmap in Hin as (d0 & -> & Hd0).
  destruct (List.find _ akws) as [d|] eqn:Hfind; [by eexists|].
  eapply find_none in Hfind; [|by apply list_elem_of_In].
  by rewrite String.eqb_refl in Hfind.
Qed.

Lemma map_article_keyword_structure akws title content time_range volume_field ccs
    article_kw ms all E h ms' all' h' :
  article_kw ∈ keyword <$> akws ->
  map_article_keyword akws title content time_range volume_field ccs article_kw (ms, all)
    E h = (Ok (ms', all'), h') ->
  (ms' = ms ∧ all' = all)
  ∨ exists m d,
      ms' = ms ++ [m]
      ∧ all' = merge_terms (competitor_keywords m) all
      ∧ (article_keyword m).1 = article_kw
      ∧ List.find (fun akw => String.eqb (lower (keyword akw)) (lower article_kw)) akws
        = Some d
      ∧ (article_keyword m).2 = search_volume d
      ∧ competitor_keywords m ≠ []
      ∧ (t_competitor <$> competitor_keywords m)
        ⊆+ (competitor_name <$> filter (fun c => truthy (Data.content c)) ccs).
Proof.
  intros Hin. unfold map_article_keyword. intros Hrun.
  apply bind_Ok_inv in Hrun as (terms & h1 & Hloop & Hrun).
  apply map_competitors_names in Hloop.
  destruct (find_article_keyword akws article_kw Hin) as (d & Hfind).
  destruct terms as [|t terms].
  - injection Hrun as <- <- <-. by left.
  - injection Hrun as <- <- <-. right. eexists _, d. split; [done|]. cbn.
    split_and!; [done|done|done|by rewrite Hfind| |].
    + intros Hnil. change (sort_desc t_search_volume (t :: terms) = []) in Hnil.
      pose proof (sort_desc_perm t_search_volume (t :: terms)) as Hperm.
      rewrite Hnil in Hperm. by apply Permutation_nil_cons in Hperm.
    + etrans; [|by apply sublist_submseteq].
      apply Permutation_submseteq, fmap_Permutation.
      exact (sort_desc_perm t_search_volume (t :: terms)).
Qed.

Lemma merge_term_rows (names : list string) (t : term) (all : list kw_entry) :
  t_competitor t ∈ names -> truthy (t_keyword t) = true ->
  Forall (Rows.competitor_keyword_row names) all ->
  Forall (Rows.competitor_keyword_row names) (merge_term t all).
Proof.
  intros Hname Htext. induction all as [|e all IH]; intros Hall.
  - cbn. apply Forall_singleton. unfold Rows.competitor_keyword_row. cbn.
    split_and!; try done; [by eexists..|apply NoDup_singleton|].
    intros x Hx. by apply list_elem_of_singleton in Hx as ->.
  - cbn [merge_term]. apply Forall_cons in Hall as [He Hall].
    destruct (same_text (keyword e) (t_keyword t)).
    + apply Forall_cons. split; [|done].
      destruct He as (? & ? & ? & ? & ? & ? & ? & ? & Hnodup & Hsub).
      unfold add_used_by. case_bool_decide as Hin; [done|].
      unfold Rows.competitor_keyword_row. cbn. split_and!; try done.
      * by destruct (used_by e).
      * apply NoDup_app. split_and!; [done| |apply NoDup_singleton].
        intros x Hx Hx'. by apply list_elem_of_singleton in Hx' as ->.
      * intros x Hx. apply elem_of_app in Hx as [Hx|Hx]; [by apply Hsub|].
        by apply list_elem_of_singleton in Hx as ->.
    + apply Forall_cons. split; [done|by apply IH].
Qed.

Lemma merge_terms_rows (names : list string) (terms : list term) (all : list kw_entry) :
  Forall (fun t => t_competitor t ∈ names ∧ truthy (t_keyword t) = true) terms ->
  Forall (Rows.competitor_keyword_row names) all ->
  Forall (Rows.competitor_keyword_row names) (merge_terms terms all).
Proof.
  unfold merge_terms. revert all.
  induction terms as [|t terms IH]; intros all Hterms Hall; [done|].
  apply Forall_cons in Hterms as [[Hname Htext] Hterms]. cbn.
  apply IH; [done|]. by apply merge_term_rows.
Qed.

Lemma merge_term_length (t : term) (all : list kw_entry) :
  (List.length (merge_term t all) <= S (List.length all))%nat.
Proof.
  induction all as [|e all IH]; [done|]. cbn [merge_term].
  destruct (same_text _ _); cbn; lia.
Qed.

Lemma merge_terms_length (terms : list term) (all : list kw_entry) :
  (List.length (merge_terms terms all) <= List.length all + List.length terms)%nat.
Proof.
  unfold merge_terms. revert all. induction terms as [|t terms IH]; intros all.
  - cbn. lia.
  - cbn. etrans; [apply IH|]. pose proof (merge_term_length t all). lia.
Qed.

Lemma concat_length_le {A} (n : nat) (ls : list (list A)) :
  Forall (fun l => (List.length l <= n)%nat) ls ->
  (List.length (concat ls) <= List.length ls * n)%nat.
Proof.
  induction 1 as [|l ls Hl Hls IH]; [done|]. cbn. rewrite length_app. lia.
Qed.

(** The mappings found by the keyword mapper, in a state that also
    records which article keywords and competitors they come from. *)
Lemma get_competitor_keywords_structure akws product time_range title content ccs
    E h data h' :
  get_competitor_keywords akws product time_range title content ccs E h = (Ok data, h') ->
  let kws := firstn 5 (filter (fun k => truthy k) (keyword <$> akws)) in
  let names :=
    competitor_name <$> filter (fun c => truthy (Data.content c)) (firstn 2 ccs) in
  ((fun m => (article_keyword m).1) <$> keyword_mappings data) `sublist_of` kws
  ∧ Forall (fun m =>
              competitor_keywords m ≠ []
              ∧ (t_competitor <$> competitor_keywords m) ⊆+ names
              ∧ exists d,
                  List.find (fun akw => String.eqb (lower (keyword akw))
                                          (lower (article_keyword m).1)) akws = Some d
                  ∧ (article_keyword m).2 = search_volume d)
      (keyword_mappings data).
Proof.
  intros Hrun kws names. unfold get_competitor_keywords in Hrun. unfold kws.
  destruct (config.PRODUCT_COMPETITORS product) as [[|c cs]|]; [done| |done].
  destruct (filter (fun k => truthy k) (keyword <$> akws)) as [|k ks] eqn:Hkws; [done|].
  apply bind_Ok_inv in Hrun as (volume_field & h1 & _ & Hrun).
  destruct ccs as [|cc ccs]; [done|].
  apply bind_Ok_inv in Hrun as ([ms all] & h2 & Hloop & Hrun).
  injection Hrun as <- <-. cbn [keyword_mappings].
  revert Hloop.
  apply (for_each_prefix
           (fun pre (st : list keyword_mapping * list kw_entry) =>
              ((fun m => (article_keyword m).1) <$> st.1) `sublist_of` pre
              ∧ Forall (fun m =>
                          competitor_keywords m ≠ []
                          ∧ (t_competitor <$> competitor_keywords m) ⊆+ names
                          ∧ exists d,
                              List.find (fun akw => String.eqb (lower (keyword akw))
                                                      (lower (article_keyword m).1)) akws
                              = Some d
                              ∧ (article_keyword m).2 = search_volume d) st.1));
    [|by split].
  intros pre x post [ms0 all0] E0 h0 [ms1 all1] h3 Hl [Hsub Hms] Hbody.
  assert (x ∈ keyword <$> akws) as Hx.
  { assert (x ∈ firstn 5 (k :: ks)) as Hin
      by (rewrite Hl; apply elem_of_app; right; left).
    apply elem_of_take in Hin as (i & Hin & _). apply list_elem_of_lookup_2 in Hin.
    rewrite <- Hkws in Hin. by apply list_elem_of_filter in Hin as [_ Hin]. }
  apply (map_article_keyword_structure _ _ _ _ _ _ _ _ _ _ _ _ _ _ Hx) in Hbody
    as [[-> ->]|(m & d & -> & -> & Hkw & Hfind & Hvolume & Hne & Hnames)]; cbn in *.
  - split; [by apply sublist_inserts_r|done].
  - split.
    + rewrite fmap_app. apply sublist_app; [done|]. cbn. by rewrite Hkw.
    + apply Forall_app. split; [done|]. apply Forall_singleton.
      split_and!; [done|done|]. exists d. by rewrite Hkw.
Qed.

Lemma mapping_terms_bound (ccs : list competitor_content) (terms : list term) :
  (t_competitor <$> terms)
  ⊆+ (competitor_name <$> filter (fun c => truthy (Data.content c)) (firstn 2 ccs)) ->
  (List.length terms <= 2)%nat.
Proof.
  intros Hsub. apply submseteq_length in Hsub.
  rewrite !length_fmap in Hsub.
  pose proof (length_filter (fun c => truthy (Data.content c)) (firstn 2 ccs)).
  pose proof (firstn_le_length 2 ccs). lia.
Qed.

(** X8: The keyword mapper returns at most five mappings, for article
    keywords taken in order from the first five article keywords that
    have a text.  A mapping carries the search volume of the first
    article row with the same text, the case of the letters being
    ignored, and one or two competitor terms sorted by non-increasing
    search volume; each of the competitors whose content was given (the
    first two, when their content is not empty) contributes at most one
    of them. *)
Theorem keyword_mappings_shape (akws : list kw_entry) (product time_range : string)
    (title content : string) (ccs : list competitor_content) (E : env)
    (h h' : list request) (data : keyword_data)
    (Hrun : get_competitor_keywords akws product time_range title content ccs E h
            = (Ok data, h')) :
  let kws := firstn 5 (filter (fun k => truthy k) (keyword <$> akws)) in
  let names :=
    competitor_name <$> filter (fun c => truthy (Data.content c)) (firstn 2 ccs) in
  ((fun m => (article_keyword m).1) <$> keyword_mappings data) `sublist_of` kws
  ∧ (List.length (keyword_mappings data) <= 5)%nat
  ∧ Forall (fun m =>
              StronglySorted (desc t_search_volume) (competitor_keywords m)
              ∧ (1 <= List.length (competitor_keywords m) <= 2)%nat
              ∧ (t_competitor <$> competitor_keywords m) ⊆+ names
              ∧ exists d,
                  List.find (fun akw => String.eqb (lower (keyword akw))
                                          (lower (article_keyword m).1)) akws = Some d
                  ∧ (article_keyword m).2 = search_volume d)
      (keyword_mappings data).
Proof.
  intros kws names.
  destruct (get_competitor_keywords_structure _ _ _ _ _ _ _ _ _ _ Hrun) as [Hsub Hms].
  destruct (get_competitor_keywords_inv _ _ _ _ _ _ _ _ _ _ Hrun) as [[_ Hsorted] _].
  cbn in Hsorted. split_and!.
  - exact Hsub.
  - apply sublist_length in Hsub. rewrite length_fmap in Hsub.
    pose proof (firstn_le_length 5 (filter (fun k => truthy k) (keyword <$> akws))).
    unfold kws in Hsub. rewrite length_take in *. lia.
  - apply Forall_forall. intros m Hm.
    eapply Forall_forall in Hms as (Hne & Hnames & Hvolume); [|exact Hm].
    eapply Forall_forall in Hsorted as [_ Hsorted]; [|exact Hm].
    split_and!; [done| |by eapply mapping_terms_bound|done|done].
    destruct (competitor_keywords m); [done|cbn; lia].
Qed.

(** X9: The global list of competitor keywords has at most ten rows.  Every
    row has a text, a search volume, a cost per click and a difficulty,
    the competitor labels and the SEMrush link of its text; its
    [used_by] list is not empty, names no competitor twice and names
    only competitors whose content was given to the mapper. *)
Theorem competitor_keywords_shape (akws : list kw_entry) (product time_range : string)
    (title content : string) (ccs : list competitor_content) (E : env)
    (h h' : list request) (data : keyword_data)
    (Hrun : get_competitor_keywords akws product time_range title content ccs E h
            = (Ok data, h')) :
  let names :=
    competitor_name <$> filter (fun c => truthy (Data.content c)) (firstn 2 ccs) in
  (List.length (all_competitor_keywords data) <= 10)%nat
  ∧ Forall (fun e =>
              truthy (keyword e) = true
              ∧ is_Some (search_volume e) ∧ is_Some (cpc e) ∧ is_Some (difficulty e)
              ∧ tool e = TOOL_COMPETITOR ∧ source e = SOURCE_COMPETITOR
              ∧ semrush_url e = _generate_semrush_url (keyword e)
              ∧ used_by e ≠ [] ∧ NoDup (used_by e) ∧ used_by e ⊆ names)
      (all_competitor_keywords data).
Proof.
  intros names.
  destruct (get_competitor_keywords_structure _ _ _ _ _ _ _ _ _ _ Hrun) as [Hsub Hms].
  destruct (get_competitor_keywords_inv _ _ _ _ _ _ _ _ _ _ Hrun) as [[Hall Haccepted] _].
  cbn in Hall, Haccepted. rewrite Hall. split.
  - etrans; [apply merge_terms_length|]. cbn.
    etrans; [apply (concat_length_le 2)|].
    + apply Forall_fmap, Forall_forall. intros m Hm.
      eapply Forall_forall in Hms as (_ & Hnames & _); [|exact Hm].
      by eapply mapping_terms_bound.
    + rewrite length_fmap. apply sublist_length in Hsub. rewrite length_fmap in Hsub.
      pose proof (firstn_le_length 5 (filter (fun k => truthy k) (keyword <$> akws))).
      rewrite length_take in *. lia.
  - apply (merge_terms_rows names); [|constructor].
    apply Forall_forall. intros t Ht.
    apply list_elem_of_In, in_concat in Ht as (l & Hl & Ht).
    apply list_elem_of_In, list_elem_of_fmap in Hl as (m & -> & Hm).
    apply list_elem_of_In in Ht.
    eapply Forall_forall in Hms as (_ & Hnames & _); [|exact Hm].
    eapply Forall_forall in Haccepted as [Haccepted _]; [|exact Hm].
    eapply Forall_forall in Haccepted as [Htext _]; [|exact Ht].
    split; [|by apply Is_true_true_1].
    eapply elem_of_submseteq; [|exact Hnames]. apply list_elem_of_fmap. by exists t.
Qed.

End mappings.

(** * The rows of the competitor content *)

Section content_rows.
Import Requests Rows PyStr competitor_agent.

Lemma truthy_take (n : Z) (s : string) : 0 < n -> truthy s = true -> truthy (take n s) = true.
Proof.
  intros Hn Hs. unfold take. destruct (Z.to_nat n) as [|k] eqn:Hk; [lia|].
  by destruct s.
Qed.

Lemma scrape_successful competitor_name base urls feature_name E h result h' :
  scrape_capability_specific_urls competitor_name base urls feature_name E h
  = (Ok result, h') ->
  truthy (content_extracted result) = true -> urls_successful result ≠ [].
Proof.
  intros Hrun Hcontent.
  destruct (scrape_run competitor_name base urls feature_name E h)
    as (r & h1 & Hrun' & _ & Hgood & Hnone).
  rewrite Hrun in Hrun'. injection Hrun' as <- <-.
  destruct (filter (fun p => page_succeeds E p) (fetched E h (firstn 5 urls)))
    as [|g good] eqn:Hfilter.
  - destruct (Hnone eq_refl) as [_ [(_ & Hempty & _)|(-> & _)]]; [|done].
    by rewrite Hempty in Hcontent.
  - destruct (Hgood ltac:(done)) as (_ & -> & _). done.
Qed.

Lemma capability_attempt_content_row capability capability_name comp fallback discovered
    E h row h' :
  capability_attempt capability capability_name comp fallback discovered E h
  = (Ok (Some row), h') ->
  row_competitor row = comp ∧ content_row capability_name row.
Proof.
  unfold capability_attempt. intros Hrun.
  apply try_except_Ok_inv in Hrun as [Hrun|(e & h1 & _ & Hrun)]; [|done].
  apply bind_Ok_inv in Hrun as (cc & h1 & _ & Hrun).
  destruct cc as [cc|]; [|done].
  destruct (competitor_capability_nonempty cc); [|done].
  destruct (get_default (probable_urls cc) []) as [llm_urls|]; [|done].
  apply bind_Ok_inv in Hrun as (r & h2 & Hscrape & Hrun).
  destruct (truthy (content_extracted r)) eqn:Hcontent; [|done].
  apply scrape_successful in Hscrape; [|done].
  injection Hrun as <- <-. split; [by destruct comp|].
  unfold content_row. cbn. split_and!.
  - done.
  - by apply truthy_take.
  - by apply str_len_take.
  - rewrite length_take. lia.
  - done.
  - destruct (urls_successful r); [done|cbn; lia].
Qed.

Lemma main_page_row_content_row capability_name comp page_content page_headings :
  200 < str_len page_content ->
  row_competitor (main_page_row capability_name comp page_content page_headings) = comp
  ∧ content_row capability_name
      (main_page_row capability_name comp page_content page_headings).
Proof.
  intros Hlen. split; [by destruct comp|].
  unfold content_row. cbn. split_and!; try done.
  - apply truthy_take; [done|]. by eapply (str_len_truthy _ 200).
  - pose proof (str_len_take 6000 page_content). lia.
  - rewrite length_take. lia.
Qed.

Lemma process_competitor_rows capability capability_name comp rows E h rows' h' :
  process_competitor capability capability_name comp rows E h = (Ok rows', h') ->
  rows' = rows
  ∨ exists r, rows' = rows ++ [r] ∧ row_competitor r = comp
              ∧ content_row capability_name r.
Proof.
  intros Hrun.
  destruct (process_competitor_run capability capability_name comp rows E h)
    as (row & h1 & Hattempt & Hrun').
  rewrite Hrun in Hrun'. injection Hrun' as -> ->.
  destruct row as [row|].
  - right. exists row. split; [done|]. by eapply capability_attempt_content_row.
  - unfold main_page_fallback.
    destruct (truthy _ && (200 <? str_len _))%bool eqn:Hcond; [|by left].
    right. eexists. split; [done|]. apply main_page_row_content_row.
    apply andb_true_iff in Hcond as [_ Hcond]. by apply Z.ltb_lt in Hcond.
Qed.

Lemma main_page_only_rows capability_name comp rows E h rows' h' :
  main_page_only capability_name comp rows E h = (Ok rows', h') ->
  rows' = rows
  ∨ exists r, rows' = rows ++ [r] ∧ row_competitor r = comp
              ∧ content_row capability_name r.
Proof.
  unfold main_page_only. intros Hrun.
  apply try_except_Ok_inv in Hrun as [Hrun|(e & h1 & _ & Hrun)];
    [|injection Hrun as <- <-; by left].
  apply bind_Ok_inv in Hrun as (html & h1 & _ & Hrun).
  destruct (truthy html); [|injection Hrun as <- <-; by left].
  apply bind_Ok_inv in Hrun as (cd & h2 & _ & Hrun).
  destruct (truthy _ && (200 <? str_len _))%bool eqn:Hcond;
    [|injection Hrun as <- <-; by left].
  injection Hrun as <- <-. right. eexists. split; [done|].
  apply main_page_row_content_row.
  apply andb_true_iff in Hcond as [_ Hcond]. by apply Z.ltb_lt in Hcond.
Qed.

Lemma competitor_loop_rows capability_name
    (body : config.competitor -> list competitor_content -> M (list competitor_content))
    (competitors : list config.competitor) E h rows h' :
  (forall comp rows E h rows' h',
     body comp rows E h = (Ok rows', h') ->
     rows' = rows
     ∨ exists r, rows' = rows ++ [r] ∧ row_competitor r = comp
                 ∧ content_row capability_name r) ->
  for_each competitors body [] E h = (Ok rows, h') ->
  (row_competitor <$> rows) `sublist_of` competitors
  ∧ Forall (content_row capability_name) rows.
Proof.
  intros Hbody.
  apply (for_each_prefix
           (fun pre rows => (row_competitor <$> rows) `sublist_of` pre
                            ∧ Forall (content_row capability_name) rows));
    [|by split].
  intros pre comp post rows0 E0 h0 rows1 h1 _ [Hsub Hrows] Hrun.
  apply Hbody in Hrun as [->|(r & -> & Hcomp & Hrow)].
  - split; [by apply sublist_inserts_r|done].
  - split.
    + rewrite fmap_app. apply sublist_app; [done|]. cbn. by rewrite Hcomp.
    + apply Forall_app. split; [done|]. by apply Forall_singleton.
Qed.

(** X10: The content scraper returns at least one row and at most one row
    for a competitor, in the order of the configured competitors.  Every
    row has a content that is not empty and has at most 8,000
    characters, at most 30 headings, the name of the capability, and a
    page count that is the number of its scraped URLs and is at least
    one. *)
Theorem competitor_content_rows (product : string) (capability : capability) (E : env)
    (h h' : list request) (rows : list competitor_content)
    (Hrun : get_competitor_content_for_capability product capability E h
            = (Ok rows, h')) :
  rows ≠ []
  ∧ exists competitors,
      config.PRODUCT_COMPETITORS product = Some competitors
      ∧ (row_competitor <$> rows) `sublist_of` competitors
      ∧ Forall (fun r =>
                  Data.capability_name r = get_default (name capability) "Unknown"
                  ∧ truthy (content r) = true
                  ∧ str_len (content r) <= 8000
                  ∧ (List.length (headings r) <= 30)%nat
                  ∧ pages_scraped r = List.length (urls_scraped r)
                  ∧ (1 <= pages_scraped r)%nat) rows.
Proof.
  unfold get_competitor_content_for_capability, get_competitors in Hrun.
  apply bind_Ok_inv in Hrun as (competitors & h1 & Hproduct & Hrun).
  destruct (config.PRODUCT_COMPETITORS product) as [cs|]; [|done].
  injection Hproduct as -> ->.
  apply bind_Ok_inv in Hrun as (rows1 & h2 & Hfirst & Hrun).
  apply bind_Ok_inv in Hrun as (rows2 & h3 & Hsecond & Hrun).
  destruct rows2 as [|r rows2]; [done|]. injection Hrun as <- <-.
  split; [done|]. exists competitors. split; [done|].
  destruct rows1 as [|r1 rows1].
  - eapply competitor_loop_rows; [|exact Hsecond]. apply main_page_only_rows.
  - injection Hsecond as <- <- <-.
    eapply competitor_loop_rows; [|exact Hfirst]. apply process_competitor_rows.
Qed.

(** X11: The content scraper fails in two cases only: the product is not
    configured, and then before any request; or both passes over the
    competitors ran to their end and neither gave a row.  A failure
    while one competitor is processed never ends the scraping. *)
Theorem competitor_content_failures (product : string) (capability : capability) (E : env)
    (h h' : list request) (e : exn)
    (Hrun : get_competitor_content_for_capability product capability E h
            = (Raise e, h')) :
  let capability_name := get_default (name capability) "Unknown" in
  (exists msg, e = Exception msg)
  ∧ ((config.PRODUCT_COMPETITORS product = None ∧ h' = h)
     ∨ exists competitors h1,
         config.PRODUCT_COMPETITORS product = Some competitors
         ∧ for_each competitors (process_competitor capability capability_name) [] E h
           = (Ok [], h1)
         ∧ for_each competitors (main_page_only capability_name) [] E h1 = (Ok [], h')).
Proof.
  intros capability_name.
  unfold get_competitor_content_for_capability, get_competitors in Hrun.
  destruct (config.PRODUCT_COMPETITORS product) as [competitors|].
  2: { injection Hrun as <- <-. split; [by eexists|by left]. }
  unfold bind at 1, lift in Hrun. fold capability_name in Hrun.
  apply bind_Raise_inv in Hrun as [Hrun|(rows1 & h1 & Hfirst & Hrun)].
  { destruct (never_raises_for_each
                (process_competitor capability capability_name) competitors []
                ltac:(intros; apply process_competitor_never_raises) E h)
      as (a & h1 & Hok). congruence. }
  apply bind_Raise_inv in Hrun as [Hrun|(rows2 & h2 & Hsecond & Hrun)].
  { destruct rows1; [|done].
    destruct (never_raises_for_each
                (main_page_only capability_name) competitors []
                ltac:(intros; apply main_page_only_never_raises) E h1)
      as (a & h2 & Hok). congruence. }
  destruct rows2; [|done]. injection Hrun as <- <-.
  split; [by eexists|]. right. exists competitors, h1. split; [done|].
  destruct rows1; [by split|]. by injection Hsecond.
Qed.

Lemma guess_log capability competitor_name base content E h :
  exists guess,
    is_fetch guess = false
    ∧ (llm_client.find_competitor_capability_urls capability competitor_name base content
         E h).2 = h ++ [guess].
Proof.
  eexists (Chat "find_competitor_capability_urls" _). split; [done|].
  unfold llm_client.find_competitor_capability_urls, llm_client.chat_completion,
    llm_client.json_loads, lift, bind, call, ask, raise, ret.
  simpl. repeat case_match; simplify_eq; reflexivity.
Qed.

(** X24: When the oracle call that guesses the URLs of one competitor
    fails, whatever the failure, no further page of that competitor is
    fetched: the main page content fetched at the start is used, if and
    only if it is longer than 200 characters, and the loop goes on to the
    next competitor. *)
Theorem guess_failure_falls_back (E : env) (h h1 : list request) (capability : capability)
    (capability_name : option string) (comp : config.competitor)
    (rows : list competitor_content) (e : exn) :
  let url := config.comp_url comp in
  let main_html := default "" (net E h (Fetch url)) in
  let main_content := extract_content E main_html url in
  let fallback_content := cd_content main_content in
  let fallback_row :=
    main_page_row capability_name comp fallback_content (cd_headings main_content) in
  llm_client.find_competitor_capability_urls capability (config.comp_name comp) url
    (take 1500 fallback_content) E (h ++ [Fetch url]) = (Raise e, h1) ->
  process_competitor capability capability_name comp rows E h
  = (Ok (if 200 <? str_len fallback_content then rows ++ [fallback_row] else rows), h1)
  ∧ exists guess, is_fetch guess = false ∧ h1 = h ++ [Fetch url; guess].
Proof.
  intros url main_html main_content fallback_content fallback_row Hguess.
  destruct (guess_log capability (config.comp_name comp) url (take 1500 fallback_content)
              E (h ++ [Fetch url])) as (guess & Hchat & Hlog).
  rewrite Hguess in Hlog. cbn in Hlog. subst h1. split.
  - destruct (process_competitor_run capability capability_name comp rows E h)
      as (row & h' & Hattempt & Hrun).
    fold url main_html main_content fallback_content in Hattempt, Hrun.
    unfold capability_attempt, try_except, bind at 1 in Hattempt.
    fold url in Hattempt. rewrite Hguess in Hattempt. injection Hattempt as <- <-.
    rewrite Hrun. f_equal. f_equal. unfold main_page_fallback. fold fallback_row.
    destruct (200 <? str_len fallback_content) eqn:Hlen.
    + rewrite (str_len_truthy fallback_content 200); [done|lia|by apply Z.ltb_lt].
    + by rewrite andb_false_r.
  - exists guess. split; [done|]. by rewrite <- app_assoc.
Qed.

Lemma take_nat_take_nat (n m : nat) (s : string) :
  (n <= m)%nat -> take_nat m (take_nat n s) = take_nat n s.
Proof.
  revert m s. induction n as [|n IH]; intros m s Hle; [by destruct m|].
  destruct m as [|m]; [lia|]. destruct s as [|c s]; [done|].
  cbn. by rewrite IH by lia.
Qed.

Lemma take_take (n m : Z) (s : string) : 0 <= n <= m -> take m (take n s) = take n s.
Proof. intros Hle. unfold take. apply take_nat_take_nat. lia. Qed.

Lemma scrape_refetch name base urls feature E h :
  let attempts := firstn 5 urls in
  let h1 := h ++ (Fetch <$> attempts) in
  let body := cd_content (extract_content E (default "" (net E h1 (Fetch base))) base) in
  filter (fun p => page_succeeds E p) (fetched E h attempts) = [] ->
  exists result,
    scrape_capability_specific_urls name base urls feature E h
    = (Ok result, h1 ++ [Fetch base])
    ∧ urls_successful result = (if truthy body then [base] else [])
    ∧ content_extracted result = take 5000 body.
Proof.
  intros attempts h1 body Hnone.
  destruct (scrape_run name base urls feature E h) as (result & h' & Hrun & _ & _ & Hcase).
  destruct (Hcase Hnone) as [-> Hresult]. exists result. split; [done|].
  fold attempts h1 body in Hresult.
  destruct Hresult as [(-> & -> & Hbody)|(-> & -> & Hbody)]; rewrite Hbody; [|done].
  split; [done|]. by destruct body.
Qed.

(** X25: When none of the attempted candidates of a competitor
    succeeds, the scraper requests the base URL once more and takes the
    body of that page, whatever its length, cut at 5,000 characters,
    with the base URL as the only scraped URL: the row of the competitor
    then has a page count of 1.  Only when this body is empty does the
    competitor fall through to the content of the main page fetched at
    the start, which is used, cut at 6,000 characters and again with a
    page count of 1, if and only if it is longer than 200 characters. *)
Theorem base_url_is_requested_again (E : env) :
  (forall name base urls feature h,
     let attempts := firstn 5 urls in
     let h1 := h ++ (Fetch <$> attempts) in
     let body := cd_content (extract_content E (default "" (net E h1 (Fetch base))) base) in
     filter (fun p => page_succeeds E p) (fetched E h attempts) = [] ->
     exists result,
       scrape_capability_specific_urls name base urls feature E h
       = (Ok result, h1 ++ [Fetch base])
       ∧ urls_successful result = (if truthy body then [base] else [])
       ∧ content_extracted result = take 5000 body)
  ∧ (forall capability capability_name comp fallback discovered h cc llm_urls h1,
       let attempts := firstn 5 (merge_urls llm_urls discovered) in
       let h2 := h1 ++ (Fetch <$> attempts) in
       let base := config.comp_url comp in
       let body :=
         cd_content (extract_content E (default "" (net E h2 (Fetch base))) base) in
       llm_client.find_competitor_capability_urls capability (config.comp_name comp) base
         (take 1500 fallback) E h = (Ok (Some cc), h1) ->
       competitor_capability_nonempty cc = true ->
       get_default (probable_urls cc) [] = Some llm_urls ->
       filter (fun p => page_succeeds E p) (fetched E h1 attempts) = [] ->
       exists row,
         capability_attempt capability capability_name comp fallback discovered E h
         = (Ok row, h2 ++ [Fetch base])
         ∧ if truthy body
           then exists r, row = Some r
                          ∧ competitor_name r = config.comp_name comp
                          ∧ urls_scraped r = [base]
                          ∧ pages_scraped r = 1%nat
                          ∧ content r = take 5000 body
           else row = None)
  ∧ (forall capability capability_name comp rows h h3,
       let url := config.comp_url comp in
       let main_html := default "" (net E h (Fetch url)) in
       let main_content := extract_content E main_html url in
       let fallback_content := cd_content main_content in
       let discovered := if truthy main_html then discover E url main_html else [] in
       capability_attempt capability capability_name comp fallback_content discovered
         E (h ++ [Fetch url]) = (Ok None, h3) ->
       exists rows',
         process_competitor capability capability_name comp rows E h = (Ok rows', h3)
         ∧ if 200 <? str_len fallback_content
           then exists r, rows' = rows ++ [r]
                          ∧ competitor_name r = config.comp_name comp
                          ∧ urls_scraped r = [url]
                          ∧ pages_scraped r = 1%nat
                          ∧ content r = take 6000 fallback_content
           else rows' = rows).
Proof.
  split_and!.
  - intros. by apply scrape_refetch.
  - intros capability capability_name comp fallback discovered h cc llm_urls h1
      attempts h2 base body Hfind Hnonempty Hurls Hnone.
    unfold capability_attempt, try_except, bind at 1.
    fold base. rewrite Hfind, Hnonempty, Hurls. unfold bind.
    destruct (scrape_refetch (config.comp_name comp) base (merge_urls llm_urls discovered)
                (match likely_feature_name cc with
                 | Absent => capability_name
                 | f => get f
                 end) E h1 Hnone) as (result & Hrun & Hsuccessful & Hcontent).
    fold attempts h2 body in Hrun, Hsuccessful, Hcontent.
    rewrite Hrun, Hcontent.
    destruct (truthy body) eqn:Hbody.
    + rewrite truthy_take by done. eexists. split; [done|].
      eexists. split; [done|]. cbn. rewrite Hsuccessful.
      split_and!; [done..|]. by apply take_take.
    + assert (body = "") as -> by (by destruct body). eexists. by split.
  - intros capability capability_name comp rows h h3 url main_html main_content
      fallback_content discovered Hattempt.
    destruct (process_competitor_run capability capability_name comp rows E h)
      as (row & h' & Hattempt' & Hrun).
    fold url main_html main_content fallback_content discovered in Hattempt', Hrun.
    rewrite Hattempt in Hattempt'. injection Hattempt' as <- <-.
    eexists. split; [exact Hrun|]. unfold main_page_fallback.
    destruct (200 <? str_len fallback_content) eqn:Hlen.
    + rewrite (str_len_truthy fallback_content 200); [|lia|by apply Z.ltb_lt].
      by eexists.
    + by rewrite andb_false_r.
Qed.

End content_rows.

(** * The article stage and the request validation *)

Section article.
Import Requests PyStr llm_client pipeline.

Lemma scrape_url_log url E h o h' :
  scraper.scrape_url url E h = (o, h') -> h' = h ++ [Fetch url].
Proof.
  assert ((scraper.fetch_page url E h).2 = h ++ [Fetch url]) as Hfetch.
  { unfold scraper.fetch_page, bind, call. by repeat case_match. }
  unfold scraper.scrape_url, bind at 1.
  destruct (scraper.fetch_page url E h) as [[html|e] h1]; cbn in Hfetch; subst h1;
    [|by intros [= _ <-]].
  unfold bind, ask, raise, ret. by repeat case_match; intros [= _ <-].
Qed.

Lemma scraped_article_usable (url : string) (E : env) (h h' : list request)
    (title content : string) (headings : list string) :
  scraper.scrape_url url E h = (Ok (title, headings, content), h') ->
  truthy title = true ∧ 100 <= str_len content.
Proof.
  unfold scraper.scrape_url, scraper.fetch_page, bind, call, ask. intros Hrun.
  destruct (net E h (Fetch url)) as [html|]; [|done].
  destruct (negb (truthy html) || (str_len html <? 100))%bool; [done|].
  cbn in Hrun.
  destruct (truthy (soup_title (parse_article_html E html))) eqn:Htitle; [|done].
  cbn [negb] in Hrun.
  destruct (negb (truthy (soup_text (parse_article_html E html)))
            || (str_len (soup_text (parse_article_html E html)) <? 100))%bool
    eqn:Hcontent; [done|].
  injection Hrun as <- <- <- _.
  apply orb_false_iff in Hcontent as [_ Hcontent]. by apply Z.ltb_ge in Hcontent.
Qed.

(** X12: A scraped article has a title that is not empty, a body of at least
    100 characters and headings longer than three characters, all found
    in a page of at least 100 characters that was fetched with a single
    request. *)
Theorem scraped_article_is_usable (url : string) (E : env) (h h' : list request)
    (title content : string) (headings : list string)
    (Hrun : scraper.scrape_url url E h = (Ok (title, headings, content), h')) :
  h' = h ++ [Fetch url]
  ∧ truthy title = true
  ∧ 100 <= str_len content
  ∧ Forall (fun text => 3 < str_len text) headings
  ∧ exists html,
      net E h (Fetch url) = Some html ∧ 100 <= str_len html
      ∧ title = soup_title (parse_article_html E html)
      ∧ content = soup_text (parse_article_html E html).
Proof.
  split; [by eapply scrape_url_log|].
  unfold scraper.scrape_url, scraper.fetch_page, bind, call, ask in Hrun.
  destruct (net E h (Fetch url)) as [html|]; [|done].
  destruct (negb (truthy html) || (str_len html <? 100))%bool eqn:Hhtml; [done|].
  cbn in Hrun.
  destruct (truthy (soup_title (parse_article_html E html))) eqn:Htitle; [|done].
  cbn [negb] in Hrun.
  destruct (negb (truthy (soup_text (parse_article_html E html)))
            || (str_len (soup_text (parse_article_html E html)) <? 100))%bool
    eqn:Hcontent; [done|].
  injection Hrun as <- <- <- _.
  apply orb_false_iff in Hhtml as [_ Hhtml]. apply Z.ltb_ge in Hhtml.
  apply orb_false_iff in Hcontent as [_ Hcontent]. apply Z.ltb_ge in Hcontent.
  split_and!; [done|done| |by exists html].
  apply Forall_forall. intros text Htext.
  apply list_elem_of_filter in Htext as [Htext _].
  apply Is_true_true_1, andb_true_iff in Htext as [_ Htext]. by apply Z.ltb_lt in Htext.
Qed.

(** X13: When the article cannot be scraped, or its keywords cannot be
    extracted, the analysis fails with that error: the article is the
    only page that was fetched and the oracle was asked at most once. *)
Theorem article_failure_stops_analysis (url product time_range : string) (E : env)
    (h h' : list request) (e : exn)
    (Hproduct : is_Some (config.PRODUCT_COMPETITORS product))
    (Hfail : scraper.scrape_url url E h = (Raise e, h')
             ∨ exists title headings content h1,
                 scraper.scrape_url url E h = (Ok (title, headings, content), h1)
                 ∧ extract_article_keywords title headings content url time_range E h1
                   = (Raise e, h')) :
  full_seo_analysis url product time_range E h = (Raise e, h')
  ∧ exists ext, h' = h ++ Fetch url :: ext
                ∧ Forall (fun r => is_fetch r = false) ext
                ∧ (List.length ext <= 1)%nat.
Proof.
  destruct Hproduct as [competitors Hproduct].
  unfold full_seo_analysis, competitor_agent.get_competitors. rewrite Hproduct.
  unfold bind at 1, lift.
  destruct Hfail as [Hscrape|(title & headings & content & h1 & Hscrape & Hextract)].
  - unfold bind at 1. rewrite Hscrape. split; [done|].
    apply scrape_url_log in Hscrape as ->. exists [].
    split_and!; [done|constructor|simpl; lia].
  - unfold bind at 1. rewrite Hscrape. unfold bind at 1. rewrite Hextract.
    split; [done|]. apply scrape_url_log in Hscrape as ->.
    destruct (extract_article_keywords_fetches title headings content url time_range
                E (h ++ [Fetch url])) as (ext & Hext & Hfetches).
    destruct (extract_article_keywords_chats title headings content url time_range
                E (h ++ [Fetch url])) as (ext' & Hext' & Hchats).
    rewrite Hextract in Hext, Hext'. cbn in Hext, Hext'.
    assert (ext' = ext) as -> by (rewrite Hext in Hext'; by apply app_inv_head in Hext').
    exists ext. rewrite Hext, <- app_assoc. split; [done|].
    assert (Forall (fun r => is_fetch r = false) ext) as Hall.
    { apply Forall_forall. intros r Hr. destruct (is_fetch r) eqn:Hfetch; [|done].
      assert (r ∈ filter (fun r => is_fetch r) ext) as Hin
        by (apply list_elem_of_filter; by rewrite Hfetch).
      destruct (filter (fun r => is_fetch r) ext); [by apply elem_of_nil in Hin|].
      cbn in Hfetches. lia. }
    split; [done|].
    rewrite (filter_all (fun r => is_chat r)) in Hchats; [done|].
    intros r Hr. eapply Forall_forall in Hall; [|exact Hr].
    unfold is_chat. by rewrite Hall.
Qed.

Lemma startswith_get (p s : string) (n : nat) (c : ascii) :
  startswith p s = true -> String.get n p = Some c -> String.get n s = Some c.
Proof.
  revert s n. induction p as [|a p IH]; intros [|b s] n Hstarts Hget; try done.
  cbn in Hstarts. apply andb_true_iff in Hstarts as [Hab Hstarts].
  apply Ascii.eqb_eq in Hab as ->. destruct n as [|n]; [done|]. cbn in *. by eapply IH.
Qed.

(** X14: A URL is accepted for at most one product: a URL that is valid for
    a product begins with the documentation prefix of that product, and
    the prefixes of two products differ. *)
Theorem url_valid_for_one_product (url product1 product2 : string)
    (Hvalid1 : validate_url_for_product url product1 = true)
    (Hvalid2 : validate_url_for_product url product2 = true) :
  product1 = product2
  ∧ exists prefix, URL_PATTERNS product1 = Some prefix ∧ startswith prefix url = true.
Proof.
  unfold validate_url_for_product in *.
  destruct (URL_PATTERNS product1) as [prefix1|] eqn:Hp1; [|done].
  destruct (URL_PATTERNS product2) as [prefix2|] eqn:Hp2; [|done].
  unfold matches_pattern in *.
  apply andb_true_iff in Hvalid1 as [Hstarts1 _].
  apply andb_true_iff in Hvalid2 as [Hstarts2 _].
  split; [|by exists prefix1].
  unfold URL_PATTERNS in Hp1, Hp2.
  repeat case_match; simplify_eq;
    repeat match goal with
           | H : String.eqb _ _ = true |- _ => apply String.eqb_eq in H as ->
           end;
    try done;
    pose proof (startswith_get _ _ 84 _ Hstarts1 eq_refl) as Hget1;
    pose proof (startswith_get _ _ 84 _ Hstarts2 eq_refl) as Hget2;
    congruence.
Qed.

End article.

(** * The exclusion test *)

Section exclusion.
Import PyStr llm_client.

Lemma str_in_lstrip_inv (t s : string) : str_in t (lstrip s) = true -> str_in t s = true.
Proof.
  induction s as [|c s IH]; [done|]. cbn [lstrip].
  destruct (is_space c); [|done]. intros Hin. by apply str_in_cons, IH.
Qed.

Lemma startswith_rstrip_inv (t s : string) :
  startswith t (rstrip s) = true -> startswith t s = true.
Proof.
  revert t. induction s as [|c s IH]; intros t; [done|]. cbn [rstrip].
  destruct t as [|a t]; [done|].
  destruct (is_space c && is_empty (rstrip s))%bool; [done|]. cbn.
  intros Hstarts. apply andb_true_iff in Hstarts as [-> Hstarts]. by rewrite IH.
Qed.

Lemma str_in_rstrip_inv (t s : string) : str_in t (rstrip s) = true -> str_in t s = true.
Proof.
  induction s as [|c s IH]; [done|]. cbn [rstrip].
  destruct (is_space c && is_empty (rstrip s))%bool eqn:Hc.
  - destruct t; [intros _; reflexivity|intros Hin; discriminate Hin].
  - cbn [str_in]. intros Hin. apply orb_true_iff in Hin as [Hin|Hin].
    + apply orb_true_iff. left.
      apply (startswith_rstrip_inv t (String c s)). cbn [rstrip]. by rewrite Hc.
    + apply orb_true_iff. right. by apply IH.
Qed.

(** X15: The exclusion test is the substring test of the excluded terms on
    the lower-case text: a keyword is excluded exactly when it contains
    one of the excluded product terms, the case of the letters being
    ignored; the removal of the surrounding white space changes
    nothing. *)
Theorem excluded_iff_contains_term (keyword : string) :
  _is_excluded_keyword keyword = true
  <-> exists t, t ∈ EXCLUDED_PRODUCT_TERMS ∧ contains_ci t keyword = true.
Proof.
  split.
  - unfold _is_excluded_keyword. intros Hex.
    apply existsb_exists in Hex as (t & Ht & Hin).
    exists t. split; [by apply list_elem_of_In|].
    pose proof excluded_terms_plain as Hplain.
    rewrite forallb_forall in Hplain. specialize (Hplain t Ht).
    unfold plain_term in Hplain.
    apply andb_true_iff in Hplain as [Hplain _].
    apply andb_true_iff in Hplain as [Hlow _].
    apply String.eqb_eq in Hlow. unfold contains_ci. rewrite Hlow.
    by apply str_in_lstrip_inv, str_in_rstrip_inv.
  - intros (t & Ht & Hin).
    destruct (_is_excluded_keyword keyword) eqn:Hex; [done|].
    pose proof (not_excluded_spec keyword Hex t Ht). congruence.
Qed.

End exclusion.

(** * The content rewriter *)

Section rewriter.
Import Requests PyStr llm_client rewriting.
Context (re_section re_chunk : string -> string).

Lemma rewrite_section_fetches section keywords n total tone :
  bounded is_fetch 0 (_rewrite_section re_section re_chunk section keywords n total tone).
Proof.
  pose proof chat_completion_fetches. unfold rewriting._rewrite_section. bounded.
Qed.

Lemma rewrite_section_chats section keywords n total tone :
  bounded is_chat 1 (_rewrite_section re_section re_chunk section keywords n total tone).
Proof.
  pose proof chat_completion_chats. unfold rewriting._rewrite_section. bounded.
Qed.

Lemma rewrite_section_run section keywords n total tone E h :
  _rewrite_section re_section re_chunk section keywords n total tone E h
  = (match net E h (rewrite_request keywords tone section) with
     | Some response => Ok (cleaned re_section re_chunk response)
     | None => Raise (Exception "OpenAI API Error")
     end, h ++ [rewrite_request keywords tone section]).
Proof.
  unfold rewriting._rewrite_section, chat_completion, bind, call.
  fold (rewrite_request keywords tone section).
  by destruct (net E h _).
Qed.

(** The two attempts for one chunk add exactly one piece: the first
    usable answer of the oracle, the chunk in a paragraph without one. *)
Lemma rewrite_attempts_two chunk keywords n total tone pieces successful E h :
  let kept := kept_piece re_section re_chunk E h keywords tone chunk in
  rewrite_attempts re_section re_chunk (seq 0 2) 2 chunk keywords n total tone
    (pieces, successful) E h
  = (Ok (pieces ++ [kept.1.1], if kept.1.2 then S successful else successful), kept.2).
Proof.
  intros kept. unfold kept, kept_piece, usable_answer.
  cbn [seq rewriting.rewrite_attempts Nat.eqb Nat.sub].
  unfold bind at 1, try_except at 1, bind at 1. rewrite rewrite_section_run.
  set (request := rewrite_request keywords tone chunk).
  destruct (net E h request) as [r1|].
  - fold (usable (cleaned re_section re_chunk r1)).
    destruct (usable (cleaned re_section re_chunk r1)); [done|].
    cbn. unfold bind at 1, try_except at 1, bind at 1. rewrite rewrite_section_run.
    fold request. destruct (net E (h ++ [request]) request) as [r2|].
    + fold (usable (cleaned re_section re_chunk r2)).
      destruct (usable (cleaned re_section re_chunk r2)); cbn; by rewrite <- app_assoc.
    + cbn. by rewrite <- app_assoc.
  - cbn. unfold bind at 1, try_except at 1, bind at 1. rewrite rewrite_section_run.
    fold request. destruct (net E (h ++ [request]) request) as [r2|].
    + fold (usable (cleaned re_section re_chunk r2)).
      destruct (usable (cleaned re_section re_chunk r2)); cbn; by rewrite <- app_assoc.
    + cbn. by rewrite <- app_assoc.
Qed.

Lemma rewrite_attempts_fetches chunk keywords n total tone st :
  bounded is_fetch 0 (rewrite_attempts re_section re_chunk (seq 0 2) 2 chunk keywords n total tone st).
Proof.
  pose proof rewrite_section_fetches. destruct st as [pieces successful].
  cbn [seq rewriting.rewrite_attempts Nat.eqb Nat.sub].
  eapply (bounded_bind_within _ _ 0); [bounded|lia|intros [again st]].
  destruct again; [|bounded]. destruct st as [pieces' successful'].
  eapply (bounded_bind_within _ _ 0); [bounded|lia|intros [again st]].
  destruct again; bounded.
Qed.

Lemma rewrite_attempts_chats chunk keywords n total tone st :
  bounded is_chat 2 (rewrite_attempts re_section re_chunk (seq 0 2) 2 chunk keywords n total tone st).
Proof.
  pose proof rewrite_section_chats. destruct st as [pieces successful].
  cbn [seq rewriting.rewrite_attempts Nat.eqb Nat.sub].
  eapply (bounded_bind_within _ _ 1); [bounded|lia|intros [again st]].
  destruct again; [|bounded]. destruct st as [pieces' successful'].
  eapply (bounded_bind_within _ _ 1); [bounded|lia|intros [again st]].
  destruct again; bounded.
Qed.

Lemma rewrite_loop_run (numbered : list (nat * string)) total keywords tone pieces
    successful E h :
  let kept := kept_pieces re_section re_chunk E h keywords tone numbered.*2 in
  for_each numbered
    (fun '(i, chunk) st =>
       rewrite_attempts re_section re_chunk (seq 0 2) 2 chunk keywords (S i) total tone st)
    (pieces, successful) E h
  = (Ok (pieces ++ kept.1.*1,
         (successful + List.length (filter (fun p => p.2 = true) kept.1))%nat), kept.2).
Proof.
  revert pieces successful h.
  induction numbered as [|[i chunk] numbered IH]; intros pieces successful h.
  - cbn. by rewrite app_nil_r, Nat.add_0_r.
  - cbn [for_each fmap list_fmap snd kept_pieces]. unfold bind at 1.
    rewrite rewrite_attempts_two.
    destruct (kept_piece re_section re_chunk E h keywords tone chunk) as [[piece ok] h1].
    cbn [fst snd]. rewrite IH.
    destruct (kept_pieces re_section re_chunk E h1 keywords tone numbered.*2)
      as [kept h2].
    cbn [fst snd fmap list_fmap]. rewrite <- app_assoc. cbn [app].
    rewrite filter_cons. destruct ok; cbn [snd].
    + rewrite decide_True by done. cbn [List.length]. do 3 f_equal. lia.
    + rewrite decide_False by done. done.
Qed.

Lemma rewrite_chunks_run chunks keywords tone E h :
  let kept := kept_pieces re_section re_chunk E h keywords tone chunks in
  rewrite_chunks re_section re_chunk chunks keywords tone E h
  = (Ok (kept.1.*1, List.length (filter (fun p => p.2 = true) kept.1)), kept.2).
Proof.
  intros kept. unfold rewriting.rewrite_chunks.
  pose proof (rewrite_loop_run (zip (seq 0 (List.length chunks)) chunks)
                (List.length chunks) keywords tone [] 0%nat E h) as Hrun.
  cbv zeta in Hrun. rewrite snd_zip in Hrun by (rewrite length_seq; lia).
  exact Hrun.
Qed.

(** Every kept piece belongs to its chunk: it is the cleaned answer of
    the oracle to the request for this chunk, longer than 50 characters,
    or the chunk in a paragraph. *)
Lemma kept_pieces_spec keywords tone chunks E h :
  Forall2 (fun chunk (piece : string * bool) =>
             if piece.2
             then 50 < str_len piece.1
                  ∧ exists h0 response,
                      net E h0 (rewrite_request keywords tone chunk) = Some response
                      ∧ piece.1 = cleaned re_section re_chunk response
             else piece.1 = paragraph chunk
                  ∧ exists h0,
                      usable_answer re_section re_chunk E h0 keywords tone chunk = None
                      ∧ usable_answer re_section re_chunk E
                          (h0 ++ [rewrite_request keywords tone chunk]) keywords tone chunk
                        = None)
    chunks (kept_pieces re_section re_chunk E h keywords tone chunks).1.
Proof.
  assert (forall h0 chunk rewritten,
            usable_answer re_section re_chunk E h0 keywords tone chunk = Some rewritten ->
            50 < str_len rewritten
            ∧ exists h1 response,
                net E h1 (rewrite_request keywords tone chunk) = Some response
                ∧ rewritten = cleaned re_section re_chunk response) as Hanswer.
  { intros h0 chunk rewritten. unfold usable_answer.
    destruct (net E h0 _) as [response|] eqn:Hnet; [|done].
    destruct (usable _) eqn:Husable; [|done]. intros [= <-].
    apply andb_true_iff in Husable as [_ Hlong]. apply Z.ltb_lt in Hlong.
    split; [done|]. by exists h0, response. }
  revert h. induction chunks as [|chunk chunks IH]; intros h; [constructor|].
  cbn [kept_pieces].
  destruct (kept_piece re_section re_chunk E h keywords tone chunk) as [piece h1] eqn:Hpiece.
  specialize (IH h1).
  destruct (kept_pieces re_section re_chunk E h1 keywords tone chunks) as [pieces h2].
  cbn [fst] in *. constructor; [|done].
  unfold kept_piece in Hpiece.
  destruct (usable_answer re_section re_chunk E h keywords tone chunk) as [r1|] eqn:H1.
  - injection Hpiece as <- <-. cbn. by apply (Hanswer h).
  - destruct (usable_answer re_section re_chunk E (h ++ _) keywords tone chunk)
      as [r2|] eqn:H2.
    + injection Hpiece as <- <-. cbn. by eapply Hanswer.
    + injection Hpiece as <- <-. cbn. split; [done|]. by exists h.
Qed.

(** X16: The rewriter never loses a chunk and never fails once there is a
    target keyword: it returns one piece for every chunk, in order,
    joined by empty lines.  The piece of a chunk is the first usable
    answer among the two attempts for this chunk, that is the cleaned
    answer of the oracle to the request for this very chunk when it is
    longer than 50 characters, and the chunk itself in a paragraph when
    neither attempt gave one.  It counts the chunks the oracle rewrote
    and uses the first three keywords. *)
Theorem rewrite_keeps_every_chunk (content : string) (target_keywords : list string)
    (tone : string) (E : env) (h : list request)
    (Hkeywords : target_keywords ≠ []) :
  let chunks := _split_into_sections content 4000 in
  let keywords := firstn 3 target_keywords in
  let kept := kept_pieces re_section re_chunk E h keywords tone chunks in
  rewrite_content_for_seo re_section re_chunk content target_keywords tone E h
  = (Ok {| rewritten_content :=
             join (competitor_agent.nl +:+ competitor_agent.nl) kept.1.*1;
           rewriting.target_keywords := keywords;
           chunks_processed := List.length (filter (fun p => p.2 = true) kept.1);
           total_chunks := List.length chunks |}, kept.2)
  ∧ Forall2 (fun chunk (piece : string * bool) =>
               if piece.2
               then 50 < str_len piece.1
                    ∧ exists h0 response,
                        net E h0 (rewrite_request keywords tone chunk) = Some response
                        ∧ piece.1 = cleaned re_section re_chunk response
               else piece.1 = paragraph chunk
                    ∧ exists h0,
                        usable_answer re_section re_chunk E h0 keywords tone chunk = None
                        ∧ usable_answer re_section re_chunk E
                            (h0 ++ [rewrite_request keywords tone chunk]) keywords tone
                            chunk = None)
      chunks kept.1
  ∧ (List.length (filter (fun p : string * bool => p.2 = true) kept.1)
     <= List.length chunks)%nat.
Proof.
  intros chunks keywords kept. split_and!.
  - unfold rewriting.rewrite_content_for_seo.
    destruct target_keywords as [|kw kws]; [done|].
    unfold bind. fold chunks keywords. rewrite rewrite_chunks_run. by fold kept.
  - apply kept_pieces_spec.
  - pose proof (kept_pieces_spec keywords tone chunks E h) as Hkept.
    apply Forall2_length in Hkept. fold kept in Hkept. rewrite Hkept.
    apply length_filter.
Qed.

(** X17: The rewriter fetches no page and asks the oracle at most twice for
    every chunk; without a target keyword it fails before any request. *)
Theorem rewrite_request_budget (content : string) (target_keywords : list string)
    (tone : string) :
  bounded is_fetch 0 (rewrite_content_for_seo re_section re_chunk content target_keywords tone)
  ∧ bounded is_chat (2 * List.length (_split_into_sections content 4000))
      (rewrite_content_for_seo re_section re_chunk content target_keywords tone)
  ∧ (target_keywords = [] ->
     forall E h, rewrite_content_for_seo re_section re_chunk content target_keywords tone E h
                 = (Raise (Exception "No target keywords provided"), h)).
Proof.
  split_and!.
  - unfold rewriting.rewrite_content_for_seo.
    destruct target_keywords as [|kw kws]; [bounded|].
    eapply (bounded_bind_within _ _ 0); [|lia|intros [pieces successful]; bounded].
    unfold rewriting.rewrite_chunks.
    eapply (bounded_for_each_within _ _ 0); [|lia].
    intros [i chunk] st. apply rewrite_attempts_fetches.
  - unfold rewriting.rewrite_content_for_seo.
    destruct target_keywords as [|kw kws]; [bounded|].
    eapply bounded_bind_within; [|reflexivity|intros [pieces successful]; bounded].
    unfold rewriting.rewrite_chunks.
    eapply (bounded_for_each_within _ _ 2);
      [intros [i chunk] st; apply rewrite_attempts_chats|].
    rewrite length_zip, length_seq. lia.
  - by intros ->.
Qed.

End rewriter.

(** * The chunks of the content rewriter *)

Section chunks.
Import PyStr rewriting.

Lemma str_len_append (a b : string) : str_len (a +:+ b) = str_len a + str_len b.
Proof.
  unfold str_len. induction a as [|c a IH].
  - change ("" +:+ b) with b. cbn [String.length]. lia.
  - rewrite append_cons. cbn [String.length]. lia.
Qed.

Lemma str_len_nonneg (s : string) : 0 <= str_len s.
Proof. unfold str_len. lia. Qed.

Lemma str_len_lstrip (s : string) : str_len (lstrip s) <= str_len s.
Proof.
  unfold str_len. induction s as [|c s IH]; [done|]. cbn [lstrip].
  destruct (is_space c); cbn [String.length]; lia.
Qed.

Lemma str_len_rstrip (s : string) : str_len (rstrip s) <= str_len s.
Proof.
  unfold str_len. induction s as [|c s IH]; [done|]. cbn [rstrip].
  destruct (is_space c && is_empty (rstrip s))%bool; cbn [String.length]; lia.
Qed.

Lemma str_len_strip (s : string) : str_len (strip s) <= str_len s.
Proof.
  unfold strip. pose proof (str_len_rstrip (lstrip s)). pose proof (str_len_lstrip s). lia.
Qed.

Lemma str_len_take_le (n : Z) (s : string) : str_len (take n s) <= str_len s.
Proof.
  unfold str_len, take. generalize (Z.to_nat n). intros k. revert s.
  induction k as [|k IH]; intros [|c s]; cbn; try lia. specialize (IH s). lia.
Qed.

Lemma flush_bound (max_chunk_size : Z) (chunk : string) (chunks : list string) :
  str_len chunk <= max_chunk_size ->
  Forall (fun c => str_len c <= max_chunk_size) chunks ->
  Forall (fun c => str_len c <= max_chunk_size) (flush chunk chunks).
Proof.
  intros Hchunk Hchunks. unfold flush. destruct (truthy chunk); [|done].
  apply Forall_app. split; [done|]. apply Forall_singleton.
  pose proof (str_len_strip chunk). lia.
Qed.

Lemma extend_bound (max_chunk_size : Z) (chunk piece : string) :
  str_len chunk + str_len piece + 1 <= max_chunk_size ->
  str_len (extend chunk piece) <= max_chunk_size.
Proof.
  intros Hfit. unfold extend. destruct (truthy chunk).
  - rewrite !str_len_append. change (str_len " ") with 1. lia.
  - pose proof (str_len_nonneg chunk). lia.
Qed.

Lemma split_words_bound (max_chunk_size : Z) (words chunks : list string)
    (sub_chunk : string) :
  Forall (fun w => str_len w <= max_chunk_size) words ->
  Forall (fun c => str_len c <= max_chunk_size) chunks ->
  str_len sub_chunk <= max_chunk_size ->
  Forall (fun c => str_len c <= max_chunk_size)
    (split_words max_chunk_size words chunks sub_chunk).1
  ∧ str_len (split_words max_chunk_size words chunks sub_chunk).2 <= max_chunk_size.
Proof.
  intros Hwords. revert chunks sub_chunk.
  induction Hwords as [|word words Hword Hwords IH]; intros chunks sub_chunk Hchunks Hsub;
    [done|].
  cbn [split_words].
  destruct (max_chunk_size <? str_len sub_chunk + str_len word + 1) eqn:Hfit.
  - apply IH; [by apply flush_bound|done].
  - apply Z.ltb_ge in Hfit. apply IH; [done|by apply extend_bound].
Qed.

Lemma split_loop_bound (max_chunk_size : Z) (sentences chunks : list string)
    (current_chunk : string) :
  Forall (fun sentence =>
            Forall (fun w => str_len w <= max_chunk_size) (split_char " " sentence))
    sentences ->
  Forall (fun c => str_len c <= max_chunk_size) chunks ->
  str_len current_chunk <= max_chunk_size ->
  Forall (fun c => str_len c <= max_chunk_size)
    (split_loop max_chunk_size sentences chunks current_chunk).1
  ∧ str_len (split_loop max_chunk_size sentences chunks current_chunk).2
    <= max_chunk_size.
Proof.
  intros Hsentences. revert chunks current_chunk.
  induction Hsentences as [|sentence sentences Hwords Hsentences IH];
    intros chunks current_chunk Hchunks Hcurrent; [done|].
  cbn [split_loop].
  destruct (max_chunk_size <? str_len current_chunk + str_len sentence + 1) eqn:Hfit.
  - destruct (max_chunk_size <? str_len sentence) eqn:Hlong.
    + pose proof (split_words_bound max_chunk_size (split_char " " sentence)
                    (flush current_chunk chunks) "" Hwords
                    (flush_bound _ _ _ Hcurrent Hchunks)) as Hsub.
      destruct (split_words max_chunk_size (split_char " " sentence)
                  (flush current_chunk chunks) "") as [chunks' sub_chunk].
      pose proof (str_len_nonneg current_chunk).
      cbn in Hsub. change (str_len "") with 0 in Hsub.
      destruct Hsub as [Hchunks' Hsub]; [lia|]. by apply IH.
    + apply Z.ltb_ge in Hlong. apply IH; [by apply flush_bound|done].
  - apply Z.ltb_ge in Hfit. apply IH; [done|by apply extend_bound].
Qed.

Lemma force_split_bound (content : string) (max_chunk_size : Z) :
  0 <= max_chunk_size ->
  Forall (fun c => str_len c <= max_chunk_size) (force_split content max_chunk_size).
Proof.
  intros Hmax. unfold force_split. apply Forall_fmap, Forall_forall. intros i _. cbn.
  assert (str_len (slice i (i + max_chunk_size) content) <= max_chunk_size) as Hslice.
  { unfold slice. replace (i + max_chunk_size - i) with max_chunk_size by lia.
    by apply str_len_take. }
  etrans; [apply str_len_strip|].
  repeat case_match; try done.
  etrans; [apply str_len_take_le|done].
Qed.

(** X18: Every chunk has at most [max_chunk_size] characters, provided no
    word of a sentence of the content is longer than that: a text is cut
    between sentences, and a sentence that is too long between words. *)
Theorem chunks_fit_the_limit (content : string) (max_chunk_size : Z)
    (Hmax : 0 < max_chunk_size)
    (Hwords : Forall (fun sentence =>
                        Forall (fun word => str_len word <= max_chunk_size)
                          (split_char " " sentence))
                (split_sentences (strip content))) :
  Forall (fun chunk => str_len chunk <= max_chunk_size)
    (_split_into_sections content max_chunk_size).
Proof.
  unfold _split_into_sections.
  destruct (str_len (strip content) <=? max_chunk_size) eqn:Hsmall.
  { apply Z.leb_le in Hsmall. by apply Forall_singleton. }
  pose proof (split_loop_bound max_chunk_size (split_sentences (strip content)) [] ""
                Hwords (Forall_nil_2 _)) as Hloop.
  destruct (split_loop max_chunk_size (split_sentences (strip content)) [] "")
    as [chunks current_chunk].
  cbn in Hloop. change (str_len "") with 0 in Hloop.
  destruct Hloop as [Hchunks Hcurrent]; [lia|].
  assert (Forall (fun chunk => str_len chunk <= max_chunk_size)
            (if truthy (strip current_chunk) then chunks ++ [strip current_chunk]
             else chunks)) as Hall.
  { destruct (truthy (strip current_chunk)); [|done].
    apply Forall_app. split; [done|]. apply Forall_singleton.
    pose proof (str_len_strip current_chunk). lia. }
  destruct (if truthy (strip current_chunk) then chunks ++ [strip current_chunk]
            else chunks); [|done].
  apply force_split_bound. lia.
Qed.

End chunks.

(** * Loops with their request log *)

Section logged_loops.

Lemma for_each_logged {A S} (P : list A -> S -> list request -> Prop)
    (body : A -> S -> M S) (l : list A) (E : env) :
  (forall pre x post s h s' h',
     l = pre ++ x :: post -> P pre s h -> body x s E h = (Ok s', h') ->
     P (pre ++ [x]) s' h') ->
  forall s h s' h', P [] s h -> for_each l body s E h = (Ok s', h') -> P l s' h'.
Proof.
  intros Hbody.
  assert (forall post pre s h s' h',
            l = pre ++ post -> P pre s h -> for_each post body s E h = (Ok s', h') ->
            P l s' h') as Hgen.
  { induction post as [|x post IH]; intros pre s h s' h' Hl Hs Hrun.
    - injection Hrun as <- <-. by rewrite Hl, app_nil_r.
    - simpl in Hrun. apply bind_Ok_inv in Hrun as (s1 & h1 & Hx & Hrest).
      eapply (IH (pre ++ [x])); [by rewrite <- app_assoc| |exact Hrest].
      by eapply Hbody. }
  intros s h s' h' Hs Hrun. by eapply (Hgen l []).
Qed.

End logged_loops.

(** * Several articles *)

Section batch.
Import Requests PyStr scraper_batch.

Lemma scrape_one_never_raises url st : never_raises (scrape_one url st).
Proof. unfold scrape_one. destruct st. outcomes. Qed.

Lemma scrape_one_run url results errors E h :
  (exists title headings content,
     scraper.scrape_url url E h = (Ok (title, headings, content), h ++ [Fetch url])
     ∧ scrape_one url (results, errors) E h
       = (Ok (results ++ [ {| page_url := url; page_title := title;
                              page_headings := headings; page_content := content |} ],
              errors), h ++ [Fetch url]))
  ∨ (exists e,
       scraper.scrape_url url E h = (Raise e, h ++ [Fetch url])
       ∧ scrape_one url (results, errors) E h
         = (Ok (results, errors ++ [url +:+ ": " +:+ str_exn e]), h ++ [Fetch url])).
Proof.
  unfold scrape_one, try_except, bind.
  destruct (scraper.scrape_url url E h) as [[[[title headings] content]|e] h1] eqn:Hrun;
    pose proof (scrape_url_log _ _ _ _ _ Hrun) as ->.
  - left. by eexists _, _, _.
  - right. by eexists.
Qed.

Lemma filter_none {A} (P : A -> Prop) `{!forall x, Decision (P x)} (l : list A) :
  Forall (fun x => ¬ P x) l -> filter P l = [].
Proof.
  induction 1 as [|x l Hx _ IH]; [done|]. rewrite filter_cons.
  by rewrite decide_False.
Qed.

Lemma scrape_loop_run urls results errors E h :
  for_each urls scrape_one (results, errors) E h
  = (Ok (results ++ omap page_of (scraped E h urls),
         errors ++ omap error_of (scraped E h urls)), h ++ (Fetch <$> urls)).
Proof.
  revert results errors h. induction urls as [|url urls IH]; intros results errors h.
  - cbn. by rewrite !app_nil_r.
  - cbn [for_each scraped omap list_omap fmap list_fmap]. unfold bind at 1.
    destruct (scrape_one_run url results errors E h)
      as [(title & headings & content & Hscrape & ->)|(e & Hscrape & ->)];
      rewrite IH; unfold page_of at 1, error_of at 1; cbn [fst snd]; rewrite Hscrape;
      cbn [fst]; by rewrite <- !app_assoc.
Qed.

Lemma scraped_urls E h urls : (scraped E h urls).*1 = urls.
Proof.
  revert h. induction urls as [|url urls IH]; intros h; [done|]. cbn. by rewrite IH.
Qed.

Lemma scraped_pages E h urls :
  page_url <$> omap page_of (scraped E h urls)
  = (filter (fun a => scrapable a = true) (scraped E h urls)).*1
  ∧ Forall (fun p => truthy (page_title p) = true ∧ 100 <= str_len (page_content p))
      (omap page_of (scraped E h urls))
  ∧ (List.length (omap page_of (scraped E h urls))
     + List.length (omap error_of (scraped E h urls)) = List.length urls)%nat.
Proof.
  revert h. induction urls as [|url urls IH]; intros h; [by split_and!; [|constructor|]|].
  destruct (IH (h ++ [Fetch url])) as (Hurls & Hpages & Hcount).
  cbn [scraped omap list_omap]. rewrite filter_cons.
  unfold page_of at 1 3 5, error_of at 1, scrapable at 1. cbn [fst snd].
  destruct (scraper.scrape_url url E h) as [[[[title headings] content]|e] h1] eqn:Hscrape;
    cbn [fst].
  - rewrite decide_True by done. split_and!.
    + cbn. by rewrite Hurls.
    + constructor; [|done]. by apply (scraped_article_usable url E h h1 _ _ headings).
    + cbn. lia.
  - rewrite decide_False by done. split_and!; [done|done|cbn; lia].
Qed.

(** X19: The batch scraper requests every URL once, in order, whatever
    fails.  It returns, in the order of the URLs, exactly one page for
    every URL that could be scraped, each under its URL, with a title
    and a body of at least 100 characters, and none for a URL that could
    not be scraped.  It fails exactly when no URL could be scraped, and
    then its message lists one error for every URL. *)
Theorem batch_scraping (urls : list string) (E : env) (h : list request) :
  let attempts := scraped E h urls in
  let pages := omap page_of attempts in
  let errors := omap error_of attempts in
  attempts.*1 = urls
  ∧ scrape_multiple_urls urls E h
    = (match pages with
       | [] => Raise (Exception ("Failed to scrape ALL URLs: " +:+ join "; " errors))
       | _ => Ok pages
       end, h ++ (Fetch <$> urls))
  ∧ page_url <$> pages = (filter (fun a => scrapable a = true) attempts).*1
  ∧ Forall (fun p => truthy (page_title p) = true ∧ 100 <= str_len (page_content p)) pages
  ∧ (List.length pages + List.length errors = List.length urls)%nat
  ∧ (pages = [] <-> Forall (fun a => scrapable a = false) attempts)
  ∧ (forall pre url post,
       urls = pre ++ url :: post ->
       attempts !! List.length pre
       = Some (url, (scraper.scrape_url url E (h ++ (Fetch <$> pre))).1)).
Proof.
  intros attempts pages errors.
  destruct (scraped_pages E h urls) as (Hurls & Hpages & Hcount).
  split_and!; [apply scraped_urls| |done|done|done| |].
  - unfold scrape_multiple_urls, bind. rewrite scrape_loop_run. cbn [app].
    fold attempts pages errors. by destruct pages.
  - fold attempts pages in Hurls. split.
    + intros Hnone. rewrite Hnone in Hurls. cbn in Hurls.
      symmetry in Hurls. apply fmap_nil_inv in Hurls.
      apply Forall_forall. intros a Ha.
      destruct (scrapable a) eqn:Hscrapable; [|done].
      assert (a ∈ filter (fun a => scrapable a = true) attempts) as Hin
        by (by apply list_elem_of_filter).
      rewrite Hurls in Hin. by apply elem_of_nil in Hin.
    + intros Hall. apply fmap_nil_inv with (f := page_url). rewrite Hurls.
      rewrite filter_none; [done|].
      eapply Forall_impl; [exact Hall|]. intros a Ha. cbn. congruence.
  - intros pre url post ->. unfold attempts. clear.
    revert h. induction pre as [|u pre IH]; intros h; [cbn; by rewrite app_nil_r|].
    cbn [app scraped List.length lookup list_lookup fmap list_fmap].
    rewrite IH. by rewrite <- app_assoc.
Qed.

End batch.

(** * The rotation of the request headers *)

Section headers.
Import rotation.

Lemma succ_mod_3 (m : nat) :
  (S m mod 3 = match m mod 3 with 0 => 1 | 1 => 2 | _ => 0 end)%nat.
Proof.
  replace (S m) with (m + 1)%nat by lia. rewrite Nat.Div0.add_mod.
  pose proof (Nat.mod_upper_bound m 3 ltac:(lia)) as Hlt.
  destruct (m mod 3)%nat as [|[|[|r]]]; [done|done|done|lia].
Qed.

(** X20: The agent never runs out of headers and uses its three header sets
    in turn: two requests in a row never carry the same headers, and
    every third request carries the same ones. *)
Theorem headers_rotate (request_count : nat) :
  let first := _get_rotated_headers request_count in
  let second := _get_rotated_headers first.1 in
  let third := _get_rotated_headers second.1 in
  let fourth := _get_rotated_headers third.1 in
  first.1 = S request_count
  ∧ is_Some first.2
  ∧ first.2 ≠ second.2 ∧ second.2 ≠ third.2 ∧ third.2 ≠ first.2
  ∧ fourth.2 = first.2.
Proof.
  unfold _get_rotated_headers. cbn [fst snd].
  change (List.length headers_list) with 3%nat.
  rewrite (succ_mod_3 (S (S (S request_count)))), (succ_mod_3 (S (S request_count))),
    (succ_mod_3 (S request_count)).
  pose proof (Nat.mod_upper_bound (S request_count) 3 ltac:(lia)) as Hlt.
  destruct (S request_count mod 3)%nat as [|[|[|r]]]; [| | |lia];
    by (split_and!; [done|by eexists|done..]).
Qed.

End headers.

(** * The search by article keywords *)

Section topic.
Import Requests PyStr competitor_agent topic_search.

Lemma scrape_competitor_page_run url E h :
  scrape_competitor_page url E h
  = (Ok (extract_content E (default "" (net E h (Fetch url))) url), h ++ [Fetch url]).
Proof. unfold scrape_competitor_page, bind. by rewrite fetch_page_run. Qed.

(** What matters of a [search_results] dictionary: the pages found are
    some of the given URLs, in order, and there is content exactly when
    a page was found. *)
Lemma try_path_run base_url path sr urls E h :
  (fp_url <$> pages_found sr) `sublist_of` urls ->
  (truthy (search_content_extracted sr) = true <-> pages_found sr ≠ []) ->
  exists sr',
    try_path base_url path sr E h = (Ok sr', h ++ [Fetch (base_url +:+ path)])
    ∧ (fp_url <$> pages_found sr') `sublist_of` urls ++ [base_url +:+ path]
    ∧ (truthy (search_content_extracted sr') = true <-> pages_found sr' ≠ []).
Proof.
  intros Hsub Hcontent. unfold try_path, try_except, bind. rewrite fetch_page_run.
  destruct (truthy _ && (1000 <? str_len _))%bool.
  - unfold _extract_content, bind, ask, ret.
    destruct (truthy (cd_content _)).
    + eexists. split; [done|]. cbn. split.
      * rewrite fmap_app. by apply sublist_app.
      * split; [by destruct (pages_found sr)|intros _].
        by destruct (search_content_extracted sr).
    + eexists. split; [done|]. split; [by apply sublist_inserts_r|done].
  - eexists. split; [done|]. split; [by apply sublist_inserts_r|done].
Qed.

Lemma search_competitor_for_topic_run competitor_name competitor_url search_terms E h :
  let base_url := rstrip_char "/" competitor_url in
  let urls := [competitor_url; base_url +:+ "/blog"; base_url +:+ "/resources"] in
  exists result,
    search_competitor_for_topic competitor_name competitor_url search_terms E h
    = (Ok result, h ++ (Fetch <$> urls))
    ∧ (fp_url <$> pages_found result) `sublist_of` urls
    ∧ (truthy (search_content_extracted result) = true <-> pages_found result ≠ []).
Proof.
  intros base_url urls. unfold search_competitor_for_topic, bind at 1.
  rewrite scrape_competitor_page_run.
  set (main_content := extract_content E _ competitor_url).
  set (sr0 := if truthy (cd_content main_content) then _ else _).
  assert ((fp_url <$> pages_found sr0) `sublist_of` [competitor_url]
          ∧ (truthy (search_content_extracted sr0) = true <-> pages_found sr0 ≠ []))
    as [Hsub0 Hcontent0].
  { unfold sr0. destruct (truthy (cd_content main_content)) eqn:Hmain; cbn.
    - split; [done|]. by rewrite Hmain.
    - split; [apply sublist_nil_l|]. done. }
  cbn [firstn common_paths for_each]. fold base_url.
  unfold bind at 1.
  destruct (try_path_run base_url "/blog" sr0 _ E (h ++ [Fetch competitor_url])
              Hsub0 Hcontent0) as (sr1 & -> & Hsub1 & Hcontent1).
  unfold bind at 1.
  destruct (try_path_run base_url "/resources" sr1 _ E
              ((h ++ [Fetch competitor_url]) ++ [Fetch (base_url +:+ "/blog")])
              Hsub1 Hcontent1) as (sr2 & -> & Hsub2 & Hcontent2).
  exists sr2. split; [|done]. unfold ret, urls. cbn. by rewrite <- !app_assoc.
Qed.

(** X21: The search on the site of one competitor always returns, after
    exactly three requests: the main page, then the blog page and the
    resources page.  The pages found are among these three, in this
    order; there is content exactly when a page was found; and the search
    terms have no effect. *)
Theorem topic_search_requests (competitor_name competitor_url : string)
    (search_terms : list string) (E : env) (h : list request) :
  let base_url := rstrip_char "/" competitor_url in
  let urls := [competitor_url; base_url +:+ "/blog"; base_url +:+ "/resources"] in
  exists result,
    search_competitor_for_topic competitor_name competitor_url search_terms E h
    = (Ok result, h ++ (Fetch <$> urls))
    ∧ (fp_url <$> pages_found result) `sublist_of` urls
    ∧ (truthy (search_content_extracted result) = true <-> pages_found result ≠ [])
    ∧ forall other_terms,
        search_competitor_for_topic competitor_name competitor_url other_terms E h
        = (Ok result, h ++ (Fetch <$> urls)).
Proof.
  intros base_url urls.
  destruct (search_competitor_for_topic_run competitor_name competitor_url search_terms
              E h) as (result & Hrun & Hsub & Hcontent).
  exists result. split_and!; [done..|]. by intros other_terms.
Qed.

Lemma search_competitor_run article_keywords comp rows E h :
  let base_url := rstrip_char "/" (config.comp_url comp) in
  let urls := [config.comp_url comp; base_url +:+ "/blog"; base_url +:+ "/resources"] in
  exists result,
    search_competitor_for_topic (config.comp_name comp) (config.comp_url comp)
      (firstn 5 article_keywords) E h = (Ok result, h ++ (Fetch <$> urls))
    ∧ search_competitor article_keywords comp rows E h
      = (Ok (rows ++ from_option (fun r => [r]) [] (row_of (comp, Ok result))),
         h ++ (Fetch <$> urls))
    ∧ (fp_url <$> pages_found result) `sublist_of` urls
    ∧ (truthy (search_content_extracted result) = true <-> pages_found result ≠ []).
Proof.
  intros base_url urls. unfold search_competitor, try_except, bind.
  destruct (search_competitor_for_topic_run (config.comp_name comp) (config.comp_url comp)
              (firstn 5 article_keywords) E h) as (result & Hrun & Hsub & Hcontent).
  fold base_url urls in Hrun, Hsub. rewrite Hrun. exists result.
  split_and!; [done| |done|done].
  unfold row_of. cbn [fst snd].
  destruct (truthy (search_content_extracted result)); [done|].
  cbn. by rewrite app_nil_r.
Qed.

Lemma search_loop_run article_keywords competitors rows E h :
  let site := fun comp =>
    [ config.comp_url comp;
      rstrip_char "/" (config.comp_url comp) +:+ "/blog";
      rstrip_char "/" (config.comp_url comp) +:+ "/resources" ] in
  for_each competitors (search_competitor article_keywords) rows E h
  = (Ok (rows ++ omap row_of (searched E h (firstn 5 article_keywords) competitors)),
     h ++ (Fetch <$> concat (site <$> competitors))).
Proof.
  intros site. revert rows h.
  induction competitors as [|comp competitors IH]; intros rows h.
  - cbn. by rewrite !app_nil_r.
  - destruct (search_competitor_run article_keywords comp rows E h)
      as (result & Hsearch & Hrun & _).
    cbn [for_each searched]. unfold bind at 1. rewrite Hrun, Hsearch, IH.
    cbn [omap list_omap fmap list_fmap concat]. f_equal.
    + f_equal. rewrite <- app_assoc. f_equal. by destruct (row_of (comp, Ok result)).
    + rewrite fmap_app, app_assoc. done.
Qed.

(** The rows of the competitors whose search gave content. *)
Lemma searched_rows terms competitors E h :
  let site := fun comp =>
    [ config.comp_url comp;
      rstrip_char "/" (config.comp_url comp) +:+ "/blog";
      rstrip_char "/" (config.comp_url comp) +:+ "/resources" ] in
  let found := searched E h terms competitors in
  found.*1 = competitors
  ∧ Forall (fun f => exists result, f.2 = Ok result) found
  ∧ ((fun r => (kc_competitor_name r, kc_competitor_url r)) <$> omap row_of found)
    = (fun f => (config.comp_name f.1, config.comp_url f.1))
        <$> filter (fun f => without_content f = false) found
  ∧ Forall (fun r =>
              truthy (kc_content r) = true
              ∧ str_len (kc_content r) <= 6000
              ∧ (List.length (kc_headings r) <= 20)%nat
              ∧ kc_pages_scraped r = List.length (kc_urls_scraped r)
              ∧ (1 <= kc_pages_scraped r <= 3)%nat
              ∧ exists comp, comp ∈ competitors ∧ kc_urls_scraped r `sublist_of` site comp)
      (omap row_of found)
  ∧ forall pre comp post,
      competitors = pre ++ comp :: post ->
      found !! List.length pre
      = Some (comp,
              (search_competitor_for_topic (config.comp_name comp) (config.comp_url comp)
                 terms E (h ++ (Fetch <$> concat (site <$> pre)))).1).
Proof.
  intros site. revert h.
  induction competitors as [|comp competitors IH]; intros h found.
  { split_and!; [done|constructor|done|constructor|]. by intros [|]. }
  destruct (search_competitor_for_topic_run (config.comp_name comp) (config.comp_url comp)
              terms E h) as (result & Hrun & Hsub & Hcontent).
  unfold found. cbn [searched]. rewrite Hrun.
  assert (h ++ (Fetch <$> site comp)
          = h ++ (Fetch <$> [config.comp_url comp;
                             rstrip_char "/" (config.comp_url comp) +:+ "/blog";
                             rstrip_char "/" (config.comp_url comp) +:+ "/resources"]))
    as Hlog by done.
  rewrite <- Hlog. generalize dependent (h ++ (Fetch <$> site comp)). intros h1 Hlog.
  destruct (IH h1) as (Hfst & Hok & Hnames & Hrows & Hat).
  split_and!.
  - cbn. by rewrite Hfst.
  - constructor; [by exists result|done].
  - cbn [omap list_omap]. rewrite filter_cons.
    destruct (truthy (search_content_extracted result)) eqn:Htruthy.
    + rewrite decide_True by (unfold without_content; cbn; by rewrite Htruthy).
      unfold row_of at 1. cbn [fst snd]. rewrite Htruthy. cbn. by rewrite Hnames.
    + rewrite decide_False by (unfold without_content; cbn; by rewrite Htruthy).
      unfold row_of at 1. cbn [fst snd]. by rewrite Htruthy.
  - assert (Forall (fun r =>
              truthy (kc_content r) = true
              ∧ str_len (kc_content r) <= 6000
              ∧ (List.length (kc_headings r) <= 20)%nat
              ∧ kc_pages_scraped r = List.length (kc_urls_scraped r)
              ∧ (1 <= kc_pages_scraped r <= 3)%nat
              ∧ exists c, c ∈ comp :: competitors
                          ∧ kc_urls_scraped r `sublist_of` site c)
              (omap row_of (searched E h1 terms competitors)))
      as Hrest.
    { eapply Forall_impl; [exact Hrows|].
      intros r (? & ? & ? & ? & ? & c & Hc & ?). do 5 (split; [done|]).
      exists c. split; [by right|done]. }
    cbn [omap list_omap]. unfold row_of at 1. cbn [fst snd].
    destruct (truthy (search_content_extracted result)) eqn:Htruthy; [|done].
    constructor; [|done]. cbn.
    apply sublist_length in Hsub as Hlen. rewrite length_fmap in Hlen. cbn in Hlen.
    split; [by apply truthy_take|]. split; [by apply str_len_take|].
    split; [rewrite length_take; lia|]. split; [by rewrite length_fmap|].
    split; [|exists comp; split; [left|done]].
    destruct (pages_found result); [|cbn in *; lia]. by destruct (proj1 Hcontent).
  - intros pre c post Hsplit. destruct pre as [|c0 pre].
    + injection Hsplit as <- <-.
      cbn [List.length lookup list_lookup fmap list_fmap concat].
      by rewrite app_nil_r, Hrun.
    + injection Hsplit as <- ->. cbn -[search_competitor_for_topic searched site].
      specialize (Hat pre c post eq_refl). subst h1.
      rewrite fmap_app, app_assoc. exact Hat.
Qed.

(** X22: The search by article keywords makes exactly three requests for
    every competitor of the product, in the order of the configuration,
    whatever fails.  It returns, in that order, exactly one row for
    every competitor whose search gave content and none for the others;
    a row holds the content found, cut at 6,000 characters, the first 20
    headings and the URLs of the pages found, between one and three,
    which its page count counts.  It fails if and only if the search
    gave content for no competitor. *)
Theorem keyword_search_rows (product : string) (article_keywords : list string)
    (article_title : string) (competitors : list config.competitor) (E : env)
    (h : list request)
    (Hproduct : config.PRODUCT_COMPETITORS product = Some competitors) :
  let site := fun comp =>
    [ config.comp_url comp;
      rstrip_char "/" (config.comp_url comp) +:+ "/blog";
      rstrip_char "/" (config.comp_url comp) +:+ "/resources" ] in
  let found := searched E h (firstn 5 article_keywords) competitors in
  let rows := omap row_of found in
  get_competitor_content_for_keywords product article_keywords article_title E h
  = (match rows with
     | [] => Raise (Exception ("Failed to scrape content from any competitor websites for product: "
                               +:+ product))
     | _ => Ok rows
     end, h ++ (Fetch <$> concat (site <$> competitors)))
  ∧ (rows = [] <-> Forall (fun f => without_content f = true) found)
  ∧ found.*1 = competitors
  ∧ Forall (fun f => exists result, f.2 = Ok result) found
  ∧ ((fun r => (kc_competitor_name r, kc_competitor_url r)) <$> rows)
    = (fun f => (config.comp_name f.1, config.comp_url f.1))
        <$> filter (fun f => without_content f = false) found
  ∧ Forall (fun r =>
              truthy (kc_content r) = true
              ∧ str_len (kc_content r) <= 6000
              ∧ (List.length (kc_headings r) <= 20)%nat
              ∧ kc_pages_scraped r = List.length (kc_urls_scraped r)
              ∧ (1 <= kc_pages_scraped r <= 3)%nat
              ∧ exists comp, comp ∈ competitors ∧ kc_urls_scraped r `sublist_of` site comp)
      rows
  ∧ forall pre comp post,
      competitors = pre ++ comp :: post ->
      found !! List.length pre
      = Some (comp,
              (search_competitor_for_topic (config.comp_name comp) (config.comp_url comp)
                 (firstn 5 article_keywords) E
                 (h ++ (Fetch <$> concat (site <$> pre)))).1).
Proof.
  intros site found rows.
  destruct (searched_rows (firstn 5 article_keywords) competitors E h)
    as (Hfst & Hok & Hnames & Hrows & Hat).
  fold found rows in Hfst, Hok, Hnames, Hrows, Hat.
  split_and!; [| |done..].
  - unfold get_competitor_content_for_keywords, get_competitors. rewrite Hproduct.
    unfold bind at 1, lift. unfold bind.
    rewrite search_loop_run. cbn [app]. fold found rows site. by destruct rows.
  - split.
    + intros Hnone. rewrite Hnone in Hnames. cbn in Hnames.
      symmetry in Hnames. apply fmap_nil_inv in Hnames.
      apply Forall_forall. intros f Hf.
      destruct (without_content f) eqn:Hwithout; [done|].
      assert (f ∈ filter (fun f => without_content f = false) found) as Hin
        by (by apply list_elem_of_filter).
      rewrite Hnames in Hin. by apply elem_of_nil in Hin.
    + intros Hall.
      apply fmap_nil_inv with (f := fun r => (kc_competitor_name r, kc_competitor_url r)).
      rewrite Hnames, filter_none; [done|].
      eapply Forall_impl; [exact Hall|]. intros f Hf. cbn. congruence.
Qed.

Lemma extract_content_shape (E : env) (html url : string) :
  let data := extract_content E html url in
  cd_url data = url
  ∧ str_len (cd_content data) <= 8000
  ∧ (List.length (cd_headings data) <= 30)%nat
  ∧ Forall (fun text => 3 < str_len text) (cd_headings data)
  ∧ (truthy html = false -> cd_content data = "" ∧ cd_headings data = []).
Proof.
  unfold extract_content. destruct (truthy html); cbn.
  - split_and!; [done|by apply str_len_take|rewrite length_take; lia| |done].
    apply Forall_take, Forall_forall. intros text Htext.
    apply list_elem_of_filter in Htext as [Htext _].
    apply Is_true_true_1, andb_true_iff in Htext as [_ Htext]. by apply Z.ltb_lt in Htext.
  - split_and!; [done|unfold str_len; cbn; lia|cbn; lia|constructor|done].
Qed.

(** X23: The scraper of the main pages requests the main page of every
    competitor of the product, in the order of the configuration, and
    returns one entry for every competitor, also for a page that could
    not be fetched: such an entry has no content and no heading.  The
    content of an entry has at most 8,000 characters and there are at
    most 30 headings, each longer than three characters. *)
Theorem every_competitor_gets_an_entry (product : string)
    (competitors : list config.competitor) (E : env) (h : list request)
    (Hproduct : config.PRODUCT_COMPETITORS product = Some competitors) :
  exists results,
    scrape_all_competitors product E h
    = (Ok results, h ++ (Fetch <$> (config.comp_url <$> competitors)))
    ∧ Forall2 (fun comp (entry : string * content_data) =>
                 entry.1 = config.comp_name comp
                 ∧ cd_url entry.2 = config.comp_url comp
                 ∧ str_len (cd_content entry.2) <= 8000
                 ∧ (List.length (cd_headings entry.2) <= 30)%nat
                 ∧ Forall (fun text => 3 < str_len text) (cd_headings entry.2))
        competitors results
    ∧ forall i comp entry,
        competitors !! i = Some comp -> results !! i = Some entry ->
        net E (h ++ (Fetch <$> (config.comp_url <$> firstn i competitors)))
          (Fetch (config.comp_url comp)) = None ->
        cd_content entry.2 = "" ∧ cd_headings entry.2 = [].
Proof.
  unfold scrape_all_competitors, get_competitors. rewrite Hproduct.
  unfold bind at 1, lift.
  set (body := fun comp results =>
                 let* data := scrape_competitor_page (config.comp_url comp) in
                 ret (results ++ [(config.comp_name comp, data)])).
  assert (forall comp results E0 h0,
            body comp results E0 h0
            = (Ok (results ++
                   [(config.comp_name comp,
                     extract_content E0 (default "" (net E0 h0 (Fetch (config.comp_url comp))))
                       (config.comp_url comp))]),
               h0 ++ [Fetch (config.comp_url comp)])) as Hbody.
  { intros. unfold body, bind. by rewrite scrape_competitor_page_run. }
  assert (never_raises (for_each competitors body [])) as Hnever.
  { apply never_raises_for_each. intros comp results E0 h0. rewrite Hbody. by eexists _, _. }
  destruct (Hnever E h) as (results & h' & Hloop). exists results.
  cut (h' = h ++ (Fetch <$> (config.comp_url <$> competitors))
       ∧ Forall2 (fun comp (entry : string * content_data) =>
                    entry.1 = config.comp_name comp
                    ∧ cd_url entry.2 = config.comp_url comp
                    ∧ str_len (cd_content entry.2) <= 8000
                    ∧ (List.length (cd_headings entry.2) <= 30)%nat
                    ∧ Forall (fun text => 3 < str_len text) (cd_headings entry.2))
           competitors results
       ∧ forall i comp entry,
           competitors !! i = Some comp -> results !! i = Some entry ->
           net E (h ++ (Fetch <$> (config.comp_url <$> firstn i competitors)))
             (Fetch (config.comp_url comp)) = None ->
           cd_content entry.2 = "" ∧ cd_headings entry.2 = []).
  { intros (-> & Hentries & Hfailed). by split_and!. }
  revert Hloop.
  apply (for_each_logged
           (fun done results h0 =>
              h0 = h ++ (Fetch <$> (config.comp_url <$> done))
              ∧ Forall2 (fun comp (entry : string * content_data) =>
                           entry.1 = config.comp_name comp
                           ∧ cd_url entry.2 = config.comp_url comp
                           ∧ str_len (cd_content entry.2) <= 8000
                           ∧ (List.length (cd_headings entry.2) <= 30)%nat
                           ∧ Forall (fun text => 3 < str_len text) (cd_headings entry.2))
                  done results
              ∧ forall i comp entry,
                  done !! i = Some comp -> results !! i = Some entry ->
                  net E (h ++ (Fetch <$> (config.comp_url <$> firstn i done)))
                    (Fetch (config.comp_url comp)) = None ->
                  cd_content entry.2 = "" ∧ cd_headings entry.2 = []));
    [|split_and!; [by rewrite app_nil_r|constructor|by intros i comp entry Hi]].
  intros done comp post results0 h0 results1 h1 _ (-> & Hentries & Hfailed) Hrun.
  rewrite Hbody in Hrun. injection Hrun as <- <-.
  pose proof (extract_content_shape E
                (default "" (net E (h ++ (Fetch <$> (config.comp_url <$> done)))
                               (Fetch (config.comp_url comp))))
                (config.comp_url comp)) as Hshape.
  cbv zeta in Hshape. destruct Hshape as (Hurl & Hlen & Hcount & Hlong & Hempty).
  split_and!.
  - by rewrite !fmap_app, app_assoc.
  - apply Forall2_app; [done|]. constructor; [|constructor]. by split_and!.
  - intros i comp' entry Hi Hentry Hnet.
    apply Forall2_length in Hentries as Hsame.
    destruct (decide (i < List.length done)%nat) as [Hlt|Hge].
    + rewrite lookup_app_l in Hi by done. rewrite lookup_app_l in Hentry by lia.
      rewrite take_app_le in Hnet by lia. by eapply Hfailed.
    + apply lookup_lt_Some in Hi as Hbound. rewrite length_app in Hbound. cbn in Hbound.
      assert (i = List.length done) as -> by lia.
      rewrite list_lookup_middle in Hi by done. injection Hi as <-.
      rewrite Hsame, list_lookup_middle in Hentry by done. injection Hentry as <-.
      rewrite take_app_length in Hnet. cbn [snd]. rewrite Hnet in Hempty |- *.
      by apply Hempty.
Qed.

End topic.

(** * More concrete runs *)

Section more_concrete.
Import Requests PyStr llm_client competitor_agent pipeline Examples Scenarios.

Lemma analyze_url_status_witness :
  exists detail,
    analyze_url forms_article "Forms" "month" scenario_A []
    = (Raise (HTTPException 500 detail), [Fetch forms_article]).
Proof.
  destruct (analyze_url forms_article "Forms" "month" scenario_A [])
    as [[a|e] h'] eqn:Hrun; [by vm_compute in Hrun|].
  destruct (proj2 (analyze_url_status _ _ _ _ _ _ _ Hrun)) as [detail ->].
  { split_and!; [by eexists|repeat constructor|by vm_compute]. }
  exists detail. vm_compute in Hrun. injection Hrun as <- <-. by vm_compute.
Defined.

Lemma extracted_keywords_are_complete_witness :
  exists out h',
    extract_article_keywords "T" [] "C" "U" "month" keyword_oracle [] = (Ok out, h')
    ∧ keyword <$> out = ["form validation"; "reCAPTCHA"]
    ∧ (List.length out <= 10)%nat.
Proof.
  destruct (extract_article_keywords "T" [] "C" "U" "month" keyword_oracle [])
    as [[out|e] h'] eqn:Hrun; [|by vm_compute in Hrun].
  exists out, h'. split; [done|]. split.
  - vm_compute in Hrun. by injection Hrun as <- <-.
  - exact (proj1 (proj2 (extracted_keywords_are_complete _ _ _ _ _ _ _ _ _ Hrun))).
Defined.

Lemma extraction_needs_every_metric_witness :
  exists msg,
    extract_article_keywords "T" [] "C" "U" "month" incomplete_oracle []
    = (Raise (Exception msg),
       [Chat "extract_article_keywords" ["U"; "T"; "C"; "month"; "monthly_volume"]]).
Proof.
  apply (extraction_needs_every_metric "T" [] "C" "U" "month" "monthly_volume"
           incomplete_oracle [] "{keywords}" "{keywords}"
           [article_keyword_obj "form validation" 2400; product_name_without_cpc]
           product_name_without_cpc "AEM Forms").
  - reflexivity.
  - reflexivity.
  - by vm_compute.
  - reflexivity.
  - right. left.
  - reflexivity.
  - reflexivity.
  - right. left. reflexivity.
Defined.

Lemma keyword_mappings_shape_witness :
  exists data h',
    get_competitor_keywords
      [row "form validation" (Some 2400); row "reCAPTCHA" (Some 900)]
      "Forms" "month" "T" "C" [scraped "Typeform" "x"; scraped "Jotform" "y"]
      keyword_oracle [] = (Ok data, h')
    ∧ article_keyword <$> keyword_mappings data
      = [("form validation", Some 2400); ("reCAPTCHA", Some 900)]
    ∧ (List.length (keyword_mappings data) <= 5)%nat.
Proof.
  destruct (get_competitor_keywords
              [row "form validation" (Some 2400); row "reCAPTCHA" (Some 900)]
              "Forms" "month" "T" "C" [scraped "Typeform" "x"; scraped "Jotform" "y"]
              keyword_oracle []) as [[data|e] h'] eqn:Hrun; [|by vm_compute in Hrun].
  exists data, h'. split; [done|]. split.
  - vm_compute in Hrun. by injection Hrun as <- <-.
  - exact (proj1 (proj2 (keyword_mappings_shape _ _ _ _ _ _ _ _ _ _ Hrun))).
Defined.

Lemma competitor_keywords_shape_witness :
  exists data h',
    get_competitor_keywords
      [row "form validation" (Some 2400); row "reCAPTCHA" (Some 900)]
      "Forms" "month" "T" "C" [scraped "Typeform" "x"; scraped "Jotform" "y"]
      keyword_oracle [] = (Ok data, h')
    ∧ (fun e => (keyword e, used_by e)) <$> all_competitor_keywords data
      = [("Spam Protection", ["Typeform"; "Jotform"])]
    ∧ (List.length (all_competitor_keywords data) <= 10)%nat.
Proof.
  destruct (get_competitor_keywords
              [row "form validation" (Some 2400); row "reCAPTCHA" (Some 900)]
              "Forms" "month" "T" "C" [scraped "Typeform" "x"; scraped "Jotform" "y"]
              keyword_oracle []) as [[data|e] h'] eqn:Hrun; [|by vm_compute in Hrun].
  exists data, h'. split; [done|]. split.
  - vm_compute in Hrun. by injection Hrun as <- <-.
  - exact (proj1 (competitor_keywords_shape _ _ _ _ _ _ _ _ _ _ Hrun)).
Defined.

Lemma competitor_content_rows_witness :
  exists rows h',
    get_competitor_content_for_capability "Forms" form_validation (small_site 600 600) []
    = (Ok rows, h')
    ∧ competitor_name <$> rows = ["Typeform"; "Jotform"; "Formstack"; "Wufoo"]
    ∧ rows ≠ [].
Proof.
  destruct (get_competitor_content_for_capability "Forms" form_validation
              (small_site 600 600) []) as [[rows|e] h'] eqn:Hrun;
    [|by vm_compute in Hrun].
  exists rows, h'. split; [done|]. split.
  - vm_compute in Hrun. by injection Hrun as <- <-.
  - exact (proj1 (competitor_content_rows _ _ _ _ _ _ Hrun)).
Defined.

Lemma competitor_content_failures_witness :
  exists msg h',
    get_competitor_content_for_capability "Forms" form_validation scenario_A []
    = (Raise (Exception msg), h')
    ∧ List.length h' = 12%nat.
Proof.
  destruct (get_competitor_content_for_capability "Forms" form_validation scenario_A [])
    as [[rows|e] h'] eqn:Hrun; [by vm_compute in Hrun|].
  destruct (proj1 (competitor_content_failures _ _ _ _ _ _ Hrun)) as [msg ->].
  exists msg, h'. split; [done|].
  vm_compute in Hrun. by injection Hrun as _ <-.
Defined.

Lemma guess_failure_falls_back_witness :
  exists rows h',
    process_competitor form_validation (Some "Form Validation") typeform [] oracle_down []
    = (Ok rows, h')
    ∧ pages_scraped <$> rows = [1%nat]
    ∧ List.length h' = 2%nat.
Proof.
  eexists _, _. split.
  - refine (proj1 (guess_failure_falls_back oracle_down [] _ form_validation
                     (Some "Form Validation") typeform [] _ _)).
    vm_compute. reflexivity.
  - by vm_compute.
Defined.

(** The candidates give 150 characters each, the second request for
    the main page fails, and the main page fetched at the start had 650
    characters: the competitor gets the row of the main page. *)
Lemma base_url_is_requested_again_witness :
  exists row h',
    process_competitor form_validation (Some "Form Validation") typeform []
      vanishing_main_page [] = (Ok [row], h')
    ∧ urls_scraped row = [config.comp_url typeform]
    ∧ pages_scraped row = 1%nat
    ∧ str_len (content row) = 650
    ∧ List.length h' = 8%nat.
Proof.
  pose proof (proj2 (proj2 (base_url_is_requested_again vanishing_main_page))
                form_validation (Some "Form Validation") typeform [] []) as H.
  cbv zeta in H.
  edestruct H as (rows & Hrun & Hrows); [vm_compute; reflexivity|].
  assert ((200 <? str_len (cd_content
             (extract_content vanishing_main_page
                (default "" (net vanishing_main_page []
                               (Fetch (config.comp_url typeform))))
                (config.comp_url typeform)))) = true) as Hlong
    by (vm_compute; reflexivity).
  rewrite Hlong in Hrows. destruct Hrows as (r & -> & _ & Hurls & Hpages & Hcontent).
  exists r. eexists. split; [exact Hrun|].
  rewrite Hurls, Hpages, Hcontent. vm_compute. split_and!; reflexivity.
Defined.

Lemma scraped_article_is_usable_witness :
  exists title headings content h',
    scraper.scrape_url forms_article article_site []
    = (Ok (title, headings, content), h')
    ∧ headings = ["Validation rules"]
    ∧ 100 <= str_len content.
Proof.
  destruct (scraper.scrape_url forms_article article_site [])
    as [[[[title headings] content]|e] h'] eqn:Hrun; [|by vm_compute in Hrun].
  exists title, headings, content, h'. split; [done|]. split.
  - vm_compute in Hrun. by injection Hrun as <- <- <- <-.
  - exact (proj1 (proj2 (proj2 (scraped_article_is_usable _ _ _ _ _ _ _ Hrun)))).
Defined.

Lemma article_failure_stops_analysis_witness :
  exists e,
    full_seo_analysis forms_article "Forms" "month" scenario_A []
    = (Raise e, [Fetch forms_article]).
Proof.
  eexists.
  refine (proj1 (article_failure_stops_analysis forms_article "Forms" "month" scenario_A
                   [] _ _ _ _)); [by eexists|].
  left. vm_compute. reflexivity.
Defined.

Lemma url_valid_for_one_product_witness :
  exists prefix,
    URL_PATTERNS "Forms" = Some prefix ∧ startswith prefix forms_article = true.
Proof.
  exact (proj2 (url_valid_for_one_product forms_article "Forms" "Forms"
                  eq_refl eq_refl)).
Defined.

(** The oracle is down for one competitor and answers for the other. *)
Lemma mapping_failures_are_isolated_witness :
  map_competitor "form validation" "T" "C" "month" "monthly_volume"
    (scraped "Typeform" "x") [] article_site []
  = (Ok [],
     [Chat "find_competitor_keyword_for_article_keyword"
        ["form validation"; "T. C"; "Typeform"; ""; "x"; "monthly_volume"]])
  ∧ exists t,
      map_competitor "form validation" "T" "C" "month" "monthly_volume"
        (scraped "Typeform" "x") [] keyword_oracle []
      = (Ok [t],
         [Chat "find_competitor_keyword_for_article_keyword"
            ["form validation"; "T. C"; "Typeform"; ""; "x"; "monthly_volume"]])
      ∧ t_keyword t = "Spam Protection" ∧ t_competitor t = "Typeform".
Proof.
  split.
  - destruct (mapping_failures_are_isolated "form validation" "T" "C" "month"
                "monthly_volume" (scraped "Typeform" "x") [] article_site [])
      as (terms & h' & Hrun & _ & _ & Hcase).
    destruct (Hcase eq_refl "monthly_volume" eq_refl) as [Hlog Hterms].
    vm_compute in Hlog, Hterms. by rewrite Hrun, Hlog, Hterms.
  - destruct (mapping_failures_are_isolated "form validation" "T" "C" "month"
                "monthly_volume" (scraped "Typeform" "x") [] keyword_oracle [])
      as (terms & h' & Hrun & _ & _ & Hcase).
    destruct (Hcase eq_refl "monthly_volume" eq_refl) as [Hlog Hterms].
    vm_compute in Hlog, Hterms. eexists. rewrite Hrun, Hlog, Hterms.
    split; [reflexivity|]. by split.
Defined.

(** Two chunks: the second attempt for the first chunk gives a usable
    answer inside a code fence, the oracle fails for the second chunk. *)
Lemma rewrite_keeps_every_chunk_witness :
  exists result h',
    rewriting.rewrite_content_for_seo id id two_sentences ["validation"] "professional"
      flaky_rewriter [] = (Ok result, h')
    ∧ rewriting.rewritten_content result
      = "<p>" +:+ repeat_char "x" 60 +:+ "</p>" +:+ nl +:+ nl
        +:+ "<p>" +:+ repeat_char "b" 2500 +:+ ".</p>"
    ∧ rewriting.chunks_processed result = 1%nat
    ∧ rewriting.total_chunks result = 2%nat
    ∧ List.length h' = 4%nat.
Proof.
  pose proof (rewrite_keeps_every_chunk id id two_sentences ["validation"] "professional"
                flaky_rewriter [] ltac:(done)) as H.
  cbv zeta in H. destruct H as (Hrun & _).
  eexists _, _. split; [exact Hrun|]. vm_compute. split_and!; reflexivity.
Defined.

Lemma chunks_fit_the_limit_witness :
  rewriting._split_into_sections "Check the form. Is every field valid? Submit it!" 25
  = ["Check the form."; "Is every field valid?"; "Submit it!"]
  ∧ Forall (fun chunk => str_len chunk <= 25)
      (rewriting._split_into_sections
         "Check the form. Is every field valid? Submit it!" 25).
Proof.
  split; [by vm_compute|].
  apply (chunks_fit_the_limit "Check the form. Is every field valid? Submit it!" 25);
    [lia|].
  vm_compute. repeat first [apply Forall_nil_2|apply Forall_cons_2|discriminate].
Defined.

(** Only one of the four competitors is reachable; then none is. *)
Lemma keyword_search_rows_witness :
  (exists row h',
     topic_search.get_competitor_content_for_keywords "Forms" ["form validation"] "T"
       jotform_only [] = (Ok [row], h')
     ∧ topic_search.kc_competitor_name row = "Jotform"
     ∧ topic_search.kc_urls_scraped row
       = ["https://www.jotform.com/"; "https://www.jotform.com/blog";
          "https://www.jotform.com/resources"]
     ∧ topic_search.kc_pages_scraped row = 3%nat
     ∧ List.length h' = 12%nat)
  ∧ exists h',
      topic_search.get_competitor_content_for_keywords "Forms" ["form validation"] "T"
        scenario_A []
      = (Raise (Exception "Failed to scrape content from any competitor websites for product: Forms"),
         h')
      ∧ List.length h' = 12%nat.
Proof.
  split.
  - pose proof (keyword_search_rows "Forms" ["form validation"] "T" _ jotform_only []
                  eq_refl) as H.
    cbv zeta in H. destruct H as (Hrun & _).
    eexists _, _. split; [exact Hrun|]. vm_compute. split_and!; reflexivity.
  - pose proof (keyword_search_rows "Forms" ["form validation"] "T" _ scenario_A []
                  eq_refl) as H.
    cbv zeta in H. destruct H as (Hrun & _).
    eexists. split; [exact Hrun|]. vm_compute. reflexivity.
Defined.

(** Two of four URLs can be scraped; then none can. *)
Lemma batch_scraping_witness :
  (exists pages h',
     scraper_batch.scrape_multiple_urls
       ["https://x.example.com/a"; "https://docs.example.com/b";
        "https://docs.example.com/c"; "https://y.example.com/"] docs_only []
     = (Ok pages, h')
     ∧ scraper_batch.page_url <$> pages
       = ["https://docs.example.com/b"; "https://docs.example.com/c"]
     ∧ List.length h' = 4%nat)
  ∧ exists msg,
      scraper_batch.scrape_multiple_urls
        ["https://x.example.com/a"; "https://y.example.com/"] docs_only []
      = (Raise (Exception msg),
         [Fetch "https://x.example.com/a"; Fetch "https://y.example.com/"]).
Proof.
  split.
  - pose proof (batch_scraping
                  ["https://x.example.com/a"; "https://docs.example.com/b";
                   "https://docs.example.com/c"; "https://y.example.com/"] docs_only [])
      as H.
    cbv zeta in H. destruct H as (_ & Hrun & _).
    eexists _, _. split; [exact Hrun|]. vm_compute. split; reflexivity.
  - pose proof (batch_scraping ["https://x.example.com/a"; "https://y.example.com/"]
                  docs_only []) as H.
    cbv zeta in H. destruct H as (_ & Hrun & _).
    eexists. exact Hrun.
Defined.

Lemma every_competitor_gets_an_entry_witness :
  exists results h',
    topic_search.scrape_all_competitors "Forms" scenario_A [] = (Ok results, h')
    ∧ results.*1 = ["Typeform"; "Jotform"; "Formstack"; "Wufoo"]
    ∧ List.length h' = 4%nat.
Proof.
  destruct (every_competitor_gets_an_entry "Forms" _ scenario_A [] eq_refl)
    as (results & Hrun & _).
  eexists _, _. split; [exact Hrun|]. split; [|by vm_compute].
  vm_compute in Hrun. by injection Hrun as <-.
Defined.

End more_concrete.
